(** * Lvacfs: binding layer for the LVACFS wrapper library

    A shallow embedding of [hal/Lvacfs.cpp].  The Engine ([Lvacfs]) owns a
    table of entry points resolved with [dlsym] from a library opened with
    [dlopen]; each input stream owns a heap slot ([lvacfs_handle]) that the
    library fills with its instance pointer.

    Pointers are integers, [0] being the null pointer.  Everything the code
    does to the outside (loader calls, calls into the library, heap
    operations, log lines, the per-stream mutex) is appended to a trace. *)

From stdpp Require Import base numbers strings gmap list.
From Stdlib Require Import ZArith Lia.

Local Open Scope Z_scope.

(** ** Machine integers *)

Definition to_uint32 (x : Z) : Z := x mod 2 ^ 32.
Definition to_uint64 (x : Z) : Z := x mod 2 ^ 64.

(** Conversion to [int] (32-bit, two's complement). *)
Definition to_int (x : Z) : Z :=
  let y := x mod 2 ^ 32 in if y <? 2 ^ 31 then y else y - 2 ^ 32.

(** [size_t] has 64 bits under [__LP64__] and 32 bits otherwise. *)
Definition size_bits (LP64 : bool) : Z := if LP64 then 64 else 32.
Definition to_size_t (LP64 : bool) (x : Z) : Z := x mod 2 ^ size_bits LP64.

(** ** Paths (the [#define]s at the top of the file) *)

Definition VENDOR_LIBS (LP64 : bool) : string :=
  if LP64 then "/vendor/lib64/" else "/vendor/lib/".
Definition ODM_LIBS (LP64 : bool) : string :=
  if LP64 then "/odm/lib64/" else "/odm/lib/".
Definition LVACFS_WRAPPER_LIB_NAME : string := "liblvacfs_wrapper.so".
Definition VENDOR_LIB_PATH (LP64 : bool) : string :=
  VENDOR_LIBS LP64 +:+ LVACFS_WRAPPER_LIB_NAME.
Definition ODM_LIB_PATH (LP64 : bool) : string :=
  ODM_LIBS LP64 +:+ LVACFS_WRAPPER_LIB_NAME.

Definition ODM_PARAMS_DIR_PATH : string := "/odm/etc/lvacfs_params".
Definition VENDOR_PARAMS_DIR_PATH : string := "/vendor/etc/lvacfs_params".

(** ** The table of entry points, [struct lvacfs_wrapper_ops] *)

Record lvacfs_wrapper_ops : Type := mk_ops {
  lib_handle : Z;
  create_instance : Z;
  destroy_instance : Z;
  process : Z;
  update_zoom_info : Z;
  update_angle_info : Z;
  set_params_file_path : Z;
  set_profile : Z;
  set_audio_direction : Z;
  set_device_orientation : Z;
  get_versions : Z
}.

(** What [std::make_unique<struct lvacfs_wrapper_ops>()] yields: every
    member value-initialised, that is null. *)
Definition zeroed_ops : lvacfs_wrapper_ops := mk_ops 0 0 0 0 0 0 0 0 0 0 0.

Definition set_lib_handle (p : Z) (o : lvacfs_wrapper_ops) :=
  mk_ops p (create_instance o) (destroy_instance o) (process o)
    (update_zoom_info o) (update_angle_info o) (set_params_file_path o)
    (set_profile o) (set_audio_direction o) (set_device_orientation o)
    (get_versions o).
Definition set_create_instance (p : Z) (o : lvacfs_wrapper_ops) :=
  mk_ops (lib_handle o) p (destroy_instance o) (process o)
    (update_zoom_info o) (update_angle_info o) (set_params_file_path o)
    (set_profile o) (set_audio_direction o) (set_device_orientation o)
    (get_versions o).
Definition set_destroy_instance (p : Z) (o : lvacfs_wrapper_ops) :=
  mk_ops (lib_handle o) (create_instance o) p (process o)
    (update_zoom_info o) (update_angle_info o) (set_params_file_path o)
    (set_profile o) (set_audio_direction o) (set_device_orientation o)
    (get_versions o).
Definition set_process (p : Z) (o : lvacfs_wrapper_ops) :=
  mk_ops (lib_handle o) (create_instance o) (destroy_instance o) p
    (update_zoom_info o) (update_angle_info o) (set_params_file_path o)
    (set_profile o) (set_audio_direction o) (set_device_orientation o)
    (get_versions o).
Definition set_update_zoom_info (p : Z) (o : lvacfs_wrapper_ops) :=
  mk_ops (lib_handle o) (create_instance o) (destroy_instance o) (process o)
    p (update_angle_info o) (set_params_file_path o)
    (set_profile o) (set_audio_direction o) (set_device_orientation o)
    (get_versions o).
Definition set_update_angle_info (p : Z) (o : lvacfs_wrapper_ops) :=
  mk_ops (lib_handle o) (create_instance o) (destroy_instance o) (process o)
    (update_zoom_info o) p (set_params_file_path o)
    (set_profile o) (set_audio_direction o) (set_device_orientation o)
    (get_versions o).
Definition set_set_params_file_path (p : Z) (o : lvacfs_wrapper_ops) :=
  mk_ops (lib_handle o) (create_instance o) (destroy_instance o) (process o)
    (update_zoom_info o) (update_angle_info o) p
    (set_profile o) (set_audio_direction o) (set_device_orientation o)
    (get_versions o).
Definition set_set_profile (p : Z) (o : lvacfs_wrapper_ops) :=
  mk_ops (lib_handle o) (create_instance o) (destroy_instance o) (process o)
    (update_zoom_info o) (update_angle_info o) (set_params_file_path o)
    p (set_audio_direction o) (set_device_orientation o)
    (get_versions o).
Definition set_set_audio_direction (p : Z) (o : lvacfs_wrapper_ops) :=
  mk_ops (lib_handle o) (create_instance o) (destroy_instance o) (process o)
    (update_zoom_info o) (update_angle_info o) (set_params_file_path o)
    (set_profile o) p (set_device_orientation o)
    (get_versions o).
Definition set_set_device_orientation (p : Z) (o : lvacfs_wrapper_ops) :=
  mk_ops (lib_handle o) (create_instance o) (destroy_instance o) (process o)
    (update_zoom_info o) (update_angle_info o) (set_params_file_path o)
    (set_profile o) (set_audio_direction o) p
    (get_versions o).
Definition set_get_versions (p : Z) (o : lvacfs_wrapper_ops) :=
  mk_ops (lib_handle o) (create_instance o) (destroy_instance o) (process o)
    (update_zoom_info o) (update_angle_info o) (set_params_file_path o)
    (set_profile o) (set_audio_direction o) (set_device_orientation o)
    p.

(** The ten entry points by name, to quantify over them. *)
Inductive capability : Type :=
  | CreateInstance | DestroyInstance | Process | UpdateZoomInfo
  | UpdateAngleInfo | SetParamsFilePath | SetProfile | SetAudioDirection
  | SetDeviceOrientation | GetVersions.

Definition all_capabilities : list capability :=
  [CreateInstance; DestroyInstance; Process; UpdateZoomInfo; UpdateAngleInfo;
   SetParamsFilePath; SetProfile; SetAudioDirection; SetDeviceOrientation;
   GetVersions].

Definition entry_point (c : capability) (o : lvacfs_wrapper_ops) : Z :=
  match c with
  | CreateInstance => create_instance o
  | DestroyInstance => destroy_instance o
  | Process => process o
  | UpdateZoomInfo => update_zoom_info o
  | UpdateAngleInfo => update_angle_info o
  | SetParamsFilePath => set_params_file_path o
  | SetProfile => set_profile o
  | SetAudioDirection => set_audio_direction o
  | SetDeviceOrientation => set_device_orientation o
  | GetVersions => get_versions o
  end.

(** The symbol [init] looks up for each entry point. *)
Definition symbol_name (c : capability) : string :=
  match c with
  | CreateInstance => "lvacfs_wrapper_CreateLibraryInstance"
  | DestroyInstance => "lvacfs_wrapper_DestroyLibraryInstance"
  | Process => "lvacfs_wrapper_Process"
  | UpdateZoomInfo => "lvacfs_wrapper_UpdateZoomInfo"
  | UpdateAngleInfo => "lvacfs_wrapper_UpdateAngleInfo"
  | SetParamsFilePath => "lvacfs_SetParamsFilePath"
  | SetProfile => "lvacfs_wrapper_SetProfile"
  | SetAudioDirection => "lvacfs_wrapper_SetAudioDirection"
  | SetDeviceOrientation => "lvacfs_wrapper_SetDeviceOrientation"
  | GetVersions => "lvacfs_wrapper_GetVersions"
  end.

(** ** The Engine *)

(** [wrapper_ops_] is a [std::unique_ptr]: [None] is the null pointer. *)
Record Lvacfs : Type := mk_Lvacfs {
  params_file_path_ : option string;
  wrapper_ops_ : option lvacfs_wrapper_ops
}.

(** A freshly constructed Engine, on which [init] has not been called. *)
Definition Lvacfs_new : Lvacfs := mk_Lvacfs None None.

(** ** Streams *)

(** The members of [struct audio_config] this file reads. *)
Record audio_config : Type := mk_audio_config {
  channel_mask : Z;
  sample_rate : Z;
  format : Z
}.

(** The members of [StreamInPrimary] this file reads or writes.
    [lvacfs_handle] is a [void**]: the address of a heap slot, or null.
    [lvacfs_lock] is the [std::mutex]: [true] while it is held. *)
Record StreamInPrimary : Type := mk_stream {
  lvacfs_handle : Z;
  lvacfs_lock : bool;
  config_ : audio_config;
  source_ : Z
}.

Definition set_lvacfs_handle (p : Z) (s : StreamInPrimary) :=
  mk_stream p (lvacfs_lock s) (config_ s) (source_ s).
Definition set_lvacfs_lock (b : bool) (s : StreamInPrimary) :=
  mk_stream (lvacfs_handle s) b (config_ s) (source_ s).

(** ** Effects *)

(** A call into the library is recorded with the arguments it was given,
    what the slot behind the [void**] handle held when it was made ([None]
    when the handle is not the address of a live slot), and the code it
    returned. *)
Inductive event : Type :=
  | ALOGE (fmt : string) (args : list Z)
  | ALOGI (fmt : string)
  | Dlopen (path : string) (result : Z)
  | Dlsym (handle : Z) (symbol : string) (result : Z)
  | Dlclose (handle : Z)
  | Calloc (result : Z)
  | Free (p : Z)
  | CallSetParamsFilePath (path : option string)
  | CallCreateInstance (handle : Z) (slot : option Z)
      (source sample_rate_and_format channels : Z) (ret : Z)
  | CallProcess (handle : Z) (slot : option Z) (input output : Z)
      (num_frames : Z) (status_buffer : list Z) (ret : Z)
  | CallDestroyInstance (handle : Z) (slot : option Z) (ret : Z)
  | MutexLock
  | MutexUnlock.

(** The wrapper library is a black box: a state machine over its own state
    [M].  An entry point that takes the [void**] handle sees the address and
    what the slot holds ([None] when the address is not a live slot);
    create-instance may store an instance pointer in the slot. *)
Record lvacfs_lib (M : Type) : Type := mk_lib {
  lib_set_params_file_path : option string -> M -> M;
  lib_create_instance :
    Z -> option Z -> Z -> Z -> Z -> M -> Z * Z * M;
  lib_process : Z -> option Z -> Z -> Z -> Z -> list Z -> M -> Z * M;
  lib_destroy_instance : Z -> option Z -> M -> Z * M
}.
Arguments lib_set_params_file_path {M}.
Arguments lib_create_instance {M}.
Arguments lib_process {M}.
Arguments lib_destroy_instance {M}.

(** The world outside the Engine: the heap slots handed out by [calloc],
    the libraries currently open, the library's own state, the trace. *)
Record World (M : Type) : Type := mk_world {
  heap : gmap Z Z;
  loaded : list Z;
  lib_state : M;
  trace : list event
}.
Arguments mk_world {M}.
Arguments heap {M}.
Arguments loaded {M}.
Arguments lib_state {M}.
Arguments trace {M}.

Definition emit {M} (e : event) (w : World M) : World M :=
  mk_world (heap w) (loaded w) (lib_state w) (trace w ++ [e]).
Definition set_heap {M} (h : gmap Z Z) (w : World M) : World M :=
  mk_world h (loaded w) (lib_state w) (trace w).
Definition set_loaded {M} (l : list Z) (w : World M) : World M :=
  mk_world (heap w) l (lib_state w) (trace w).
Definition set_lib_state {M} (m : M) (w : World M) : World M :=
  mk_world (heap w) (loaded w) m (trace w).

(** Undefined behaviour the code can run into. *)
Inductive fault : Type :=
  | NullOps                      (* [wrapper_ops_->] on a null unique_ptr *)
  | NullCall (c : capability)    (* call through a null function pointer *)
  | DivisionByZero
  | InvalidFree
  | Deadlock.                    (* locking a mutex nobody will release *)

Inductive outcome (A : Type) : Type :=
  | Done (a : A)
  | Fault (f : fault).
Arguments Done {A}.
Arguments Fault {A}.

#[global] Instance outcome_ret : MRet outcome := fun A a => Done a.
#[global] Instance outcome_bind : MBind outcome := fun A B k x =>
  match x with
  | Done a => k a
  | Fault f => Fault f
  end.

(** ** Program points of [processInputStream]

    For the locking discipline the body of [processInputStream] is cut at
    the points where another thread can be scheduled: taking the mutex,
    entering the library's process entry point, returning from it, the
    failure branch, and the [lock_guard] destructor. *)

Inductive pc : Type :=
  | AtEntry
  | Locked
  | InProcess (num_frames : Z)
  | Returned (ret : Z)
  | Leaving
  | Finished
  | Crashed (f : fault).

Record thread : Type := mk_thread {
  t_stream : nat;
  t_buffer : Z;
  t_bytes : Z;
  t_pc : pc
}.

(** The thread is past the [lock_guard] constructor and before its
    destructor (a thread that crashed never gives the mutex back). *)
Definition holds_lock (p : pc) : bool :=
  match p with
  | AtEntry | Finished => false
  | Locked | InProcess _ | Returned _ | Leaving | Crashed _ => true
  end.


Definition running (p : pc) : bool :=
  match p with
  | Finished | Crashed _ => false
  | _ => true
  end.

(** ** A small platform for concrete runs

    Only the vendor partition carries the params directory and the library;
    the allocator hands out one address; the two audio helpers know mono,
    stereo, 16-bit and 32-bit PCM.  One library accepts every call, the
    other rejects every call and stores nothing. *)

Module Stub.

Definition access (path : string) : bool :=
  String.eqb path VENDOR_PARAMS_DIR_PATH.

Definition dlopen (path : string) : Z :=
  if String.eqb path (VENDOR_LIB_PATH true) then 0x7000 else 0.

Definition dlsym (h : Z) (symbol : string) : Z :=
  if h =? 0x7000 then 0x7100 else 0.

(** The same library without its last symbol. *)
Definition dlsym_no_versions (h : Z) (symbol : string) : Z :=
  if String.eqb symbol "lvacfs_wrapper_GetVersions" then 0
  else dlsym h symbol.

Definition allocator (hp : gmap Z Z) : Z := 0x5000.

Definition channel_count (mask : Z) : Z :=
  if mask =? 0x10 then 1 else if mask =? 0xC then 2 else 0.

Definition bytes_per_sample (fmt : Z) : Z :=
  if fmt =? 1 then 2 else if fmt =? 3 then 4 else 0.

Definition accepting : lvacfs_lib unit :=
  mk_lib unit (fun _ m => m)
    (fun _ _ _ _ _ m => (0, 0x6000, m))
    (fun _ _ _ _ _ _ m => (0, m))
    (fun _ _ m => (0, m)).

Definition rejecting : lvacfs_lib unit :=
  mk_lib unit (fun _ m => m)
    (fun _ slot _ _ _ m => (-1, default 0 slot, m))
    (fun _ _ _ _ _ _ m => (-1, m))
    (fun _ _ m => (-1, m)).

(** The Engine after a successful [init]. *)
Definition engine : Lvacfs :=
  mk_Lvacfs (Some VENDOR_PARAMS_DIR_PATH)
    (Some (mk_ops 0x7000 0x7100 0x7100 0x7100 0x7100 0x7100 0x7100 0x7100
             0x7100 0x7100 0x7100)).

(** A stereo, 48 kHz, 16-bit stream that was never started, and the world
    before any call. *)
Definition stream : StreamInPrimary :=
  mk_stream 0 false (mk_audio_config 0xC 48000 1) 1.
Definition world : World unit := mk_world ∅ [] tt [].

(** The same stream once started on the accepting library. *)
Definition started : StreamInPrimary :=
  mk_stream 0x5000 false (mk_audio_config 0xC 48000 1) 1.
Definition started_world : World unit :=
  mk_world {[ 0x5000 := 0x6000 ]} [0x7000] tt [].

(** The stream as [calloc] leaves it: a slot holding null. *)
Definition allocated_world : World unit :=
  mk_world {[ 0x5000 := 0 ]} [0x7000] tt [].

(** Two threads about to call [processInputStream] on stream 0. *)
Definition two_threads : gmap nat thread :=
  <[1%nat := mk_thread 0 0x9000 3200 AtEntry]>
    (<[2%nat := mk_thread 0 0x9000 3200 AtEntry]> ∅).

(** A platform whose ODM partition carries a library too, one that
    exports none of the symbols ([dlsym] knows only the vendor handle). *)
Definition dlopen_odm (path : string) : Z :=
  if String.eqb path (ODM_LIB_PATH true) then 0x7200 else dlopen path.

(** An allocator with a second address to hand out. *)
Definition bump (hp : gmap Z Z) : Z :=
  match hp !! 0x5000 with
  | Some _ => 0x5008
  | None => 0x5000
  end.

(** A second started stream, with its slot next to the first one's. *)
Definition second : StreamInPrimary :=
  mk_stream 0x5008 false (mk_audio_config 0x10 16000 1) 1.
Definition two_slots_world : World unit :=
  mk_world (<[ 0x5008 := 0x6008 ]> {[ 0x5000 := 0x6000 ]}) [0x7000] tt [].

(** One thread on each of two streams. *)
Definition two_streams : gmap nat StreamInPrimary :=
  <[0%nat := started]> (<[1%nat := second]> ∅).
Definition one_thread_each : gmap nat thread :=
  <[1%nat := mk_thread 0 0x9000 3200 AtEntry]>
    (<[3%nat := mk_thread 1 0x9100 320 AtEntry]> ∅).

End Stub.

(** For runs on the small platform: the Engine is ready, and a helper
    keeps to its range. *)
Ltac stub_ready :=
  split; [vm_compute; discriminate | intros c; destruct c; reflexivity].

Ltac stub_range f :=
  intros x; unfold f;
  repeat match goal with |- context [?a =? ?b] => destruct (a =? b) end; lia.

Section Lvacfs.

(** ** What the platform provides *)

(** [__LP64__] is defined. *)
Variable LP64 : bool.

(** The filesystem and the dynamic loader: [access(path, F_OK) == 0], the
    pointer [dlopen(path, RTLD_NOW)] returns, the pointer [dlsym] returns. *)
Variable access : string -> bool.
Variable dlopen : string -> Z.
Variable dlsym : Z -> string -> Z.

(** The address the allocator would hand out next for a given heap. *)
Variable allocator : gmap Z Z -> Z.

(** The two helpers of [system/audio.h]. *)
Variable audio_channel_count_from_in_mask : Z -> Z.
Variable audio_bytes_per_sample : Z -> Z.

(** What they return: the number of bits set in a 32-bit mask, and the
    size of one sample of a PCM format, at most that of a 32-bit sample
    (zero for a format that has no sample size). *)
Hypothesis channel_count_range :
  ∀ mask, 0 ≤ audio_channel_count_from_in_mask mask ≤ 32.
Hypothesis bytes_per_sample_range :
  ∀ fmt, 0 ≤ audio_bytes_per_sample fmt ≤ 4.

(** The wrapper library. *)
Variable M : Type.
Variable lib : lvacfs_lib M.

(** ** Loader and heap operations *)

Definition do_dlopen (path : string) (w : World M) : Z * World M :=
  let h := dlopen path in
  (h, emit (Dlopen path h)
        (if h =? 0 then w else set_loaded (h :: loaded w) w)).

Definition do_dlsym (h : Z) (symbol : string) (w : World M) : Z * World M :=
  let p := dlsym h symbol in (p, emit (Dlsym h symbol p) w).

Fixpoint remove_one (h : Z) (l : list Z) : list Z :=
  match l with
  | [] => []
  | x :: l' => if x =? h then l' else x :: remove_one h l'
  end.

Definition do_dlclose (h : Z) (w : World M) : World M :=
  emit (Dlclose h) (set_loaded (remove_one h (loaded w)) w).

(** [calloc(1, sizeof(void* ))]: a fresh slot holding null, or null when the
    allocation fails (the allocator offers null or an address in use). *)
Definition calloc (w : World M) : Z * World M :=
  let a := allocator (heap w) in
  match heap w !! a with
  | Some _ => (0, emit (Calloc 0) w)
  | None =>
      if a =? 0 then (0, emit (Calloc 0) w)
      else (a, emit (Calloc a) (set_heap (<[a := 0]> (heap w)) w))
  end.

(** [free(p)]: nothing for null, undefined for what is not a live slot. *)
Definition free (p : Z) (w : World M) : outcome (World M) :=
  if p =? 0 then Done (emit (Free 0) w)
  else
    match heap w !! p with
    | Some _ => Done (emit (Free p) (set_heap (delete p (heap w)) w))
    | None => Fault InvalidFree
    end.

(** ** [Lvacfs::deinit], lines 92-98 *)

Definition deinit (self : Lvacfs) (w : World M) : Lvacfs * World M :=
  let w :=
    match wrapper_ops_ self with
    | Some ops =>
        if negb (lib_handle ops =? 0) then do_dlclose (lib_handle ops) w
        else w
    | None => w
    end in
  (mk_Lvacfs (params_file_path_ self) None,
   emit (ALOGI "LVACFS deinitialized") w).

(** ** [Lvacfs::init], lines 38-90 *)

(** Lines 39-46: which params directory, if any. *)
Definition find_params_dir : option string :=
  if access ODM_PARAMS_DIR_PATH then Some ODM_PARAMS_DIR_PATH
  else if access VENDOR_PARAMS_DIR_PATH then Some VENDOR_PARAMS_DIR_PATH
  else None.

(** Lines 54-57: [lib_handle] after the one or two [dlopen] attempts. *)
Definition open_library (ops : lvacfs_wrapper_ops) (w : World M)
  : lvacfs_wrapper_ops * World M :=
  let '(h, w) := do_dlopen (ODM_LIB_PATH LP64) w in
  let ops := set_lib_handle h ops in
  if lib_handle ops =? 0 then
    let '(h, w) := do_dlopen (VENDOR_LIB_PATH LP64) w in
    (set_lib_handle h ops, w)
  else (ops, w).

(** One operand of the condition at lines 63-83,
    [!(wrapper_ops_->f = dlsym(wrapper_ops_->lib_handle, symbol))]:
    stores the pointer and is true when it is null. *)
Definition sym_test : Type :=
  lvacfs_wrapper_ops * World M -> bool * (lvacfs_wrapper_ops * World M).

Definition load_sym (set : Z -> lvacfs_wrapper_ops -> lvacfs_wrapper_ops)
    (symbol : string) : sym_test :=
  fun '(ops, w) =>
    let '(p, w) := do_dlsym (lib_handle ops) symbol w in
    (p =? 0, (set p ops, w)).

(** The short-circuit [||]. *)
Definition or_else (a b : sym_test) : sym_test :=
  fun s => let '(r, s') := a s in if r then (true, s') else b s'.

Definition load_symbols : sym_test :=
  or_else
    (load_sym set_create_instance "lvacfs_wrapper_CreateLibraryInstance")
 (or_else
    (load_sym set_destroy_instance "lvacfs_wrapper_DestroyLibraryInstance")
 (or_else
    (load_sym set_process "lvacfs_wrapper_Process")
 (or_else
    (load_sym set_update_zoom_info "lvacfs_wrapper_UpdateZoomInfo")
 (or_else
    (load_sym set_update_angle_info "lvacfs_wrapper_UpdateAngleInfo")
 (or_else
    (load_sym set_set_params_file_path "lvacfs_SetParamsFilePath")
 (or_else
    (load_sym set_set_profile "lvacfs_wrapper_SetProfile")
 (or_else
    (load_sym set_set_audio_direction "lvacfs_wrapper_SetAudioDirection")
 (or_else
    (load_sym set_set_device_orientation
       "lvacfs_wrapper_SetDeviceOrientation")
    (load_sym set_get_versions "lvacfs_wrapper_GetVersions"))))))))).

(** [std::make_unique] throws rather than returning null, so the test at
    line 49 never fires and has no branch here. *)
Definition init (self : Lvacfs) (w : World M) : Lvacfs * World M :=
  match find_params_dir with
  | None => (self, emit (ALOGE "No params directory found" []) w)
  | Some path =>
      let '(ops, w) := open_library zeroed_ops w in
      if lib_handle ops =? 0 then
        (mk_Lvacfs (Some path) (Some ops),
         emit (ALOGE "dlopen failed for %s and %s: %s" []) w)
      else
        let '(failed, (ops, w)) := load_symbols (ops, w) in
        if failed then
          deinit (mk_Lvacfs (Some path) (Some ops))
            (emit (ALOGE "Failed to load one or more symbols: %s" []) w)
        else
          (mk_Lvacfs (Some path) (Some ops),
           emit (ALOGI "LVACFS initialized successfully") w)
  end.

(** ** Calls through [wrapper_ops_] *)

(** [wrapper_ops_->f]: undefined when [wrapper_ops_] is null or [f] is. *)
Definition resolve (self : Lvacfs) (c : capability) : outcome Z :=
  match wrapper_ops_ self with
  | None => Fault NullOps
  | Some ops =>
      if entry_point c ops =? 0 then Fault (NullCall c)
      else Done (entry_point c ops)
  end.

Definition call_set_params_file_path (self : Lvacfs) (path : option string)
    (w : World M) : outcome (World M) :=
  _ ← resolve self SetParamsFilePath;
  Done (emit (CallSetParamsFilePath path)
          (set_lib_state (lib_set_params_file_path lib path (lib_state w)) w)).

Definition call_create_instance (self : Lvacfs)
    (handle source sample_rate_and_format channels : Z) (w : World M)
  : outcome (Z * World M) :=
  _ ← resolve self CreateInstance;
  let before := heap w !! handle in
  let '(ret, slot, m) :=
    lib_create_instance lib handle before source sample_rate_and_format
      channels (lib_state w) in
  let w := set_lib_state m w in
  let w :=
    match before with
    | Some _ => set_heap (<[handle := slot]> (heap w)) w
    | None => w
    end in
  Done (ret, emit (CallCreateInstance handle before source
                     sample_rate_and_format channels ret) w).

Definition call_process (self : Lvacfs) (handle : Z) (input output : Z)
    (num_frames : Z) (status_buffer : list Z) (w : World M)
  : outcome (Z * World M) :=
  _ ← resolve self Process;
  let '(ret, m) :=
    lib_process lib handle (heap w !! handle) input output num_frames
      status_buffer (lib_state w) in
  Done (ret,
        emit (CallProcess handle (heap w !! handle) input output num_frames
                status_buffer ret)
          (set_lib_state m w)).

Definition call_destroy_instance (self : Lvacfs) (handle : Z) (w : World M)
  : outcome (Z * World M) :=
  _ ← resolve self DestroyInstance;
  let '(ret, m) :=
    lib_destroy_instance lib handle (heap w !! handle) (lib_state w) in
  Done (ret, emit (CallDestroyInstance handle (heap w !! handle) ret)
               (set_lib_state m w)).

(** ** [Lvacfs::stopInputStream], lines 131-138 *)

Definition stopInputStream (self : Lvacfs) (in_ : StreamInPrimary)
    (w : World M) : outcome (StreamInPrimary * World M) :=
  '(ret, w) ← call_destroy_instance self (lvacfs_handle in_) w;
  let w :=
    if ret <? 0 then emit (ALOGE "destroy instance failed: %d" [ret]) w
    else w in
  w ← free (lvacfs_handle in_) w;
  Done (set_lvacfs_handle 0 in_, w).

(** ** [Lvacfs::startInputStream], lines 100-117 *)

(** Line 108. *)
Definition pack_channels (channel_count : Z) : Z :=
  to_uint32 (Z.lor (Z.shiftl (Z.land channel_count 0xFFFF) 16)
                   (Z.land channel_count 0xFFFF)).

(** Line 110. *)
Definition pack_sample_rate_and_format (sample_rate : Z) : Z :=
  to_uint64 (Z.lor (Z.shiftl (to_uint64 0) 32) sample_rate).

Definition startInputStream (self : Lvacfs) (in_ : StreamInPrimary)
    (w : World M) : outcome (StreamInPrimary * World M) :=
  let '(p, w) := calloc w in
  let in_ := set_lvacfs_handle p in_ in
  if lvacfs_handle in_ =? 0 then
    Done (in_, emit (ALOGE "Failed to allocate lvacfs_handle" []) w)
  else
    w ← call_set_params_file_path self (params_file_path_ self) w;
    let channel_count :=
      to_int (audio_channel_count_from_in_mask (channel_mask (config_ in_))) in
    let channels := pack_channels channel_count in
    let sample_rate_and_format :=
      pack_sample_rate_and_format (sample_rate (config_ in_)) in
    '(ret, w) ← call_create_instance self (lvacfs_handle in_) (source_ in_)
                  sample_rate_and_format channels w;
    if ret <? 0 then
      stopInputStream self in_
        (emit (ALOGE "create instance failed: %d" [ret]) w)
    else Done (in_, w).

(** ** [Lvacfs::processInputStream], lines 119-129 *)

(** Line 122: the division is done in [size_t], the quotient is stored in
    a [uint32_t]. *)
Definition frame_count (bytes channel_count bytes_per_sample : Z)
  : outcome Z :=
  let divisor :=
    to_size_t LP64 (to_size_t LP64 channel_count * bytes_per_sample) in
  if divisor =? 0 then Fault DivisionByZero
  else Done (to_uint32 (bytes / divisor)).

(** Line 123: [0x160] zero bytes. *)
Definition status_buffer : list Z := replicate (Z.to_nat 0x160) 0.
Arguments status_buffer : simpl never.

(** [std::lock_guard]: the constructor takes the mutex, the destructor
    gives it back when the function returns. *)
Definition lock (in_ : StreamInPrimary) (w : World M)
  : outcome (StreamInPrimary * World M) :=
  if lvacfs_lock in_ then Fault Deadlock
  else Done (set_lvacfs_lock true in_, emit MutexLock w).

Definition unlock (in_ : StreamInPrimary) (w : World M)
  : StreamInPrimary * World M :=
  (set_lvacfs_lock false in_, emit MutexUnlock w).

Definition processInputStream (self : Lvacfs) (in_ : StreamInPrimary)
    (buffer : Z) (bytes : Z) (w : World M)
  : outcome (StreamInPrimary * World M) :=
  '(in_, w) ← lock in_ w;
  let channel_count :=
    to_int (audio_channel_count_from_in_mask (channel_mask (config_ in_))) in
  num_frames ← frame_count bytes channel_count
                 (audio_bytes_per_sample (format (config_ in_)));
  '(ret, w) ← call_process self (lvacfs_handle in_) buffer buffer
                num_frames status_buffer w;
  '(in_, w) ← (if ret <? 0 then
                 stopInputStream self in_
                   (emit (ALOGE "process failed: %d" [ret]) w)
               else Done (in_, w));
  let '(in_, w) := unlock in_ w in
  Done (in_, w).

(** ** What a caller can observe of the Engine *)

(** The module handle: null when there is no table or no library in it. *)
Definition module_handle (self : Lvacfs) : Z :=
  match wrapper_ops_ self with
  | Some ops => lib_handle ops
  | None => 0
  end.

(** A capability is callable when the call through [wrapper_ops_] is
    defined. *)
Definition callable (self : Lvacfs) (c : capability) : bool :=
  match resolve self c with
  | Done _ => true
  | Fault _ => false
  end.

Definition ready (self : Lvacfs) : Prop :=
  module_handle self ≠ 0 ∧ ∀ c, callable self c = true.

Definition inert (self : Lvacfs) : Prop :=
  module_handle self = 0 ∧ ∀ c, callable self c = false.

(** The handle [init] ends up with when some [dlopen] succeeds. *)
Definition opened_handle : Z :=
  if dlopen (ODM_LIB_PATH LP64) =? 0 then dlopen (VENDOR_LIB_PATH LP64)
  else dlopen (ODM_LIB_PATH LP64).

(** The stream's handle is null or the address of a live slot. *)
Definition handle_ok (in_ : StreamInPrimary) (w : World M) : Prop :=
  lvacfs_handle in_ = 0 ∨ is_Some (heap w !! lvacfs_handle in_).

(** ** Threads inside [processInputStream] *)

(** The streams, the threads and the world they share. *)
Record config : Type := mk_config {
  streams : gmap nat StreamInPrimary;
  threads : gmap nat thread;
  world : World M
}.

Definition advance (tid : nat) (th : thread) (p : pc)
    (in_ : StreamInPrimary) (w : World M) (c : config) : config :=
  mk_config (<[t_stream th := in_]> (streams c))
    (<[tid := mk_thread (t_stream th) (t_buffer th) (t_bytes th) p]>
       (threads c))
    w.

(** One step of thread [tid]; [None] when it cannot move: it waits for
    the mutex, has returned, or has crashed. *)
Definition thread_step (self : Lvacfs) (tid : nat) (c : config)
  : option config :=
  th ← threads c !! tid;
  in_ ← streams c !! t_stream th;
  let w := world c in
  match t_pc th with
  | AtEntry =>
      match lock in_ w with
      | Done (in_, w) => Some (advance tid th Locked in_ w c)
      | Fault _ => None
      end
  | Locked =>
      let channel_count :=
        to_int
          (audio_channel_count_from_in_mask (channel_mask (config_ in_))) in
      match
        (num_frames ← frame_count (t_bytes th) channel_count
                        (audio_bytes_per_sample (format (config_ in_)));
         _ ← resolve self Process;
         Done num_frames)
      with
      | Done n => Some (advance tid th (InProcess n) in_ w c)
      | Fault f => Some (advance tid th (Crashed f) in_ w c)
      end
  | InProcess n =>
      match
        call_process self (lvacfs_handle in_) (t_buffer th) (t_buffer th) n
          status_buffer w
      with
      | Done (ret, w) => Some (advance tid th (Returned ret) in_ w c)
      | Fault f => Some (advance tid th (Crashed f) in_ w c)
      end
  | Returned ret =>
      match
        (if ret <? 0 then
           stopInputStream self in_
             (emit (ALOGE "process failed: %d" [ret]) w)
         else Done (in_, w))
      with
      | Done (in_, w) => Some (advance tid th Leaving in_ w c)
      | Fault f => Some (advance tid th (Crashed f) in_ w c)
      end
  | Leaving =>
      let '(in_, w) := unlock in_ w in
      Some (advance tid th Finished in_ w c)
  | Finished | Crashed _ => None
  end.


(** Every thread is about to enter [processInputStream], and no mutex is
    held. *)
Definition initial (c : config) : Prop :=
  (∀ tid th, threads c !! tid = Some th → t_pc th = AtEntry) ∧
  (∀ s in_, streams c !! s = Some in_ → lvacfs_lock in_ = false).

(** The configurations some schedule leads to. *)
Inductive reachable (self : Lvacfs) (c0 : config) : config → Prop :=
  | reach_start : reachable self c0 c0
  | reach_step c tid c' :
      reachable self c0 c →
      thread_step self tid c = Some c' →
      reachable self c0 c'.

(** ** Vocabulary of the statements *)

(** Whether some symbol is missing from the library behind [h]. *)
Definition some_symbol_missing (h : Z) : bool :=
  existsb (λ c, dlsym h (symbol_name c) =? 0) all_capabilities.

(** When [init] succeeds. *)
Definition init_succeeds : Prop :=
  find_params_dir ≠ None ∧ opened_handle ≠ 0 ∧
  ∀ c, dlsym opened_handle (symbol_name c) ≠ 0.

(** Two Engines a caller cannot tell apart: same module handle, same
    capabilities callable. *)
Definition same_observable (a b : Lvacfs) : Prop :=
  module_handle a = module_handle b ∧ ∀ c, callable a c = callable b c.

(** Two outcomes agree: the same result, or both undefined. *)
Definition agree {A} (x y : outcome A) : Prop :=
  match x, y with
  | Done a, Done b => a = b
  | Fault _, Fault _ => True
  | _, _ => False
  end.

(** No operation of the class tells Engine [a] from Engine [b]: each one
    has the same effect on the world and leaves Engines that again expose
    the same module handle and capabilities, and each stream operation
    gives the same result or is undefined on both. *)
Definition indistinguishable (a b : Lvacfs) : Prop :=
  same_observable a b ∧
  (∀ w, (init a w).2 = (init b w).2 ∧
        same_observable (init a w).1 (init b w).1) ∧
  (∀ w, (deinit a w).2 = (deinit b w).2 ∧
        same_observable (deinit a w).1 (deinit b w).1) ∧
  (∀ in_ w, agree (startInputStream a in_ w) (startInputStream b in_ w)) ∧
  (∀ in_ w, agree (stopInputStream a in_ w) (stopInputStream b in_ w)) ∧
  (∀ in_ buffer bytes w,
     agree (processInputStream a in_ buffer bytes w)
       (processInputStream b in_ buffer bytes w)).

(** The heap once [free(h)] has run. *)
Definition released (h : Z) (hp : gmap Z Z) : gmap Z Z :=
  if h =? 0 then hp else delete h hp.

(** The log line of a failed call, if any. *)
Definition log_failure (fmt : string) (ret : Z) : list event :=
  if ret <? 0 then [ALOGE fmt [ret]] else [].

(** What the stream asks of create-instance: line 108 and line 110. *)
Definition channels_of (in_ : StreamInPrimary) : Z :=
  pack_channels
    (to_int (audio_channel_count_from_in_mask (channel_mask (config_ in_)))).

Definition rate_of (in_ : StreamInPrimary) : Z :=
  pack_sample_rate_and_format (sample_rate (config_ in_)).

(** What the library answers when [startInputStream] calls create-instance
    on the fresh slot [a]. *)
Definition create_reply (self : Lvacfs) (in_ : StreamInPrimary) (a : Z)
    (w : World M) : Z * Z * M :=
  lib_create_instance lib a (Some 0) (source_ in_) (rate_of in_)
    (channels_of in_)
    (lib_set_params_file_path lib (params_file_path_ self) (lib_state w)).

(** The frame count of a call on stream [in_]. *)
Definition frames_of (in_ : StreamInPrimary) (bytes : Z) : outcome Z :=
  frame_count bytes
    (to_int (audio_channel_count_from_in_mask (channel_mask (config_ in_))))
    (audio_bytes_per_sample (format (config_ in_))).

(** What the library answers when [processInputStream] calls process. *)
Definition process_reply (in_ : StreamInPrimary) (buffer : Z) (n : Z)
    (w : World M) : Z * M :=
  lib_process lib (lvacfs_handle in_) (heap w !! lvacfs_handle in_) buffer
    buffer n status_buffer (lib_state w).

(** A stream as the stop path leaves it, as good as one that was never
    started: the handle is null; stopping it hands null to destroy-instance
    and to [free] and changes neither the stream nor the heap; starting it
    returns. *)
Definition torn_down (self : Lvacfs) (in_ : StreamInPrimary) (w : World M)
  : Prop :=
  lvacfs_handle in_ = 0 ∧
  (∃ ret w',
     stopInputStream self in_ w = Done (in_, w') ∧
     heap w' = heap w ∧ loaded w' = loaded w ∧
     trace w' =
       trace w ++
       CallDestroyInstance 0 (heap w !! 0) ret
       :: log_failure "destroy instance failed: %d" ret ++ [Free 0]) ∧
  (∃ r, startInputStream self in_ w = Done r).

(** The states one stream goes through: never started (null handle, free
    mutex), then any sequence of the three stream operations that
    returned. *)
Inductive session (self : Lvacfs) : StreamInPrimary → World M → Prop :=
  | session_new in_ w :
      lvacfs_handle in_ = 0 → lvacfs_lock in_ = false →
      session self in_ w
  | session_start in_ w in' w' :
      session self in_ w →
      startInputStream self in_ w = Done (in', w') →
      session self in' w'
  | session_process in_ w buffer bytes in' w' :
      session self in_ w →
      processInputStream self in_ buffer bytes w = Done (in', w') →
      session self in' w'
  | session_stop in_ w in' w' :
      session self in_ w →
      stopInputStream self in_ w = Done (in', w') →
      session self in' w'.

(** The states of a stream, from the world [w0] on, whose caller starts it
    only while it holds no instance. *)
Inductive disciplined (self : Lvacfs) (w0 : World M)
  : StreamInPrimary → World M → Prop :=
  | disciplined_new in_ :
      lvacfs_handle in_ = 0 → lvacfs_lock in_ = false →
      disciplined self w0 in_ w0
  | disciplined_start in_ w in' w' :
      disciplined self w0 in_ w →
      lvacfs_handle in_ = 0 →
      startInputStream self in_ w = Done (in', w') →
      disciplined self w0 in' w'
  | disciplined_process in_ w buffer bytes in' w' :
      disciplined self w0 in_ w →
      processInputStream self in_ buffer bytes w = Done (in', w') →
      disciplined self w0 in' w'
  | disciplined_stop in_ w in' w' :
      disciplined self w0 in_ w →
      stopInputStream self in_ w = Done (in', w') →
      disciplined self w0 in' w'.

(** The mutex of a stream is held exactly while one thread is inside
    [processInputStream] on that stream, and never by two. *)
Definition lock_inv (c : config) : Prop :=
  (∀ tid th, threads c !! tid = Some th → holds_lock (t_pc th) = true →
     ∃ in_,
       streams c !! t_stream th = Some in_ ∧ lvacfs_lock in_ = true) ∧
  (∀ t1 t2 th1 th2,
     threads c !! t1 = Some th1 → threads c !! t2 = Some th2 →
     t_stream th1 = t_stream th2 →
     holds_lock (t_pc th1) = true → holds_lock (t_pc th2) = true →
     t1 = t2) ∧
  (∀ s in_, streams c !! s = Some in_ → lvacfs_lock in_ = true →
     ∃ tid th, threads c !! tid = Some th ∧ t_stream th = s ∧
               holds_lock (t_pc th) = true).

(** The channel count and the bytes per sample of a stream, as lines 107,
    121 and 122 compute them. *)
Abbreviation channel_count_of in_ :=
  (audio_channel_count_from_in_mask (channel_mask (config_ in_))).
Abbreviation bytes_per_sample_of in_ :=
  (audio_bytes_per_sample (format (config_ in_))).

(** The [dlopen] attempts of lines 54-57, in order. *)
Definition open_attempts : list event :=
  Dlopen (ODM_LIB_PATH LP64) (dlopen (ODM_LIB_PATH LP64))
  :: (if dlopen (ODM_LIB_PATH LP64) =? 0
      then [Dlopen (VENDOR_LIB_PATH LP64) (dlopen (VENDOR_LIB_PATH LP64))]
      else []).

(** The [dlsym] calls of lines 63-83 on handle [h]: one per entry point, in
    the order of the condition, up to the first that returns null. *)
Fixpoint lookups (h : Z) (cs : list capability) : list event :=
  match cs with
  | [] => []
  | c :: cs' =>
      Dlsym h (symbol_name c) (dlsym h (symbol_name c))
      :: (if dlsym h (symbol_name c) =? 0 then [] else lookups h cs')
  end.

(** Everything a call of [init] does, in order. *)
Definition init_events : list event :=
  match find_params_dir with
  | None => [ALOGE "No params directory found" []]
  | Some _ =>
      open_attempts ++
      (if opened_handle =? 0
       then [ALOGE "dlopen failed for %s and %s: %s" []]
       else
         lookups opened_handle all_capabilities ++
         (if some_symbol_missing opened_handle
          then [ALOGE "Failed to load one or more symbols: %s" [];
                Dlclose opened_handle; ALOGI "LVACFS deinitialized"]
          else [ALOGI "LVACFS initialized successfully"]))
  end.

(** An event is a log line of level error. *)
Definition is_error (e : event) : bool :=
  match e with
  | ALOGE _ _ => true
  | _ => false
  end.

(** An event belongs to a stream start: the allocation of the slot and
    the two calls that set up an instance. *)
Definition is_start_event (e : event) : bool :=
  match e with
  | Calloc _ | CallSetParamsFilePath _ | CallCreateInstance _ _ _ _ _ _ =>
      true
  | _ => false
  end.

(** An event is a process call. *)
Definition is_process_call (e : event) : bool :=
  match e with
  | CallProcess _ _ _ _ _ _ _ => true
  | _ => false
  end.

(** An event takes or gives back the mutex. *)
Definition is_mutex_event (e : event) : bool :=
  match e with
  | MutexLock | MutexUnlock => true
  | _ => false
  end.

(** The size of one frame of a stream, in bytes. *)
Abbreviation frame_size_of in_ :=
  (channel_count_of in_ * bytes_per_sample_of in_).

(** * Properties *)

(** ** Tactics *)

(** Case analysis on the next [dlsym] result. *)
Ltac next_symbol :=
  match goal with
  | |- context [dlsym ?h ?s =? 0] =>
      let E := fresh "E" in destruct (dlsym h s =? 0) eqn:E; simpl
  end.

(** Normal form of a world and of its trace. *)
Ltac world_simpl :=
  unfold emit, set_heap, set_lib_state, set_loaded; simpl;
  repeat (rewrite <- app_assoc; simpl).

(** Events of one kind in a list written out. *)
Ltac pick_event H :=
  repeat (destruct H as [H | H]; [try discriminate H |]);
  try (exfalso; exact H).

(** ** Symbol resolution *)

Lemma some_symbol_missing_false (h : Z) :
  some_symbol_missing h = false ↔ ∀ c, dlsym h (symbol_name c) ≠ 0.
Proof.
  unfold some_symbol_missing. split.
  - intros Hn c Hc.
    assert (Hex : existsb (λ c, dlsym h (symbol_name c) =? 0)
                    all_capabilities = true).
    { apply existsb_exists. exists c. split.
      - destruct c; simpl; tauto.
      - apply Z.eqb_eq, Hc. }
    congruence.
  - intros Hall.
    destruct (existsb _ _) eqn:Hex; [|reflexivity].
    apply existsb_exists in Hex as (c & _ & Hc).
    apply Z.eqb_eq in Hc. destruct (Hall c Hc).
Qed.

(** [load_symbols] reports a failure exactly when a symbol is missing, and
    touches nothing but the table and the trace. *)
Lemma load_symbols_failed (ops : lvacfs_wrapper_ops) (w : World M) :
  (load_symbols (ops, w)).1 = some_symbol_missing (lib_handle ops).
Proof.
  unfold load_symbols, or_else, load_sym, do_dlsym, some_symbol_missing.
  simpl. repeat next_symbol; reflexivity.
Qed.

Lemma load_symbols_handle (ops : lvacfs_wrapper_ops) (w : World M) :
  lib_handle (load_symbols (ops, w)).2.1 = lib_handle ops.
Proof.
  unfold load_symbols, or_else, load_sym, do_dlsym.
  simpl. repeat next_symbol; reflexivity.
Qed.

Lemma load_symbols_world (ops : lvacfs_wrapper_ops) (w : World M) :
  let w' := (load_symbols (ops, w)).2.2 in
  heap w' = heap w ∧ loaded w' = loaded w ∧ lib_state w' = lib_state w.
Proof.
  unfold load_symbols, or_else, load_sym, do_dlsym.
  simpl. repeat next_symbol; auto.
Qed.

(** When nothing is missing every member holds what [dlsym] returned. *)
Lemma load_symbols_bound (ops : lvacfs_wrapper_ops) (w : World M) :
  (load_symbols (ops, w)).1 = false →
  ∀ c, entry_point c (load_symbols (ops, w)).2.1
       = dlsym (lib_handle ops) (symbol_name c).
Proof.
  unfold load_symbols, or_else, load_sym, do_dlsym.
  simpl. repeat next_symbol; try discriminate.
  intros _ c. destruct c; reflexivity.
Qed.

(** ** Opening the library *)

Lemma open_library_handle (ops : lvacfs_wrapper_ops) (w : World M) :
  lib_handle (open_library ops w).1 = opened_handle.
Proof.
  unfold open_library, opened_handle, do_dlopen. simpl.
  destruct (dlopen (ODM_LIB_PATH LP64) =? 0); reflexivity.
Qed.

Lemma open_library_world (ops : lvacfs_wrapper_ops) (w : World M) :
  let w' := (open_library ops w).2 in
  heap w' = heap w ∧ lib_state w' = lib_state w ∧
  loaded w' =
    (if opened_handle =? 0 then loaded w else opened_handle :: loaded w).
Proof.
  unfold open_library, opened_handle, do_dlopen. simpl.
  destruct (dlopen (ODM_LIB_PATH LP64) =? 0) eqn:E1; simpl.
  - destruct (dlopen (VENDOR_LIB_PATH LP64) =? 0); simpl; auto.
  - rewrite E1. auto.
Qed.

Lemma remove_one_head (h : Z) (l : list Z) : remove_one h (h :: l) = l.
Proof. simpl. rewrite Z.eqb_refl. reflexivity. Qed.

(** ** The outcomes of [init] *)

(** No params directory: [init] returns at once. *)
Lemma init_no_params (self : Lvacfs) (w : World M) :
  find_params_dir = None →
  init self w = (self, emit (ALOGE "No params directory found" []) w).
Proof. unfold init. intros ->. reflexivity. Qed.

(** Neither [dlopen] succeeded: the table stays allocated and empty. *)
Lemma init_no_library (self : Lvacfs) (w : World M) path :
  find_params_dir = Some path →
  opened_handle = 0 →
  (init self w).1 = mk_Lvacfs (Some path) (Some zeroed_ops) ∧
  heap (init self w).2 = heap w ∧
  lib_state (init self w).2 = lib_state w ∧
  loaded (init self w).2 = loaded w.
Proof.
  intros Hp Hh. unfold init. rewrite Hp.
  pose proof (open_library_handle zeroed_ops w) as H1.
  pose proof (open_library_world zeroed_ops w) as H2. simpl in H2.
  rewrite Hh in H1, H2. simpl in H2.
  assert (Hops : (open_library zeroed_ops w).1 = zeroed_ops).
  { revert Hh. unfold open_library, opened_handle, do_dlopen. simpl.
    destruct (dlopen (ODM_LIB_PATH LP64) =? 0); simpl.
    - intros ->. reflexivity.
    - intros ->. reflexivity. }
  destruct (open_library zeroed_ops w) as [ops w1]. simpl in *.
  rewrite H1. simpl. subst ops. tauto.
Qed.

(** A symbol is missing: [deinit] has run, the library is closed again. *)
Lemma init_symbol_missing (self : Lvacfs) (w : World M) path :
  find_params_dir = Some path →
  opened_handle ≠ 0 →
  some_symbol_missing opened_handle = true →
  (init self w).1 = mk_Lvacfs (Some path) None ∧
  heap (init self w).2 = heap w ∧
  lib_state (init self w).2 = lib_state w ∧
  loaded (init self w).2 = loaded w.
Proof.
  intros Hp Hh Hm. unfold init. rewrite Hp.
  pose proof (open_library_handle zeroed_ops w) as H1.
  pose proof (open_library_world zeroed_ops w) as H2. simpl in H2.
  destruct (open_library zeroed_ops w) as [ops w1]. simpl in *.
  apply Z.eqb_neq in Hh. rewrite Hh in H2. rewrite H1, Hh.
  pose proof (load_symbols_failed ops w1) as F1.
  pose proof (load_symbols_handle ops w1) as F2.
  pose proof (load_symbols_world ops w1) as F3. simpl in F3.
  destruct (load_symbols (ops, w1)) as [failed [ops2 w2]]. simpl in *.
  rewrite F1, H1, Hm. unfold deinit, do_dlclose. simpl.
  rewrite F2, H1, Hh. simpl.
  destruct F3 as (-> & -> & ->). destruct H2 as (-> & -> & ->).
  rewrite remove_one_head. tauto.
Qed.

(** Everything resolved: the table is complete and the library stays
    open. *)
Lemma init_success (self : Lvacfs) (w : World M) path :
  find_params_dir = Some path →
  opened_handle ≠ 0 →
  some_symbol_missing opened_handle = false →
  ∃ ops,
    (init self w).1 = mk_Lvacfs (Some path) (Some ops) ∧
    lib_handle ops = opened_handle ∧
    (∀ c, entry_point c ops = dlsym opened_handle (symbol_name c)) ∧
    heap (init self w).2 = heap w ∧
    lib_state (init self w).2 = lib_state w ∧
    loaded (init self w).2 = opened_handle :: loaded w.
Proof.
  intros Hp Hh Hm. unfold init. rewrite Hp.
  pose proof (open_library_handle zeroed_ops w) as H1.
  pose proof (open_library_world zeroed_ops w) as H2. simpl in H2.
  destruct (open_library zeroed_ops w) as [ops w1]. simpl in *.
  apply Z.eqb_neq in Hh. rewrite Hh in H2. rewrite H1, Hh.
  pose proof (load_symbols_failed ops w1) as F1.
  pose proof (load_symbols_handle ops w1) as F2.
  pose proof (load_symbols_world ops w1) as F3. simpl in F3.
  pose proof (load_symbols_bound ops w1) as F4.
  destruct (load_symbols (ops, w1)) as [failed [ops2 w2]]. simpl in *.
  rewrite F1, H1, Hm. simpl.
  rewrite F1, H1, Hm in F4.
  exists ops2. destruct F3 as (-> & -> & ->). destruct H2 as (-> & -> & ->).
  rewrite F2, H1. repeat split; auto.
Qed.

(** ** Ready and inert Engines *)

Lemma ready_not_inert (self : Lvacfs) : ready self → ¬ inert self.
Proof. intros [Hh _] [Hz _]. contradiction. Qed.

Lemma inert_not_ready (self : Lvacfs) : inert self → ¬ ready self.
Proof. intros [Hz _] [Hh _]. contradiction. Qed.

Lemma inert_no_table path : inert (mk_Lvacfs path None).
Proof. split; [reflexivity | intros c; reflexivity]. Qed.

Lemma inert_zeroed_table path : inert (mk_Lvacfs path (Some zeroed_ops)).
Proof. split; [reflexivity | intros c; destruct c; reflexivity]. Qed.

Lemma ready_complete_table path (ops : lvacfs_wrapper_ops) :
  lib_handle ops ≠ 0 →
  (∀ c, entry_point c ops ≠ 0) →
  ready (mk_Lvacfs path (Some ops)).
Proof.
  intros Hh Hall. split; [exact Hh|].
  intros c. unfold callable, resolve. simpl.
  specialize (Hall c). apply Z.eqb_neq in Hall. rewrite Hall. reflexivity.
Qed.

Lemma inert_same_observable (a b : Lvacfs) :
  inert a → inert b → same_observable a b.
Proof.
  intros [Ha Ca] [Hb Cb]. split; [congruence|].
  intros c. rewrite Ca, Cb. reflexivity.
Qed.

(** [init] from any state: either the success conditions hold and the
    Engine is ready, or they do not and the Engine is as [init_no_params],
    [init_no_library] or [init_symbol_missing] leave it. *)
Lemma init_outcome (self : Lvacfs) (w : World M) :
  (init_succeeds ∧ ready (init self w).1 ∧
   ∃ ops, wrapper_ops_ (init self w).1 = Some ops ∧
          lib_handle ops = opened_handle ∧
          ∀ c, entry_point c ops = dlsym opened_handle (symbol_name c))
  ∨
  (¬ init_succeeds ∧
   ((init self w).1 = self ∨ inert (init self w).1) ∧
   heap (init self w).2 = heap w ∧
   lib_state (init self w).2 = lib_state w ∧
   loaded (init self w).2 = loaded w).
Proof.
  destruct find_params_dir as [path|] eqn:Hp.
  - destruct (Z.eq_dec opened_handle 0) as [Hz|Hnz].
    + right. destruct (init_no_library self w path Hp Hz) as (E & ? & ? & ?).
      split; [intros (_ & ? & _); contradiction|].
      rewrite E. split; [right; apply inert_zeroed_table | auto].
    + destruct (some_symbol_missing opened_handle) eqn:Hm.
      * right.
        destruct (init_symbol_missing self w path Hp Hnz Hm)
          as (E & ? & ? & ?).
        split.
        { intros (_ & _ & Hall).
          apply some_symbol_missing_false in Hall. congruence. }
        rewrite E. split; [right; apply inert_no_table | auto].
      * left.
        destruct (init_success self w path Hp Hnz Hm)
          as (ops & E & Hh & Hb & _).
        pose proof (proj1 (some_symbol_missing_false _) Hm) as Hall.
        split; [split; [rewrite Hp; discriminate | split; assumption]|].
        rewrite E. split.
        { apply ready_complete_table; [congruence|].
          intros c. rewrite Hb. apply Hall. }
        exists ops. auto.
  - right. rewrite (init_no_params self w Hp). simpl.
    split; [intros (Hn & _); rewrite Hp in Hn; contradiction | auto].
Qed.

Lemma deinit_inert (self : Lvacfs) (w : World M) :
  inert self →
  deinit self w =
    (mk_Lvacfs (params_file_path_ self) None,
     emit (ALOGI "LVACFS deinitialized") w).
Proof.
  intros [Hz _]. unfold deinit. unfold module_handle in Hz.
  destruct (wrapper_ops_ self) as [ops|]; [|reflexivity].
  rewrite Hz. reflexivity.
Qed.

Lemma not_callable_resolve (self : Lvacfs) c :
  callable self c = false → ∃ f, resolve self c = Fault f.
Proof.
  unfold callable. destruct (resolve self c) as [p|f]; [discriminate | eauto].
Qed.

Lemma same_observable_refl (a : Lvacfs) : same_observable a a.
Proof. split; reflexivity. Qed.

(** Inert Engines cannot be told apart. *)
Lemma inert_indistinguishable (a b : Lvacfs) :
  inert a → inert b → indistinguishable a b.
Proof.
  intros Ha Hb. pose proof Ha as [_ Ca]. pose proof Hb as [_ Cb].
  split; [apply inert_same_observable; assumption|].
  split; [|split; [|split; [|split]]].
  - intros w. unfold init. destruct find_params_dir as [path|].
    + destruct (open_library zeroed_ops w) as [ops w1].
      destruct (lib_handle ops =? 0);
        [split; [reflexivity | apply same_observable_refl]|].
      destruct (load_symbols (ops, w1)) as [failed [ops2 w2]].
      destruct failed; split;
        first [reflexivity | apply same_observable_refl].
    + split; [reflexivity | apply inert_same_observable; assumption].
  - intros w. rewrite !deinit_inert by assumption. simpl.
    split; [reflexivity|].
    apply inert_same_observable; apply inert_no_table.
  - intros in_ w. unfold startInputStream.
    destruct (calloc w) as [p w1]. simpl.
    destruct (p =? 0); [reflexivity|].
    unfold call_set_params_file_path.
    destruct (not_callable_resolve a SetParamsFilePath (Ca _)) as [fa ->].
    destruct (not_callable_resolve b SetParamsFilePath (Cb _)) as [fb ->].
    exact I.
  - intros in_ w. unfold stopInputStream, call_destroy_instance.
    destruct (not_callable_resolve a DestroyInstance (Ca _)) as [fa ->].
    destruct (not_callable_resolve b DestroyInstance (Cb _)) as [fb ->].
    exact I.
  - intros in_ buffer bytes w. unfold processInputStream, lock.
    destruct (lvacfs_lock in_); [exact I|]. simpl.
    destruct (frame_count bytes _ _) as [n|f]; [|exact I]. simpl.
    unfold call_process.
    destruct (not_callable_resolve a Process (Ca _)) as [fa ->].
    destruct (not_callable_resolve b Process (Cb _)) as [fb ->].
    exact I.
Qed.

(** C1. After [init] has returned on a freshly constructed Engine, for
    every outcome of the directory checks, of the two [dlopen] calls and of
    each [dlsym] call, exactly one of two things holds.  Either the Engine
    is ready: the module handle is non-null and each of the ten entry
    points is resolved.  Or it is inert: the module handle is null, no
    capability is callable, no operation of the class tells the Engine
    from one on which [init] was never called, and no library is left
    open.  The Engine is ready exactly when a params directory exists, one
    of the two [dlopen] calls succeeds and all ten symbols resolve. *)
Theorem init_ready_or_inert (w : World M) :
  ((ready (init Lvacfs_new w).1 ∧ ¬ inert (init Lvacfs_new w).1 ∧
    ∃ ops, wrapper_ops_ (init Lvacfs_new w).1 = Some ops ∧
           lib_handle ops ≠ 0 ∧
           Forall (λ c, entry_point c ops ≠ 0) all_capabilities)
   ∨
   (inert (init Lvacfs_new w).1 ∧ ¬ ready (init Lvacfs_new w).1 ∧
    indistinguishable (init Lvacfs_new w).1 Lvacfs_new ∧
    heap (init Lvacfs_new w).2 = heap w ∧
    lib_state (init Lvacfs_new w).2 = lib_state w ∧
    loaded (init Lvacfs_new w).2 = loaded w))
  ∧ (ready (init Lvacfs_new w).1 ↔ init_succeeds).
Proof.
  pose proof (inert_no_table None) as Hnew. fold Lvacfs_new in Hnew.
  destruct (init_outcome Lvacfs_new w)
    as [(Hs & Hr & ops & Ho & Hh & Hb) | (Hs & Hi & Hw)].
  - split; [left | tauto].
    split; [exact Hr|]. split; [apply ready_not_inert, Hr|].
    exists ops. destruct Hs as (_ & Hnz & Hall).
    split; [exact Ho|]. split; [congruence|].
    apply Forall_forall. intros c _. rewrite Hb. apply Hall.
  - assert (Hin : inert (init Lvacfs_new w).1).
    { destruct Hi as [-> | Hi]; assumption. }
    split.
    + right. split; [exact Hin|]. split; [apply inert_not_ready, Hin|].
      split; [apply inert_indistinguishable; assumption | exact Hw].
    + split; [intros Hr; destruct (inert_not_ready _ Hin Hr) | tauto].
Qed.

(** ** Overlay first *)

Lemma open_library_odm (ops : lvacfs_wrapper_ops) (w : World M) :
  dlopen (ODM_LIB_PATH LP64) ≠ 0 →
  open_library ops w =
    (set_lib_handle (dlopen (ODM_LIB_PATH LP64)) ops,
     emit (Dlopen (ODM_LIB_PATH LP64) (dlopen (ODM_LIB_PATH LP64)))
       (set_loaded (dlopen (ODM_LIB_PATH LP64) :: loaded w) w)).
Proof.
  intros Hnz. apply Z.eqb_neq in Hnz.
  unfold open_library, do_dlopen. simpl. rewrite Hnz. reflexivity.
Qed.

Lemma open_library_vendor (ops : lvacfs_wrapper_ops) (w : World M) :
  dlopen (ODM_LIB_PATH LP64) = 0 →
  open_library ops w =
    (set_lib_handle (dlopen (VENDOR_LIB_PATH LP64)) ops,
     emit (Dlopen (VENDOR_LIB_PATH LP64) (dlopen (VENDOR_LIB_PATH LP64)))
       (if dlopen (VENDOR_LIB_PATH LP64) =? 0
        then emit (Dlopen (ODM_LIB_PATH LP64) 0) w
        else set_loaded (dlopen (VENDOR_LIB_PATH LP64) :: loaded w)
               (emit (Dlopen (ODM_LIB_PATH LP64) 0) w))).
Proof.
  intros Hz. unfold open_library, do_dlopen. simpl. rewrite Hz. simpl.
  destruct (dlopen (VENDOR_LIB_PATH LP64) =? 0); reflexivity.
Qed.

(** What [init] asks of the loader, in order. *)
Lemma load_symbols_trace (ops : lvacfs_wrapper_ops) (w : World M) :
  ∃ evs,
    trace (load_symbols (ops, w)).2.2 = trace w ++ evs ∧
    Forall (λ e, ∃ symbol r, e = Dlsym (lib_handle ops) symbol r) evs.
Proof.
  unfold load_symbols, or_else, load_sym, do_dlsym. simpl.
  repeat next_symbol;
    (eexists; split; [world_simpl; reflexivity | repeat constructor; eauto]).
Qed.

Lemma init_trace (self : Lvacfs) (w : World M) :
  ∃ evs,
    trace (init self w).2 = trace w ++ evs ∧
    (∀ path r,
       In (Dlopen path r) evs →
       find_params_dir ≠ None ∧
       (path = ODM_LIB_PATH LP64 ∨
        path = VENDOR_LIB_PATH LP64 ∧ dlopen (ODM_LIB_PATH LP64) = 0)) ∧
    (∀ h symbol r,
       In (Dlsym h symbol r) evs → h = opened_handle ∧ opened_handle ≠ 0).
Proof.
  unfold init. destruct find_params_dir as [path|] eqn:Hp.
  2:{ eexists. split; [world_simpl; reflexivity|].
      split; intros; simpl in *; pick_event H. }
  pose proof (open_library_handle zeroed_ops w) as Hh.
  assert (Hopen : ∃ evs,
            trace (open_library zeroed_ops w).2 = trace w ++ evs ∧
            (∀ p r, In (Dlopen p r) evs →
                    p = ODM_LIB_PATH LP64 ∨
                    p = VENDOR_LIB_PATH LP64 ∧
                    dlopen (ODM_LIB_PATH LP64) = 0) ∧
            (∀ h symbol r, ¬ In (Dlsym h symbol r) evs)).
  { destruct (Z.eq_dec (dlopen (ODM_LIB_PATH LP64)) 0) as [Hz | Hnz].
    - rewrite (open_library_vendor zeroed_ops w Hz).
      eexists [_; _]. split.
      { destruct (dlopen (VENDOR_LIB_PATH LP64) =? 0); world_simpl;
          reflexivity. }
      split.
      + intros p r [E | [E | []]]; injection E as <- _; auto.
      + intros h symbol r [E | [E | []]]; discriminate.
    - rewrite (open_library_odm zeroed_ops w Hnz).
      eexists [_]. split; [world_simpl; reflexivity|]. split.
      + intros p r [E | []]. injection E as <- _. auto.
      + intros h symbol r [E | []]. discriminate. }
  destruct Hopen as (oevs & Ho & Hodl & Hosym).
  destruct (open_library zeroed_ops w) as [ops w1]. simpl in Hh, Ho.
  destruct (lib_handle ops =? 0) eqn:Hz.
  { exists (oevs ++ [ALOGE "dlopen failed for %s and %s: %s" []]).
    split; [simpl; rewrite Ho, <- app_assoc; reflexivity|]. split.
    - intros p r Hin. apply in_app_or in Hin as [Hin | Hin].
      + split; [discriminate | eauto].
      + simpl in Hin. pick_event Hin.
    - intros h symbol r Hin. apply in_app_or in Hin as [Hin | Hin].
      + destruct (Hosym _ _ _ Hin).
      + simpl in Hin. pick_event Hin. }
  apply Z.eqb_neq in Hz. rewrite Hh in Hz.
  destruct (load_symbols_trace ops w1) as (sevs & Hs & Hall).
  rewrite Forall_forall in Hall.
  destruct (load_symbols (ops, w1)) as [failed [ops2 w2]]. simpl in Hs.
  assert (Hdl : ∀ tl p r,
            (∀ p r, ¬ In (Dlopen p r) tl) →
            In (Dlopen p r) (oevs ++ sevs ++ tl) →
            Some path ≠ None ∧
            (p = ODM_LIB_PATH LP64 ∨
             p = VENDOR_LIB_PATH LP64 ∧ dlopen (ODM_LIB_PATH LP64) = 0)).
  { intros tl p r Htl Hin. split; [discriminate|].
    apply in_app_or in Hin as [Hin | Hin]; [eauto|].
    apply in_app_or in Hin as [Hin | Hin]; [|destruct (Htl _ _ Hin)].
    apply list_elem_of_In, Hall in Hin as (sy & r' & E). discriminate. }
  assert (Hsy : ∀ tl h symbol r,
            (∀ h symbol r, ¬ In (Dlsym h symbol r) tl) →
            In (Dlsym h symbol r) (oevs ++ sevs ++ tl) →
            h = opened_handle ∧ opened_handle ≠ 0).
  { intros tl h symbol r Htl Hin.
    apply in_app_or in Hin as [Hin | Hin]; [destruct (Hosym _ _ _ Hin)|].
    apply in_app_or in Hin as [Hin | Hin]; [|destruct (Htl _ _ _ Hin)].
    apply list_elem_of_In, Hall in Hin as (sy & r' & E).
    injection E as -> _ _. auto. }
  destruct failed.
  - exists (oevs ++ sevs ++
            ALOGE "Failed to load one or more symbols: %s" []
            :: (if negb (lib_handle ops2 =? 0)
                then [Dlclose (lib_handle ops2)] else [])
            ++ [ALOGI "LVACFS deinitialized"]).
    split.
    { unfold deinit, do_dlclose. simpl.
      destruct (lib_handle ops2 =? 0); simpl; world_simpl;
        rewrite Hs, Ho; rewrite <- ?app_assoc; reflexivity. }
    split.
    + intros p r. apply Hdl. intros p' r' [E | Hin]; [discriminate|].
      destruct (negb _); simpl in Hin; pick_event Hin.
    + intros h symbol r. apply Hsy. intros h' s' r' [E | Hin];
        [discriminate|].
      destruct (negb _); simpl in Hin; pick_event Hin.
  - exists (oevs ++ sevs ++ [ALOGI "LVACFS initialized successfully"]).
    split.
    { world_simpl. rewrite Hs, Ho. rewrite <- ?app_assoc. reflexivity. }
    split.
    + intros p r. apply Hdl. intros p' r' Hin. simpl in Hin. pick_event Hin.
    + intros h symbol r. apply Hsy. intros h' s' r' Hin. simpl in Hin.
      pick_event Hin.
Qed.

(** C2. The params directory is the ODM one whenever it exists, else the
    vendor one whenever it exists, else there is none and [init] returns
    at once, having changed nothing and tried no [dlopen]; the directory
    found is the one [init] records.  The library is opened from the ODM
    path first: when that succeeds the vendor path is not tried, when it
    fails the vendor path is tried, and when both fail [init] returns
    without looking up any symbol.  When [init] succeeds, the module
    handle is the first [dlopen] result that was not null.  In the trace of
    [init] itself: no [dlopen] without a params directory, the vendor
    [dlopen] only after the ODM one returned null, and every [dlsym] on
    the handle that was opened. *)
Theorem overlay_first (self : Lvacfs) (ops : lvacfs_wrapper_ops)
    (w : World M) :
  (access ODM_PARAMS_DIR_PATH = true →
   find_params_dir = Some ODM_PARAMS_DIR_PATH) ∧
  (access ODM_PARAMS_DIR_PATH = false →
   access VENDOR_PARAMS_DIR_PATH = true →
   find_params_dir = Some VENDOR_PARAMS_DIR_PATH) ∧
  (access ODM_PARAMS_DIR_PATH = false →
   access VENDOR_PARAMS_DIR_PATH = false →
   find_params_dir = None ∧
   init self w = (self, emit (ALOGE "No params directory found" []) w)) ∧
  (∀ path, find_params_dir = Some path →
           params_file_path_ (init self w).1 = Some path) ∧
  (dlopen (ODM_LIB_PATH LP64) ≠ 0 →
   opened_handle = dlopen (ODM_LIB_PATH LP64) ∧
   open_library ops w =
     (set_lib_handle (dlopen (ODM_LIB_PATH LP64)) ops,
      emit (Dlopen (ODM_LIB_PATH LP64) (dlopen (ODM_LIB_PATH LP64)))
        (set_loaded (dlopen (ODM_LIB_PATH LP64) :: loaded w) w))) ∧
  (dlopen (ODM_LIB_PATH LP64) = 0 →
   opened_handle = dlopen (VENDOR_LIB_PATH LP64) ∧
   open_library ops w =
     (set_lib_handle (dlopen (VENDOR_LIB_PATH LP64)) ops,
      emit (Dlopen (VENDOR_LIB_PATH LP64) (dlopen (VENDOR_LIB_PATH LP64)))
        (if dlopen (VENDOR_LIB_PATH LP64) =? 0
         then emit (Dlopen (ODM_LIB_PATH LP64) 0) w
         else set_loaded (dlopen (VENDOR_LIB_PATH LP64) :: loaded w)
                (emit (Dlopen (ODM_LIB_PATH LP64) 0) w)))) ∧
  (∀ path, find_params_dir = Some path →
           dlopen (ODM_LIB_PATH LP64) = 0 →
           dlopen (VENDOR_LIB_PATH LP64) = 0 →
           init self w =
             (mk_Lvacfs (Some path) (Some zeroed_ops),
              emit (ALOGE "dlopen failed for %s and %s: %s" [])
                (emit (Dlopen (VENDOR_LIB_PATH LP64) 0)
                   (emit (Dlopen (ODM_LIB_PATH LP64) 0) w)))) ∧
  (init_succeeds →
   ready (init self w).1 ∧ module_handle (init self w).1 = opened_handle) ∧
  (∃ evs,
     trace (init self w).2 = trace w ++ evs ∧
     (∀ path r,
        In (Dlopen path r) evs →
        find_params_dir ≠ None ∧
        (path = ODM_LIB_PATH LP64 ∨
         path = VENDOR_LIB_PATH LP64 ∧ dlopen (ODM_LIB_PATH LP64) = 0)) ∧
     (∀ h symbol r,
        In (Dlsym h symbol r) evs →
        h = opened_handle ∧ opened_handle ≠ 0)).
Proof.
  split; [|split; [|split; [|split; [|split; [|split; [|split; [|split]]]]]]].
  - unfold find_params_dir. intros ->. reflexivity.
  - unfold find_params_dir. intros -> ->. reflexivity.
  - intros H1 H2.
    assert (Hn : find_params_dir = None).
    { unfold find_params_dir. rewrite H1, H2. reflexivity. }
    split; [exact Hn | apply init_no_params, Hn].
  - intros path Hp. unfold init. rewrite Hp.
    destruct (open_library zeroed_ops w) as [ops1 w1].
    destruct (lib_handle ops1 =? 0); [reflexivity|].
    destruct (load_symbols (ops1, w1)) as [failed [ops2 w2]].
    destruct failed; reflexivity.
  - intros Hnz. split; [|apply open_library_odm, Hnz].
    unfold opened_handle. apply Z.eqb_neq in Hnz. rewrite Hnz. reflexivity.
  - intros Hz. split; [|apply open_library_vendor, Hz].
    unfold opened_handle. rewrite Hz. reflexivity.
  - intros path Hp H1 H2. unfold init. rewrite Hp.
    rewrite (open_library_vendor zeroed_ops w H1). rewrite H2. reflexivity.
  - intros Hs.
    destruct (init_outcome self w)
      as [(_ & Hr & ops1 & Ho & Hh & _) | (Hn & _)]; [|contradiction].
    split; [exact Hr|]. unfold module_handle. rewrite Ho. exact Hh.
  - apply init_trace.
Qed.

(** ** [deinit] *)

(** C7. After any [deinit] the table is gone (no capability is callable,
    the module handle is null) and the heap and the library's state are
    untouched; when a library was loaded it has been closed, once.  On an
    inert Engine [deinit] closes nothing: it only clears the table and logs.
    That covers a second [deinit] in a row, and a [deinit] after an [init]
    that failed for lack of a params directory, of a library, or of a
    symbol. *)
Theorem deinit_idempotent (self : Lvacfs) (w : World M) :
  (wrapper_ops_ (deinit self w).1 = None ∧ inert (deinit self w).1 ∧
   heap (deinit self w).2 = heap w ∧
   lib_state (deinit self w).2 = lib_state w) ∧
  (module_handle self ≠ 0 →
   loaded (deinit self w).2 = remove_one (module_handle self) (loaded w) ∧
   trace (deinit self w).2 =
     trace w ++ [Dlclose (module_handle self);
                 ALOGI "LVACFS deinitialized"]) ∧
  (inert self →
   deinit self w =
     (mk_Lvacfs (params_file_path_ self) None,
      emit (ALOGI "LVACFS deinitialized") w)) ∧
  deinit (deinit self w).1 (deinit self w).2 =
    ((deinit self w).1,
     emit (ALOGI "LVACFS deinitialized") (deinit self w).2) ∧
  (¬ init_succeeds →
   deinit (init Lvacfs_new w).1 (init Lvacfs_new w).2 =
     (mk_Lvacfs (params_file_path_ (init Lvacfs_new w).1) None,
      emit (ALOGI "LVACFS deinitialized") (init Lvacfs_new w).2)).
Proof.
  assert (Hin : inert (deinit self w).1) by apply inert_no_table.
  split; [|split; [|split; [|split]]].
  - split; [reflexivity|]. split; [exact Hin|].
    unfold deinit, do_dlclose. destruct (wrapper_ops_ self) as [ops|]; simpl.
    + destruct (lib_handle ops =? 0); simpl; auto.
    + auto.
  - unfold module_handle, deinit, do_dlclose.
    destruct (wrapper_ops_ self) as [ops|]; simpl; [|congruence].
    intros Hnz. apply Z.eqb_neq in Hnz. rewrite Hnz. simpl.
    rewrite <- app_assoc. auto.
  - apply deinit_inert.
  - rewrite (deinit_inert _ _ Hin). reflexivity.
  - intros Hn. apply deinit_inert.
    destruct (init_outcome Lvacfs_new w) as [(Hs & _) | (_ & Hi & _)];
      [contradiction|].
    destruct Hi as [-> | Hi]; [apply inert_no_table | exact Hi].
Qed.

(** ** Calls into the library *)

Lemma callable_resolve (self : Lvacfs) c :
  callable self c = true → ∃ p, resolve self c = Done p.
Proof.
  unfold callable. destruct (resolve self c) as [p|f]; [eauto | discriminate].
Qed.

Lemma free_spec (h : Z) (w : World M) :
  h = 0 ∨ is_Some (heap w !! h) →
  free h w =
    Done (mk_world (released h (heap w)) (loaded w) (lib_state w)
            (trace w ++ [Free h])).
Proof.
  intros Hok. unfold free, released.
  destruct (h =? 0) eqn:E.
  - apply Z.eqb_eq in E. subst h. reflexivity.
  - destruct Hok as [-> | [v Hv]]; [discriminate|]. rewrite Hv. reflexivity.
Qed.

Lemma stopInputStream_spec (self : Lvacfs) (in_ : StreamInPrimary)
    (w : World M) :
  callable self DestroyInstance = true →
  handle_ok in_ w →
  stopInputStream self in_ w =
    Done (set_lvacfs_handle 0 in_,
          mk_world (released (lvacfs_handle in_) (heap w)) (loaded w)
            (lib_destroy_instance lib (lvacfs_handle in_)
               (heap w !! lvacfs_handle in_) (lib_state w)).2
            (trace w ++
             CallDestroyInstance (lvacfs_handle in_)
               (heap w !! lvacfs_handle in_)
               (lib_destroy_instance lib (lvacfs_handle in_)
                  (heap w !! lvacfs_handle in_) (lib_state w)).1
             :: log_failure "destroy instance failed: %d"
                  (lib_destroy_instance lib (lvacfs_handle in_)
                     (heap w !! lvacfs_handle in_) (lib_state w)).1
             ++ [Free (lvacfs_handle in_)])).
Proof.
  intros Hc Hok. apply callable_resolve in Hc as [p Hp].
  unfold stopInputStream, call_destroy_instance. rewrite Hp. simpl.
  destruct (lib_destroy_instance lib (lvacfs_handle in_)
              (heap w !! lvacfs_handle in_) (lib_state w)) as [ret m].
  simpl. unfold log_failure.
  destruct (ret <? 0); simpl; rewrite free_spec by exact Hok; simpl;
    rewrite <- ?app_assoc; reflexivity.
Qed.

(** ** [startInputStream] *)

Lemma calloc_cases (w : World M) :
  calloc w = (0, emit (Calloc 0) w) ∨
  ∃ a, a ≠ 0 ∧ heap w !! a = None ∧
       calloc w = (a, emit (Calloc a) (set_heap (<[a := 0]> (heap w)) w)).
Proof.
  unfold calloc. destruct (heap w !! allocator (heap w)) eqn:Hl; [auto|].
  destruct (allocator (heap w) =? 0) eqn:E; [auto|].
  right. exists (allocator (heap w)). apply Z.eqb_neq in E. auto.
Qed.

Lemma startInputStream_no_memory (self : Lvacfs) (in_ : StreamInPrimary)
    (w : World M) :
  calloc w = (0, emit (Calloc 0) w) →
  startInputStream self in_ w =
    Done (set_lvacfs_handle 0 in_,
          emit (ALOGE "Failed to allocate lvacfs_handle" [])
            (emit (Calloc 0) w)).
Proof. intros Hc. unfold startInputStream. rewrite Hc. reflexivity. Qed.

Lemma startInputStream_created (self : Lvacfs) (in_ : StreamInPrimary)
    (w : World M) a ret slot m :
  callable self SetParamsFilePath = true →
  callable self CreateInstance = true →
  a ≠ 0 →
  calloc w = (a, emit (Calloc a) (set_heap (<[a := 0]> (heap w)) w)) →
  create_reply self in_ a w = (ret, slot, m) →
  0 ≤ ret →
  startInputStream self in_ w =
    Done (set_lvacfs_handle a in_,
          mk_world (<[a := slot]> (heap w)) (loaded w) m
            (trace w ++
             [Calloc a; CallSetParamsFilePath (params_file_path_ self);
              CallCreateInstance a (Some 0) (source_ in_) (rate_of in_)
                (channels_of in_) ret])).
Proof.
  intros Hs Hc Ha Hcal Hr Hret.
  apply callable_resolve in Hs as [ps Hs].
  apply callable_resolve in Hc as [pc Hc].
  unfold startInputStream. rewrite Hcal. simpl.
  apply Z.eqb_neq in Ha. rewrite Ha.
  unfold call_set_params_file_path. rewrite Hs. simpl.
  unfold call_create_instance. rewrite Hc. simpl.
  rewrite lookup_insert_eq.
  unfold create_reply, rate_of, channels_of in Hr. rewrite Hr. simpl.
  assert (Hn : (ret <? 0) = false) by (apply Z.ltb_ge; exact Hret).
  rewrite Hn. rewrite insert_insert_eq. world_simpl. reflexivity.
Qed.

Lemma startInputStream_rejected (self : Lvacfs) (in_ : StreamInPrimary)
    (w : World M) a ret slot m :
  callable self SetParamsFilePath = true →
  callable self CreateInstance = true →
  callable self DestroyInstance = true →
  a ≠ 0 →
  heap w !! a = None →
  calloc w = (a, emit (Calloc a) (set_heap (<[a := 0]> (heap w)) w)) →
  create_reply self in_ a w = (ret, slot, m) →
  ret < 0 →
  startInputStream self in_ w =
    Done (set_lvacfs_handle 0 in_,
          mk_world (heap w) (loaded w)
            (lib_destroy_instance lib a (Some slot) m).2
            (trace w ++
             [Calloc a; CallSetParamsFilePath (params_file_path_ self);
              CallCreateInstance a (Some 0) (source_ in_) (rate_of in_)
                (channels_of in_) ret;
              ALOGE "create instance failed: %d" [ret];
              CallDestroyInstance a (Some slot)
                (lib_destroy_instance lib a (Some slot) m).1]
             ++ log_failure "destroy instance failed: %d"
                  (lib_destroy_instance lib a (Some slot) m).1
             ++ [Free a])).
Proof.
  intros Hs Hc Hd Ha Hfresh Hcal Hr Hret.
  apply callable_resolve in Hs as [ps Hs].
  apply callable_resolve in Hc as [pc Hc].
  unfold startInputStream. rewrite Hcal. simpl.
  pose proof Ha as Ha'. apply Z.eqb_neq in Ha'. rewrite Ha'.
  unfold call_set_params_file_path. rewrite Hs. simpl.
  unfold call_create_instance. rewrite Hc. simpl.
  rewrite lookup_insert_eq.
  unfold create_reply, rate_of, channels_of in Hr. rewrite Hr. simpl.
  assert (Hn : (ret <? 0) = true) by (apply Z.ltb_lt; exact Hret).
  rewrite Hn. rewrite insert_insert_eq.
  rewrite stopInputStream_spec; [|exact Hd|].
  - simpl. rewrite lookup_insert_eq. unfold released. rewrite Ha'.
    rewrite delete_insert_id by exact Hfresh.
    world_simpl. reflexivity.
  - right. simpl. rewrite lookup_insert_eq. eauto.
Qed.

(** ** The frame count *)

Lemma to_int_small (x : Z) : 0 ≤ x < 2 ^ 31 → to_int x = x.
Proof.
  intros Hx. unfold to_int.
  rewrite Z.mod_small by lia.
  destruct (x <? 2 ^ 31) eqn:E; [reflexivity|].
  apply Z.ltb_ge in E. lia.
Qed.

Lemma size_bits_cases :
  2 ^ size_bits LP64 = 2 ^ 64 ∨ 2 ^ size_bits LP64 = 2 ^ 32.
Proof. unfold size_bits. destruct LP64; auto. Qed.

(** With a non-zero product that fits [size_t] the division is defined,
    and the quotient is cut to 32 bits. *)
Lemma frame_count_value (bytes c bps : Z) :
  0 < c → 0 < bps → c * bps < 2 ^ size_bits LP64 →
  frame_count bytes c bps = Done (to_uint32 (bytes / (c * bps))).
Proof.
  intros Hc Hb Hfit. unfold frame_count, to_size_t.
  assert (Hc' : c mod 2 ^ size_bits LP64 = c).
  { apply Z.mod_small. nia. }
  rewrite Hc'. rewrite (Z.mod_small (c * bps)) by nia.
  destruct (c * bps =? 0) eqn:E; [|reflexivity].
  apply Z.eqb_eq in E. nia.
Qed.

Lemma frame_count_zero_divisor (bytes c bps : Z) :
  c = 0 ∨ bps = 0 → frame_count bytes c bps = Fault DivisionByZero.
Proof.
  intros [-> | ->]; unfold frame_count, to_size_t.
  - rewrite Z.mod_0_l by (destruct size_bits_cases as [-> | ->]; lia).
    reflexivity.
  - rewrite Z.mul_0_r.
    rewrite Z.mod_0_l by (destruct size_bits_cases as [-> | ->]; lia).
    reflexivity.
Qed.

Lemma frames_of_value (in_ : StreamInPrimary) (bytes : Z) :
  1 ≤ channel_count_of in_ →
  1 ≤ bytes_per_sample_of in_ →
  frames_of in_ bytes =
    Done (to_uint32
            (bytes / (channel_count_of in_ * bytes_per_sample_of in_))).
Proof.
  intros Hc Hb. unfold frames_of.
  pose proof (channel_count_range (channel_mask (config_ in_))) as Rc.
  pose proof (bytes_per_sample_range (format (config_ in_))) as Rb.
  rewrite to_int_small by lia.
  apply frame_count_value; [lia | lia |].
  destruct size_bits_cases as [-> | ->]; nia.
Qed.

(** ** [processInputStream] *)

Lemma processInputStream_ok (self : Lvacfs) (in_ : StreamInPrimary)
    (buffer : Z) (bytes : Z) (w : World M) n ret m :
  lvacfs_lock in_ = false →
  callable self Process = true →
  frames_of in_ bytes = Done n →
  process_reply in_ buffer n w = (ret, m) →
  0 ≤ ret →
  processInputStream self in_ buffer bytes w =
    Done (set_lvacfs_lock false in_,
          mk_world (heap w) (loaded w) m
            (trace w ++
             [MutexLock;
              CallProcess (lvacfs_handle in_) (heap w !! lvacfs_handle in_)
                buffer buffer n status_buffer ret;
              MutexUnlock])).
Proof.
  intros Hl Hc Hn Hr Hret. apply callable_resolve in Hc as [p Hp].
  unfold processInputStream, lock. rewrite Hl. simpl.
  unfold frames_of in Hn. rewrite Hn. simpl.
  unfold call_process. rewrite Hp. simpl.
  unfold process_reply in Hr. rewrite Hr. simpl.
  assert (E : (ret <? 0) = false) by (apply Z.ltb_ge; exact Hret).
  rewrite E. simpl. world_simpl. reflexivity.
Qed.

Lemma processInputStream_failed (self : Lvacfs) (in_ : StreamInPrimary)
    (buffer : Z) (bytes : Z) (w : World M) n ret m :
  lvacfs_lock in_ = false →
  callable self Process = true →
  callable self DestroyInstance = true →
  handle_ok in_ w →
  frames_of in_ bytes = Done n →
  process_reply in_ buffer n w = (ret, m) →
  ret < 0 →
  processInputStream self in_ buffer bytes w =
    Done (set_lvacfs_lock false (set_lvacfs_handle 0 in_),
          mk_world (released (lvacfs_handle in_) (heap w)) (loaded w)
            (lib_destroy_instance lib (lvacfs_handle in_)
               (heap w !! lvacfs_handle in_) m).2
            (trace w ++
             [MutexLock;
              CallProcess (lvacfs_handle in_) (heap w !! lvacfs_handle in_)
                buffer buffer n status_buffer ret;
              ALOGE "process failed: %d" [ret];
              CallDestroyInstance (lvacfs_handle in_)
                (heap w !! lvacfs_handle in_)
                (lib_destroy_instance lib (lvacfs_handle in_)
                   (heap w !! lvacfs_handle in_) m).1]
             ++ log_failure "destroy instance failed: %d"
                  (lib_destroy_instance lib (lvacfs_handle in_)
                     (heap w !! lvacfs_handle in_) m).1
             ++ [Free (lvacfs_handle in_); MutexUnlock])).
Proof.
  intros Hl Hc Hd Hok Hn Hr Hret. apply callable_resolve in Hc as [p Hp].
  unfold processInputStream, lock. rewrite Hl. simpl.
  unfold frames_of in Hn. rewrite Hn. simpl.
  unfold call_process. rewrite Hp. simpl.
  unfold process_reply in Hr. rewrite Hr. simpl.
  assert (E : (ret <? 0) = true) by (apply Z.ltb_lt; exact Hret).
  rewrite E. rewrite stopInputStream_spec; [|exact Hd|exact Hok].
  simpl. world_simpl. reflexivity.
Qed.

(** ** What a call that returned tells about its start *)

Lemma resolve_Done_callable (self : Lvacfs) c p :
  resolve self c = Done p → callable self c = true.
Proof. unfold callable. intros ->. reflexivity. Qed.

Lemma stopInputStream_inv (self : Lvacfs) (in_ : StreamInPrimary)
    (w : World M) r :
  stopInputStream self in_ w = Done r →
  callable self DestroyInstance = true ∧ handle_ok in_ w.
Proof.
  unfold stopInputStream, call_destroy_instance, handle_ok.
  destruct (resolve self DestroyInstance) as [p|f] eqn:Hp; [|discriminate].
  simpl.
  destruct (lib_destroy_instance lib (lvacfs_handle in_)
              (heap w !! lvacfs_handle in_) (lib_state w)) as [ret m].
  simpl. intros Hd. split; [eapply resolve_Done_callable, Hp|].
  unfold free in Hd.
  destruct (lvacfs_handle in_ =? 0) eqn:E.
  - left. apply Z.eqb_eq, E.
  - right. destruct (ret <? 0); simpl in Hd;
      destruct (heap w !! lvacfs_handle in_); eauto; discriminate.
Qed.

Lemma processInputStream_inv (self : Lvacfs) (in_ : StreamInPrimary)
    (buffer : Z) (bytes : Z) (w : World M) r :
  processInputStream self in_ buffer bytes w = Done r →
  lvacfs_lock in_ = false ∧ callable self Process = true ∧
  ∃ n, frames_of in_ bytes = Done n ∧
       ((process_reply in_ buffer n w).1 < 0 →
        callable self DestroyInstance = true ∧ handle_ok in_ w).
Proof.
  unfold processInputStream, lock, frames_of.
  destruct (lvacfs_lock in_) eqn:Hl; [discriminate|]. simpl.
  destruct (frame_count bytes _ _) as [n|f] eqn:Hn; [|discriminate]. simpl.
  unfold call_process.
  destruct (resolve self Process) as [p|f] eqn:Hp; [|discriminate]. simpl.
  intros Hd.
  split; [reflexivity|]. split; [eapply resolve_Done_callable, Hp|].
  exists n. split; [reflexivity|].
  revert Hd. unfold process_reply.
  destruct (lib_process lib (lvacfs_handle in_)
              (heap w !! lvacfs_handle in_) buffer buffer n status_buffer
              (lib_state w)) as [ret m].
  simpl. intros Hd Hret.
  apply Z.ltb_lt in Hret. rewrite Hret in Hd.
  destruct (stopInputStream self _ _) as [r'|f] eqn:Hs; [|discriminate].
  apply stopInputStream_inv in Hs. exact Hs.
Qed.

(** ** Totality under the preconditions *)

Lemma startInputStream_total (self : Lvacfs) (in_ : StreamInPrimary)
    (w : World M) :
  ready self → ∃ r, startInputStream self in_ w = Done r.
Proof.
  intros [_ Hc].
  destruct (calloc_cases w) as [Hz | (a & Ha & Hf & Hcal)].
  - rewrite (startInputStream_no_memory _ _ _ Hz). eauto.
  - destruct (create_reply self in_ a w) as [[ret slot] m] eqn:Hr.
    destruct (Z.lt_ge_cases ret 0) as [Hneg | Hpos].
    + erewrite startInputStream_rejected; eauto.
    + erewrite startInputStream_created; eauto.
Qed.

(** X2. On a ready Engine, for a stream whose mutex is free, whose handle is
    null or live and whose channel count and bytes per sample are at least
    one, [processInputStream] returns, whatever the library answers. *)
Lemma processInputStream_total (self : Lvacfs) (in_ : StreamInPrimary)
    (buffer : Z) (bytes : Z) (w : World M) :
  ready self →
  lvacfs_lock in_ = false →
  handle_ok in_ w →
  1 ≤ channel_count_of in_ →
  1 ≤ bytes_per_sample_of in_ →
  ∃ r, processInputStream self in_ buffer bytes w = Done r.
Proof.
  intros [_ Hc] Hl Hok H1 H2.
  pose proof (frames_of_value in_ bytes H1 H2) as Hn.
  destruct (process_reply in_ buffer
              (to_uint32
                 (bytes / (channel_count_of in_ * bytes_per_sample_of in_))) w)
    as [ret m] eqn:Hr.
  destruct (Z.lt_ge_cases ret 0) as [Hneg | Hpos].
  - erewrite processInputStream_failed; eauto.
  - erewrite processInputStream_ok; eauto.
Qed.

Lemma set_lvacfs_handle_same (in_ : StreamInPrimary) :
  set_lvacfs_handle (lvacfs_handle in_) in_ = in_.
Proof. destruct in_. reflexivity. Qed.

Lemma stopInputStream_lock (self : Lvacfs) (in_ in' : StreamInPrimary)
    (w w' : World M) :
  stopInputStream self in_ w = Done (in', w') →
  lvacfs_lock in' = lvacfs_lock in_.
Proof.
  intros Hd. destruct (stopInputStream_inv _ _ _ _ Hd) as [Hc Hok].
  rewrite stopInputStream_spec in Hd by assumption.
  injection Hd as <- _. reflexivity.
Qed.

(** ** Sessions *)

Lemma startInputStream_inv (self : Lvacfs) (in_ in' : StreamInPrimary)
    (w w' : World M) :
  startInputStream self in_ w = Done (in', w') →
  lvacfs_lock in' = lvacfs_lock in_ ∧ handle_ok in' w'.
Proof.
  unfold startInputStream.
  destruct (calloc_cases w) as [-> | (a & Ha & Hf & ->)]; simpl.
  { intros Hd. injection Hd as <- <-.
    split; [reflexivity | left; reflexivity]. }
  pose proof Ha as Ha'. apply Z.eqb_neq in Ha'. rewrite Ha'.
  unfold call_set_params_file_path.
  destruct (resolve self SetParamsFilePath) as [ps|f]; [|discriminate]. simpl.
  unfold call_create_instance.
  destruct (resolve self CreateInstance) as [pc0|f]; [|discriminate]. simpl.
  rewrite lookup_insert_eq.
  destruct (lib_create_instance lib a (Some 0) _ _ _ _) as [[ret slot] m].
  simpl. destruct (ret <? 0).
  - intros Hd. pose proof (stopInputStream_lock _ _ _ _ _ Hd) as Hl.
    destruct (stopInputStream_inv _ _ _ _ Hd) as [Hc Hok].
    rewrite stopInputStream_spec in Hd by assumption.
    injection Hd as <- <-. split; [reflexivity | left; reflexivity].
  - intros Hd. injection Hd as <- <-. split; [reflexivity|].
    right. simpl. rewrite lookup_insert_eq. eauto.
Qed.

(** X1. Every state of a stream has the mutex free and a handle that is null
    or the address of a live slot: the preconditions the statements below
    put on a stream. *)
Lemma session_invariant (self : Lvacfs) (in_ : StreamInPrimary)
    (w : World M) :
  session self in_ w → lvacfs_lock in_ = false ∧ handle_ok in_ w.
Proof.
  induction 1 as [in_ w Hh Hl | in_ w in' w' _ [IHl IHo] Hd
                 | in_ w buffer bytes in' w' _ [IHl IHo] Hd
                 | in_ w in' w' _ [IHl IHo] Hd].
  - split; [exact Hl | left; exact Hh].
  - apply startInputStream_inv in Hd as [Hl Hok].
    split; [congruence | exact Hok].
  - destruct (processInputStream_inv _ _ _ _ _ _ Hd)
      as (_ & Hp & n & Hn & Hfail).
    destruct (process_reply in_ buffer n w) as [ret m] eqn:Hr.
    simpl in Hfail.
    destruct (Z.lt_ge_cases ret 0) as [Hneg | Hpos].
    + destruct (Hfail Hneg) as [Hdc _].
      erewrite processInputStream_failed in Hd; eauto.
      injection Hd as <- <-. split; [reflexivity | left; reflexivity].
    + erewrite processInputStream_ok in Hd; eauto.
      injection Hd as <- <-. split; [reflexivity | exact IHo].
  - pose proof (stopInputStream_lock _ _ _ _ _ Hd) as Hl.
    destruct (stopInputStream_inv _ _ _ _ Hd) as [Hc Hok].
    rewrite stopInputStream_spec in Hd by assumption.
    injection Hd as <- <-. split; [congruence | left; reflexivity].
Qed.

(** ** The packed arguments of create-instance *)

Lemma land_ones_small (x n : Z) :
  0 ≤ n → 0 ≤ x < 2 ^ n → Z.land x (Z.ones n) = x.
Proof. intros Hn Hx. rewrite Z.land_ones by lia. apply Z.mod_small. lia. Qed.

Lemma shiftr_small (x n : Z) : 0 ≤ n → 0 ≤ x < 2 ^ n → Z.shiftr x n = 0.
Proof.
  intros Hn Hx. rewrite Z.shiftr_div_pow2 by lia. apply Z.div_small. lia.
Qed.

Lemma pack_channels_upper (c : Z) :
  0 ≤ c < 2 ^ 16 → Z.shiftr (pack_channels c) 16 = c.
Proof.
  intros Hc. unfold pack_channels, to_uint32.
  change 0xFFFF with (Z.ones 16). rewrite (land_ones_small c 16) by lia.
  rewrite <- Z.land_ones by lia.
  rewrite Z.shiftr_land, Z.shiftr_lor.
  rewrite Z.shiftr_shiftl_l by lia.
  rewrite (shiftr_small c 16) by lia.
  change (Z.shiftr (Z.ones 32) 16) with (Z.ones 16).
  change (16 - 16) with 0. rewrite Z.shiftl_0_r, Z.lor_0_r.
  apply land_ones_small; lia.
Qed.

Lemma pack_channels_lower (c : Z) :
  0 ≤ c < 2 ^ 16 → Z.land (pack_channels c) 0xFFFF = c.
Proof.
  intros Hc. unfold pack_channels, to_uint32.
  change 0xFFFF with (Z.ones 16). rewrite (land_ones_small c 16) by lia.
  rewrite <- Z.land_ones by lia.
  rewrite <- Z.land_assoc.
  change (Z.land (Z.ones 32) (Z.ones 16)) with (Z.ones 16).
  rewrite Z.land_lor_distr_l.
  rewrite (land_ones_small c 16) by lia.
  rewrite Z.land_ones by lia. rewrite Z.shiftl_mul_pow2 by lia.
  rewrite Z.mod_mul by lia. apply Z.lor_0_l.
Qed.

Lemma pack_sample_rate_and_format_value (rate : Z) :
  0 ≤ rate < 2 ^ 32 → pack_sample_rate_and_format rate = rate.
Proof.
  intros Hr. unfold pack_sample_rate_and_format, to_uint64.
  change (Z.shiftl (0 mod 2 ^ 64) 32) with 0. rewrite Z.lor_0_l.
  apply Z.mod_small. lia.
Qed.

(** C5. When [startInputStream] calls create-instance, the channel value
    it passes has the stream's channel count in its upper 16 bits and in
    its lower 16 bits, and the 64-bit sample-rate-and-format value has 0 in
    its upper 32 bits and the stream's sample rate in its lower 32 bits; the
    call is made whenever the handle slot could be allocated. *)
Theorem create_instance_arguments (self : Lvacfs) (in_ : StreamInPrimary)
    (w : World M) :
  ready self →
  0 ≤ sample_rate (config_ in_) < 2 ^ 32 →
  ∃ in' w' evs,
    startInputStream self in_ w = Done (in', w') ∧
    trace w' = trace w ++ evs ∧
    ((calloc w).1 ≠ 0 →
     ∃ ret, In (CallCreateInstance (calloc w).1 (Some 0) (source_ in_)
                  (rate_of in_) (channels_of in_) ret) evs) ∧
    ∀ h slot source rate channels ret,
      In (CallCreateInstance h slot source rate channels ret) evs →
      Z.shiftr channels 16 = channel_count_of in_ ∧
      Z.land channels 0xFFFF = channel_count_of in_ ∧
      Z.shiftr rate 32 = 0 ∧
      Z.land rate 0xFFFFFFFF = sample_rate (config_ in_) ∧
      source = source_ in_ ∧ h = (calloc w).1.
Proof.
  intros Hready Hrate. destruct Hready as [_ Hc].
  pose proof (channel_count_range (channel_mask (config_ in_))) as Rc.
  assert (Hch : ∀ h slot source rate channels ret a ret0,
             CallCreateInstance a (Some 0) (source_ in_) (rate_of in_)
               (channels_of in_) ret0
             = CallCreateInstance h slot source rate channels ret →
             Z.shiftr channels 16 = channel_count_of in_ ∧
             Z.land channels 0xFFFF = channel_count_of in_ ∧
             Z.shiftr rate 32 = 0 ∧
             Z.land rate 0xFFFFFFFF = sample_rate (config_ in_) ∧
             source = source_ in_ ∧ h = a).
  { intros h slot source rate channels ret a ret0 E.
    injection E as <- <- <- <- <- <-.
    unfold channels_of, rate_of.
    rewrite to_int_small by lia.
    rewrite pack_channels_upper, pack_channels_lower by lia.
    rewrite pack_sample_rate_and_format_value by lia.
    change 0xFFFFFFFF with (Z.ones 32).
    rewrite shiftr_small, land_ones_small by lia. repeat split. }
  destruct (calloc_cases w) as [Hz | (a & Ha & Hf & Hcal)].
  - rewrite (startInputStream_no_memory _ _ _ Hz). rewrite Hz.
    eexists _, _, _. split; [reflexivity|]. split.
    { world_simpl. reflexivity. }
    split; [intros Hn; destruct Hn; reflexivity|].
    intros h slot source rate channels ret Hin. simpl in Hin.
    pick_event Hin.
  - rewrite Hcal. simpl.
    destruct (create_reply self in_ a w) as [[ret slot] m] eqn:Hr.
    destruct (Z.lt_ge_cases ret 0) as [Hneg | Hpos].
    + erewrite startInputStream_rejected; eauto.
      eexists _, _, _. split; [reflexivity|]. split; [reflexivity|]. split.
      { intros _. exists ret. simpl. auto. }
      intros h sl source rate channels r Hin. simpl in Hin.
      destruct Hin as [Hin | [Hin | [Hin | Hin]]]; try discriminate.
      { eapply Hch, Hin. }
      destruct Hin as [Hin | [Hin | Hin]]; try discriminate.
      apply in_app_or in Hin as [Hin | Hin].
      * unfold log_failure in Hin.
        destruct (_ <? 0); simpl in Hin; pick_event Hin.
      * simpl in Hin. pick_event Hin.
    + erewrite startInputStream_created; eauto.
      eexists _, _, _. split; [reflexivity|]. split; [reflexivity|]. split.
      { intros _. exists ret. simpl. auto. }
      intros h sl source rate channels r Hin. simpl in Hin.
      destruct Hin as [Hin | [Hin | [Hin | Hin]]]; try discriminate.
      { eapply Hch, Hin. }
      destruct Hin.
Qed.

(** ** What a call that returned did *)

Lemma stopInputStream_done (self : Lvacfs) (in_ in' : StreamInPrimary)
    (w w' : World M) :
  stopInputStream self in_ w = Done (in', w') →
  callable self DestroyInstance = true ∧ handle_ok in_ w ∧
  in' = set_lvacfs_handle 0 in_ ∧
  w' = mk_world (released (lvacfs_handle in_) (heap w)) (loaded w)
         (lib_destroy_instance lib (lvacfs_handle in_)
            (heap w !! lvacfs_handle in_) (lib_state w)).2
         (trace w ++
          CallDestroyInstance (lvacfs_handle in_)
            (heap w !! lvacfs_handle in_)
            (lib_destroy_instance lib (lvacfs_handle in_)
               (heap w !! lvacfs_handle in_) (lib_state w)).1
          :: log_failure "destroy instance failed: %d"
               (lib_destroy_instance lib (lvacfs_handle in_)
                  (heap w !! lvacfs_handle in_) (lib_state w)).1
          ++ [Free (lvacfs_handle in_)]).
Proof.
  intros Hd. destruct (stopInputStream_inv _ _ _ _ Hd) as [Hc Hok].
  rewrite stopInputStream_spec in Hd by assumption.
  injection Hd as <- <-. auto.
Qed.

Lemma startInputStream_callable (self : Lvacfs) (in_ : StreamInPrimary)
    (w : World M) r :
  startInputStream self in_ w = Done r →
  (calloc w).1 ≠ 0 →
  callable self SetParamsFilePath = true ∧
  callable self CreateInstance = true ∧
  ((create_reply self in_ (calloc w).1 w).1.1 < 0 →
   callable self DestroyInstance = true).
Proof.
  unfold startInputStream.
  destruct (calloc_cases w) as [-> | (a & Ha & Hf & ->)]; simpl;
    [intros _ Hn; contradiction|].
  pose proof Ha as Ha'. apply Z.eqb_neq in Ha'. rewrite Ha'.
  unfold call_set_params_file_path.
  destruct (resolve self SetParamsFilePath) as [ps|f] eqn:Hs;
    [|discriminate]. simpl.
  unfold call_create_instance.
  destruct (resolve self CreateInstance) as [pc0|f] eqn:Hc;
    [|discriminate]. simpl.
  rewrite lookup_insert_eq. unfold create_reply, rate_of, channels_of.
  destruct (lib_create_instance lib a (Some 0) _ _ _ _) as [[ret slot] m].
  simpl. intros Hd _.
  split; [eapply resolve_Done_callable, Hs|].
  split; [eapply resolve_Done_callable, Hc|].
  intros Hneg. apply Z.ltb_lt in Hneg. rewrite Hneg in Hd.
  apply stopInputStream_inv in Hd. apply Hd.
Qed.

Lemma startInputStream_done (self : Lvacfs) (in_ in' : StreamInPrimary)
    (w w' : World M) :
  startInputStream self in_ w = Done (in', w') →
  ((calloc w).1 = 0 ∧ in' = set_lvacfs_handle 0 in_ ∧
   w' = emit (ALOGE "Failed to allocate lvacfs_handle" [])
          (emit (Calloc 0) w))
  ∨
  ∃ a ret slot m,
    a ≠ 0 ∧ heap w !! a = None ∧ (calloc w).1 = a ∧
    create_reply self in_ a w = (ret, slot, m) ∧
    ((0 ≤ ret ∧ in' = set_lvacfs_handle a in_ ∧
      w' = mk_world (<[a := slot]> (heap w)) (loaded w) m
             (trace w ++
              [Calloc a; CallSetParamsFilePath (params_file_path_ self);
               CallCreateInstance a (Some 0) (source_ in_) (rate_of in_)
                 (channels_of in_) ret]))
     ∨
     (ret < 0 ∧ in' = set_lvacfs_handle 0 in_ ∧
      w' = mk_world (heap w) (loaded w)
             (lib_destroy_instance lib a (Some slot) m).2
             (trace w ++
              [Calloc a; CallSetParamsFilePath (params_file_path_ self);
               CallCreateInstance a (Some 0) (source_ in_) (rate_of in_)
                 (channels_of in_) ret;
               ALOGE "create instance failed: %d" [ret];
               CallDestroyInstance a (Some slot)
                 (lib_destroy_instance lib a (Some slot) m).1]
              ++ log_failure "destroy instance failed: %d"
                   (lib_destroy_instance lib a (Some slot) m).1
              ++ [Free a]))).
Proof.
  intros Hd.
  destruct (calloc_cases w) as [Hz | (a & Ha & Hf & Hcal)].
  - left. rewrite (startInputStream_no_memory _ _ _ Hz) in Hd.
    injection Hd as <- <-. rewrite Hz. auto.
  - right.
    assert (Ha1 : (calloc w).1 = a) by (rewrite Hcal; reflexivity).
    destruct (startInputStream_callable _ _ _ _ Hd) as (Hs & Hc & Hdes).
    { rewrite Ha1. exact Ha. }
    rewrite Ha1 in Hdes.
    destruct (create_reply self in_ a w) as [[ret slot] m] eqn:Hr.
    exists a, ret, slot, m. repeat (split; [assumption || reflexivity|]).
    destruct (Z.lt_ge_cases ret 0) as [Hneg | Hpos].
    + right. erewrite startInputStream_rejected in Hd; eauto.
      injection Hd as <- <-. auto.
    + left. erewrite startInputStream_created in Hd; eauto.
      injection Hd as <- <-. auto.
Qed.

Lemma set_lvacfs_lock_same (in_ : StreamInPrimary) :
  set_lvacfs_lock (lvacfs_lock in_) in_ = in_.
Proof. destruct in_. reflexivity. Qed.

Lemma processInputStream_done (self : Lvacfs) (in_ in' : StreamInPrimary)
    (buffer bytes : Z) (w w' : World M) :
  processInputStream self in_ buffer bytes w = Done (in', w') →
  lvacfs_lock in_ = false ∧
  ∃ n ret m,
    frames_of in_ bytes = Done n ∧
    process_reply in_ buffer n w = (ret, m) ∧
    ((0 ≤ ret ∧ in' = in_ ∧
      w' = mk_world (heap w) (loaded w) m
             (trace w ++
              [MutexLock;
               CallProcess (lvacfs_handle in_) (heap w !! lvacfs_handle in_)
                 buffer buffer n status_buffer ret;
               MutexUnlock]))
     ∨
     (ret < 0 ∧ handle_ok in_ w ∧ in' = set_lvacfs_handle 0 in_ ∧
      w' = mk_world (released (lvacfs_handle in_) (heap w)) (loaded w)
             (lib_destroy_instance lib (lvacfs_handle in_)
                (heap w !! lvacfs_handle in_) m).2
             (trace w ++
              [MutexLock;
               CallProcess (lvacfs_handle in_) (heap w !! lvacfs_handle in_)
                 buffer buffer n status_buffer ret;
               ALOGE "process failed: %d" [ret];
               CallDestroyInstance (lvacfs_handle in_)
                 (heap w !! lvacfs_handle in_)
                 (lib_destroy_instance lib (lvacfs_handle in_)
                    (heap w !! lvacfs_handle in_) m).1]
              ++ log_failure "destroy instance failed: %d"
                   (lib_destroy_instance lib (lvacfs_handle in_)
                      (heap w !! lvacfs_handle in_) m).1
              ++ [Free (lvacfs_handle in_); MutexUnlock]))).
Proof.
  intros Hd.
  destruct (processInputStream_inv _ _ _ _ _ _ Hd)
    as (Hl & Hp & n & Hn & Hfail).
  split; [exact Hl|].
  destruct (process_reply in_ buffer n w) as [ret m] eqn:Hr.
  simpl in Hfail. exists n, ret, m.
  split; [exact Hn|]. split; [exact Hr|].
  destruct (Z.lt_ge_cases ret 0) as [Hneg | Hpos].
  - right. destruct (Hfail Hneg) as [Hdc Hok].
    erewrite processInputStream_failed in Hd; eauto.
    injection Hd as <- <-.
    split; [exact Hneg|]. split; [exact Hok|]. split; [|reflexivity].
    rewrite <- Hl. destruct in_. reflexivity.
  - left. erewrite processInputStream_ok in Hd; eauto.
    injection Hd as <- <-.
    split; [exact Hpos|]. split; [|reflexivity].
    rewrite <- Hl. apply set_lvacfs_lock_same.
Qed.

Lemma log_failure_events (fmt : string) (ret : Z) e :
  In e (log_failure fmt ret) → e = ALOGE fmt [ret].
Proof.
  unfold log_failure. destruct (ret <? 0); simpl; [|intros []].
  intros [<- | []]. reflexivity.
Qed.

Lemma released_other (h a : Z) (hp : gmap Z Z) :
  a ≠ h → released h hp !! a = hp !! a.
Proof.
  intros Hne. unfold released. destruct (h =? 0); [reflexivity|].
  apply lookup_delete_ne. congruence.
Qed.

(** ** Teardown *)


Lemma torn_down_null (self : Lvacfs) (in_ : StreamInPrimary) (w : World M) :
  ready self → lvacfs_handle in_ = 0 → torn_down self in_ w.
Proof.
  intros Hready Hz. pose proof Hready as [_ Hc].
  split; [exact Hz|]. split; [|apply startInputStream_total, Hready].
  assert (Hok : handle_ok in_ w) by (left; exact Hz).
  pose proof (stopInputStream_spec self in_ w (Hc _) Hok) as Hs.
  rewrite Hz in Hs. rewrite <- Hz in Hs at 1.
  rewrite set_lvacfs_handle_same in Hs.
  eexists _, _. split; [exact Hs|]. simpl. repeat split; reflexivity.
Qed.

(** C3. Whenever the library answers create-instance with a negative code
    in [startInputStream], or process with a negative code in
    [processInputStream], the call logs the failure and runs the stop
    path: destroy-instance is called on the handle, the slot is freed,
    and the stream is left with a null handle and no slot on the heap.
    After a failed start the record is the one of the stream before the
    call with a null handle (the very same record when it was never
    started) and the heap is as before the call; after a failed process
    call on a stream started from a never-started one, the record and the
    heap are exactly those from before the start.  The stream left behind
    can be stopped, which frees nothing, and can be started again. *)
Theorem teardown_on_failure (self : Lvacfs) (in_ : StreamInPrimary)
    (buffer : Z) (bytes : Z) (w : World M) :
  ready self →
  (∀ a ret slot m,
     (calloc w).1 = a → a ≠ 0 →
     create_reply self in_ a w = (ret, slot, m) →
     ret < 0 →
     ∃ w',
       startInputStream self in_ w = Done (set_lvacfs_handle 0 in_, w') ∧
       trace w' =
         trace w ++
         [Calloc a; CallSetParamsFilePath (params_file_path_ self);
          CallCreateInstance a (Some 0) (source_ in_) (rate_of in_)
            (channels_of in_) ret;
          ALOGE "create instance failed: %d" [ret];
          CallDestroyInstance a (Some slot)
            (lib_destroy_instance lib a (Some slot) m).1]
         ++ log_failure "destroy instance failed: %d"
              (lib_destroy_instance lib a (Some slot) m).1
         ++ [Free a] ∧
       heap w' = heap w ∧
       heap w' !! a = None ∧
       loaded w' = loaded w ∧
       (lvacfs_handle in_ = 0 → set_lvacfs_handle 0 in_ = in_) ∧
       torn_down self (set_lvacfs_handle 0 in_) w') ∧
  (∀ ret m,
     lvacfs_lock in_ = false →
     handle_ok in_ w →
     1 ≤ channel_count_of in_ →
     1 ≤ bytes_per_sample_of in_ →
     process_reply in_ buffer (to_uint32 (bytes / frame_size_of in_)) w
       = (ret, m) →
     ret < 0 →
     ∃ w',
       processInputStream self in_ buffer bytes w
         = Done (set_lvacfs_handle 0 in_, w') ∧
       trace w' =
         trace w ++
         [MutexLock;
          CallProcess (lvacfs_handle in_) (heap w !! lvacfs_handle in_)
            buffer buffer (to_uint32 (bytes / frame_size_of in_))
            status_buffer ret;
          ALOGE "process failed: %d" [ret];
          CallDestroyInstance (lvacfs_handle in_)
            (heap w !! lvacfs_handle in_)
            (lib_destroy_instance lib (lvacfs_handle in_)
               (heap w !! lvacfs_handle in_) m).1]
         ++ log_failure "destroy instance failed: %d"
              (lib_destroy_instance lib (lvacfs_handle in_)
                 (heap w !! lvacfs_handle in_) m).1
         ++ [Free (lvacfs_handle in_); MutexUnlock] ∧
       heap w' = released (lvacfs_handle in_) (heap w) ∧
       (lvacfs_handle in_ ≠ 0 → heap w' !! lvacfs_handle in_ = None) ∧
       loaded w' = loaded w ∧
       torn_down self (set_lvacfs_handle 0 in_) w') ∧
  (∀ in0 w0 ret m,
     lvacfs_handle in0 = 0 →
     lvacfs_lock in0 = false →
     startInputStream self in0 w0 = Done (in_, w) →
     lvacfs_handle in_ ≠ 0 →
     1 ≤ channel_count_of in_ →
     1 ≤ bytes_per_sample_of in_ →
     process_reply in_ buffer (to_uint32 (bytes / frame_size_of in_)) w
       = (ret, m) →
     ret < 0 →
     ∃ w',
       processInputStream self in_ buffer bytes w = Done (in0, w') ∧
       heap w' = heap w0 ∧
       loaded w' = loaded w0 ∧
       torn_down self in0 w').
Proof.
  intros Hready. pose proof Hready as [_ Hc].
  assert (Hproc : ∀ ret m,
            lvacfs_lock in_ = false →
            handle_ok in_ w →
            1 ≤ channel_count_of in_ →
            1 ≤ bytes_per_sample_of in_ →
            process_reply in_ buffer (to_uint32 (bytes / frame_size_of in_))
              w = (ret, m) →
            ret < 0 →
            processInputStream self in_ buffer bytes w
            = Done (set_lvacfs_handle 0 in_,
                    mk_world (released (lvacfs_handle in_) (heap w))
                      (loaded w)
                      (lib_destroy_instance lib (lvacfs_handle in_)
                         (heap w !! lvacfs_handle in_) m).2
                      (trace w ++
                       [MutexLock;
                        CallProcess (lvacfs_handle in_)
                          (heap w !! lvacfs_handle in_) buffer buffer
                          (to_uint32 (bytes / frame_size_of in_))
                          status_buffer ret;
                        ALOGE "process failed: %d" [ret];
                        CallDestroyInstance (lvacfs_handle in_)
                          (heap w !! lvacfs_handle in_)
                          (lib_destroy_instance lib (lvacfs_handle in_)
                             (heap w !! lvacfs_handle in_) m).1]
                       ++ log_failure "destroy instance failed: %d"
                            (lib_destroy_instance lib (lvacfs_handle in_)
                               (heap w !! lvacfs_handle in_) m).1
                       ++ [Free (lvacfs_handle in_); MutexUnlock]))).
  { intros ret m Hl Hok H1 H2 Hr Hneg.
    pose proof (frames_of_value in_ bytes H1 H2) as Hn.
    erewrite processInputStream_failed; eauto.
    f_equal. f_equal. rewrite <- Hl. destruct in_. reflexivity. }
  split; [|split].
  - intros a ret slot m Ha Hnz Hr Hneg.
    destruct (calloc_cases w) as [Hz | (a' & _ & Hf & Hcal)].
    { rewrite Hz in Ha. simpl in Ha. congruence. }
    assert (a' = a) by (rewrite Hcal in Ha; exact Ha). subst a'.
    eexists. split.
    { eapply startInputStream_rejected; eauto. }
    simpl. split; [reflexivity|]. split; [reflexivity|].
    split; [exact Hf|]. split; [reflexivity|].
    split; [intros Hz; rewrite <- Hz; apply set_lvacfs_handle_same|].
    apply torn_down_null; [exact Hready | reflexivity].
  - intros ret m Hl Hok H1 H2 Hr Hneg.
    eexists. split; [apply Hproc; eassumption|]. simpl.
    split; [reflexivity|]. split; [reflexivity|].
    split.
    { intros Hnz. unfold released. apply Z.eqb_neq in Hnz. rewrite Hnz.
      apply lookup_delete_eq. }
    split; [reflexivity|].
    apply torn_down_null; [exact Hready | reflexivity].
  - intros in0 w0 ret m Hz0 Hl0 Hstart Hnz H1 H2 Hr Hneg.
    destruct (startInputStream_done _ _ _ _ _ Hstart)
      as [(_ & Ein & _) | (a & r0 & slot & m0 & Ha & Hf & _ & _ & Hcase)].
    { rewrite Ein in Hnz. simpl in Hnz. contradiction. }
    destruct Hcase as [(_ & Ein & Ew) | (_ & Ein & _)].
    2:{ rewrite Ein in Hnz. simpl in Hnz. contradiction. }
    assert (Hl : lvacfs_lock in_ = false) by (rewrite Ein; exact Hl0).
    assert (Hok : handle_ok in_ w).
    { right. rewrite Ein, Ew. simpl. rewrite lookup_insert_eq. eauto. }
    assert (Hback : set_lvacfs_handle 0 in_ = in0).
    { rewrite Ein. rewrite <- Hz0. destruct in0. reflexivity. }
    eexists. split.
    { rewrite <- Hback. apply Hproc; eassumption. }
    simpl. rewrite Ein, Ew. simpl.
    assert (Hrel : released a (<[a := slot]> (heap w0)) = heap w0).
    { unfold released. apply Z.eqb_neq in Ha. rewrite Ha.
      apply delete_insert_id. exact Hf. }
    split; [exact Hrel|]. split; [reflexivity|].
    apply torn_down_null; [exact Hready | exact Hz0].
Qed.

(** C8, as the code has it.  The stop path calls destroy-instance
    unconditionally: on a stream whose slot is as [calloc] left it, and in
    the teardown after a failed create-instance.  What destroy-instance is
    given is never uninitialised memory: the slot holds null when the
    stream is in its pre-creation state, and what create-instance stored in
    the zeroed slot when create-instance has just failed.  The call at this
    layer is defined, and the slot is released afterwards. *)
Theorem teardown_destroys_zeroed_slot (self : Lvacfs) (in_ : StreamInPrimary)
    (w : World M) :
  ready self →
  (heap w !! lvacfs_handle in_ = Some 0 →
   ∃ ret w',
     stopInputStream self in_ w = Done (set_lvacfs_handle 0 in_, w') ∧
     trace w' =
       trace w ++
       CallDestroyInstance (lvacfs_handle in_) (Some 0) ret
       :: log_failure "destroy instance failed: %d" ret
       ++ [Free (lvacfs_handle in_)] ∧
     heap w' = released (lvacfs_handle in_) (heap w)) ∧
  (∃ in' w' evs,
     startInputStream self in_ w = Done (in', w') ∧
     trace w' = trace w ++ evs ∧
     ∀ h slot source rate channels ret,
       In (CallCreateInstance h slot source rate channels ret) evs →
       ret < 0 →
       slot = Some 0 ∧
       (∃ ret',
          In (CallDestroyInstance h
                (Some (create_reply self in_ h w).1.2) ret') evs) ∧
       (∀ h' slot' ret',
          In (CallDestroyInstance h' slot' ret') evs →
          h' = h ∧ slot' = Some (create_reply self in_ h w).1.2) ∧
       heap w' = heap w).
Proof.
  intros Hready. pose proof Hready as [_ Hc]. split.
  - intros Hslot.
    rewrite stopInputStream_spec; [|apply Hc|right; rewrite Hslot; eauto].
    rewrite Hslot. eexists _, _. split; [reflexivity|]. simpl. auto.
  - destruct (calloc_cases w) as [Hz | (a & Ha & Hf & Hcal)].
    + rewrite (startInputStream_no_memory _ _ _ Hz).
      eexists _, _, _. split; [reflexivity|]. split.
      { world_simpl. reflexivity. }
      intros h slot source rate channels ret Hin. simpl in Hin.
      pick_event Hin.
    + destruct (create_reply self in_ a w) as [[ret slot] m] eqn:Hr.
      destruct (Z.lt_ge_cases ret 0) as [Hneg | Hpos].
      * erewrite startInputStream_rejected; eauto.
        eexists _, _, _. split; [reflexivity|]. split; [reflexivity|].
        intros h sl source rate channels r Hin _. simpl in Hin.
        destruct Hin as [Hin | [Hin | [Hin | Hin]]]; try discriminate.
        2:{ destruct Hin as [Hin | [Hin | Hin]]; try discriminate.
            apply in_app_or in Hin as [Hin | Hin].
            - unfold log_failure in Hin.
              destruct (_ <? 0); simpl in Hin; pick_event Hin.
            - simpl in Hin. pick_event Hin. }
        injection Hin as <- <- _ _ _ _. rewrite Hr. simpl.
        split; [reflexivity|]. split; [eexists; eauto 10|].
        split; [|reflexivity].
        intros h' slot' ret' Hin.
        destruct Hin as [Hin | [Hin | [Hin | [Hin | Hin]]]];
          try discriminate.
        destruct Hin as [Hin | Hin].
        { injection Hin as <- <- _. auto. }
        apply in_app_or in Hin as [Hin | Hin].
        -- unfold log_failure in Hin.
           destruct (_ <? 0); simpl in Hin; pick_event Hin.
        -- simpl in Hin. pick_event Hin.
      * erewrite startInputStream_created; eauto.
        eexists _, _, _. split; [reflexivity|]. split; [reflexivity|].
        intros h sl source rate channels r Hin Hneg. simpl in Hin.
        destruct Hin as [Hin | [Hin | [Hin | Hin]]]; try discriminate;
          [|destruct Hin].
        injection Hin as _ _ _ _ _ <-. lia.
Qed.

(** ** The frame count passed to process *)

Lemma frames_of_inv (in_ : StreamInPrimary) (bytes n : Z) :
  frames_of in_ bytes = Done n →
  channel_count_of in_ * bytes_per_sample_of in_ ≠ 0 ∧
  n = to_uint32
        (bytes / (channel_count_of in_ * bytes_per_sample_of in_)).
Proof.
  pose proof (channel_count_range (channel_mask (config_ in_))) as Rc.
  pose proof (bytes_per_sample_range (format (config_ in_))) as Rb.
  intros Hn.
  destruct (Z.eq_dec (channel_count_of in_) 0)
    as [Hz | Hnz].
  { unfold frames_of in Hn. rewrite Hz in Hn. rewrite to_int_small in Hn by lia.
    rewrite frame_count_zero_divisor in Hn by auto. discriminate. }
  destruct (Z.eq_dec (bytes_per_sample_of in_) 0) as [Hz | Hnz'].
  { unfold frames_of in Hn. rewrite Hz in Hn.
    rewrite frame_count_zero_divisor in Hn by auto. discriminate. }
  rewrite frames_of_value in Hn by lia.
  split; [nia | congruence].
Qed.

(** C4, as the code has it.  The frame count [processInputStream] passes to
    process is [bytes / (c * w)] cut to 32 bits, [c] being the stream's
    channel count and [w] its bytes per sample: it equals [bytes / (c * w)]
    whenever that quotient is below [2 ^ 32], in particular whenever
    [bytes] is, and then, [bytes] being an exact multiple of [c * w], times
    [c * w] it gives [bytes] back.  The call is made with that count
    whenever [c] and [w] are at least 1.  A 3200-byte buffer with [c = 2],
    [w = 2] gives 800 frames, a 320-byte buffer with [c = 1], [w = 2]
    gives 160. *)
Theorem frame_count_passed (self : Lvacfs) (in_ : StreamInPrimary)
    (buffer : Z) (bytes : Z) (w : World M) :
  (∀ in' w' evs h slot input output n status ret,
     processInputStream self in_ buffer bytes w = Done (in', w') →
     trace w' = trace w ++ evs →
     In (CallProcess h slot input output n status ret) evs →
     n = to_uint32
           (bytes / (channel_count_of in_ * bytes_per_sample_of in_)) ∧
     (0 ≤ bytes / (channel_count_of in_ * bytes_per_sample_of in_)
        < 2 ^ 32 →
      n = bytes / (channel_count_of in_ * bytes_per_sample_of in_) ∧
      ((channel_count_of in_ * bytes_per_sample_of in_ | bytes) →
       n * (channel_count_of in_ * bytes_per_sample_of in_) = bytes)) ∧
     (0 ≤ bytes < 2 ^ 32 →
      n = bytes / (channel_count_of in_ * bytes_per_sample_of in_))) ∧
  (ready self →
   lvacfs_lock in_ = false →
   handle_ok in_ w →
   1 ≤ channel_count_of in_ →
   1 ≤ bytes_per_sample_of in_ →
   ∃ in' w' evs ret,
     processInputStream self in_ buffer bytes w = Done (in', w') ∧
     trace w' = trace w ++ evs ∧
     In (CallProcess (lvacfs_handle in_) (heap w !! lvacfs_handle in_)
           buffer buffer
           (to_uint32
              (bytes / (channel_count_of in_ * bytes_per_sample_of in_)))
           status_buffer ret) evs) ∧
  frame_count 3200 2 2 = Done 800 ∧
  frame_count 320 1 2 = Done 160.
Proof.
  split; [|split; [|split]].
  - intros in' w' evs h slot input output n status ret Hd Ht Hin.
    destruct (processInputStream_inv _ _ _ _ _ _ Hd)
      as (Hl & Hp & n0 & Hn & Hfail).
    destruct (frames_of_inv _ _ _ Hn) as [Hdiv Hn0].
    assert (Hnn : n = n0).
    { destruct (process_reply in_ buffer n0 w) as [r m] eqn:Hr.
      simpl in Hfail.
      destruct (Z.lt_ge_cases r 0) as [Hneg | Hpos].
      - destruct (Hfail Hneg) as [Hdc Hok].
        erewrite processInputStream_failed in Hd; eauto.
        injection Hd as _ <-. simpl in Ht.
        apply app_inv_head in Ht. subst evs. simpl in Hin.
        destruct Hin as [Hin | [Hin | [Hin | Hin]]]; try discriminate.
        { injection Hin as _ _ _ _ <- _ _. reflexivity. }
        destruct Hin as [Hin | Hin]; try discriminate.
        apply in_app_or in Hin as [Hin | Hin].
        + unfold log_failure in Hin.
          destruct (_ <? 0); simpl in Hin; pick_event Hin.
        + simpl in Hin. pick_event Hin.
      - erewrite processInputStream_ok in Hd; eauto.
        injection Hd as _ <-. simpl in Ht.
        apply app_inv_head in Ht. subst evs. simpl in Hin.
        destruct Hin as [Hin | [Hin | [Hin | Hin]]]; try discriminate;
          [|destruct Hin].
        injection Hin as _ _ _ _ <- _ _. reflexivity. }
    rewrite <- Hnn in Hn0. split; [exact Hn0|].
    assert (Hv : 0 ≤ bytes / (channel_count_of in_ * bytes_per_sample_of in_)
                 < 2 ^ 32 →
                 n = bytes / (channel_count_of in_ * bytes_per_sample_of in_)).
    { intros Hq. rewrite Hn0. unfold to_uint32. apply Z.mod_small. lia. }
    split.
    + intros Hq. split; [exact (Hv Hq)|]. intros [k Hk].
      rewrite (Hv Hq), Hk. rewrite Z.div_mul by exact Hdiv. reflexivity.
    + intros Hb. apply Hv.
      pose proof (channel_count_range (channel_mask (config_ in_))) as Rc.
      pose proof (bytes_per_sample_range (format (config_ in_))) as Rb.
      split; [apply Z.div_pos; nia|].
      apply Z.div_lt_upper_bound; nia.
  - intros Hready Hl Hok H1 H2. pose proof Hready as [_ Hc].
    pose proof (frames_of_value in_ bytes H1 H2) as Hn.
    destruct (process_reply in_ buffer
                (to_uint32
                   (bytes
                    / (channel_count_of in_ * bytes_per_sample_of in_))) w)
      as [ret m] eqn:Hr.
    destruct (Z.lt_ge_cases ret 0) as [Hneg | Hpos].
    + erewrite processInputStream_failed; eauto.
      eexists _, _, _, ret. split; [reflexivity|]. split; [reflexivity|].
      simpl. auto.
    + erewrite processInputStream_ok; eauto.
      eexists _, _, _, ret. split; [reflexivity|]. split; [reflexivity|].
      simpl. auto.
  - rewrite frame_count_value; [reflexivity | lia | lia |].
    destruct size_bits_cases as [-> | ->]; lia.
  - rewrite frame_count_value; [reflexivity | lia | lia |].
    destruct size_bits_cases as [-> | ->]; lia.
Qed.

(** ** The division *)

(** C10. Line 122 divides without testing the divisor.  The division is
    defined exactly when the channel count and the bytes per sample of the
    stream are both at least 1: if either is zero the call stops at the
    division (nothing guards it), and if both are at least 1 it never
    does. *)
Theorem division_defined_iff (self : Lvacfs) (in_ : StreamInPrimary)
    (buffer : Z) (bytes : Z) (w : World M) :
  (frames_of in_ bytes = Fault DivisionByZero ↔
   channel_count_of in_ = 0 ∨ bytes_per_sample_of in_ = 0) ∧
  ((∃ n, frames_of in_ bytes = Done n) ↔
   1 ≤ channel_count_of in_ ∧ 1 ≤ bytes_per_sample_of in_) ∧
  (lvacfs_lock in_ = false →
   channel_count_of in_ = 0 ∨ bytes_per_sample_of in_ = 0 →
   processInputStream self in_ buffer bytes w = Fault DivisionByZero) ∧
  (1 ≤ channel_count_of in_ →
   1 ≤ bytes_per_sample_of in_ →
   processInputStream self in_ buffer bytes w ≠ Fault DivisionByZero).
Proof.
  pose proof (channel_count_range (channel_mask (config_ in_))) as Rc.
  pose proof (bytes_per_sample_range (format (config_ in_))) as Rb.
  assert (Hzero : channel_count_of in_ = 0 ∨ bytes_per_sample_of in_ = 0 →
                  frames_of in_ bytes = Fault DivisionByZero).
  { intros Hz. unfold frames_of. apply frame_count_zero_divisor.
    destruct Hz as [Hz | Hz]; [left | right; exact Hz].
    rewrite Hz. reflexivity. }
  split; [|split; [|split]].
  - split; [|exact Hzero]. intros Hf.
    destruct (Z.eq_dec (channel_count_of in_) 0)
      as [Hz | Hnz]; [auto|].
    destruct (Z.eq_dec (bytes_per_sample_of in_) 0)
      as [Hz | Hnz']; [auto|].
    rewrite frames_of_value in Hf by lia. discriminate.
  - split.
    + intros [n Hn]. apply frames_of_inv in Hn as [Hdiv _]. nia.
    + intros [H1 H2]. rewrite frames_of_value by assumption. eauto.
  - intros Hl Hz. apply Hzero in Hz.
    unfold processInputStream, lock. rewrite Hl. simpl.
    unfold frames_of in Hz. rewrite Hz. reflexivity.
  - intros H1 H2 Hf.
    pose proof (frames_of_value in_ bytes H1 H2) as Hn.
    revert Hf. unfold processInputStream, lock.
    destruct (lvacfs_lock in_); [discriminate|]. simpl.
    unfold frames_of in Hn. rewrite Hn. simpl.
    unfold call_process, resolve.
    destruct (wrapper_ops_ self) as [ops|] eqn:Hops; [|discriminate].
    destruct (entry_point Process ops =? 0); [discriminate|]. simpl.
    destruct (lib_process lib _ _ _ _ _ _ _) as [ret m]. simpl.
    destruct (ret <? 0); [|discriminate].
    unfold stopInputStream, call_destroy_instance, resolve. rewrite Hops.
    destruct (entry_point DestroyInstance ops =? 0); [discriminate|]. simpl.
    destruct (lib_destroy_instance lib _ _ _) as [ret' m']. simpl.
    unfold free.
    destruct (_ =? 0); [destruct (ret' <? 0); discriminate|].
    destruct (ret' <? 0); simpl;
      destruct (heap w !! lvacfs_handle in_); discriminate.
Qed.

(** ** The mutex *)

(** What one step does to the thread that takes it and to its stream: it
    takes a free mutex, or gives the mutex back, or moves on inside the
    critical section without touching the mutex. *)
Lemma thread_step_cases (self : Lvacfs) (tid : nat) (c c' : config) :
  thread_step self tid c = Some c' →
  ∃ th in_ p' in' w',
    threads c !! tid = Some th ∧
    streams c !! t_stream th = Some in_ ∧
    c' = advance tid th p' in' w' c ∧
    ((t_pc th = AtEntry ∧ lvacfs_lock in_ = false ∧ p' = Locked ∧
      lvacfs_lock in' = true) ∨
     (t_pc th = Leaving ∧ p' = Finished ∧ lvacfs_lock in' = false) ∨
     (holds_lock (t_pc th) = true ∧ holds_lock p' = true ∧
      lvacfs_lock in' = lvacfs_lock in_)).
Proof.
  unfold thread_step.
  destruct (threads c !! tid) as [th|] eqn:Hth; [|discriminate]. simpl.
  destruct (streams c !! t_stream th) as [in_|] eqn:Hin; [|discriminate].
  simpl. intros Hs. exists th, in_.
  destruct (t_pc th) eqn:Hpc.
  - unfold lock in Hs. destruct (lvacfs_lock in_) eqn:Hl; [discriminate|].
    injection Hs as <-. eexists _, _, _.
    split; [reflexivity|]. split; [exact Hin|]. split; [reflexivity|].
    left. auto.
  - destruct (_ ≫= _) as [n|f]; injection Hs as <-; eexists _, _, _;
      (split; [reflexivity|]); (split; [exact Hin|]);
      (split; [reflexivity|]); right; right; auto.
  - destruct (call_process _ _ _ _ _ _ _) as [[ret w1]|f];
      injection Hs as <-; eexists _, _, _;
      (split; [reflexivity|]); (split; [exact Hin|]);
      (split; [reflexivity|]); right; right; auto.
  - destruct (ret <? 0).
    + destruct (stopInputStream _ _ _) as [[in1 w1]|f] eqn:Hstop;
        injection Hs as <-; eexists _, _, _;
        (split; [reflexivity|]); (split; [exact Hin|]);
        (split; [reflexivity|]); right; right.
      * split; [reflexivity|]. split; [reflexivity|].
        eapply stopInputStream_lock, Hstop.
      * auto.
    + injection Hs as <-. eexists _, _, _.
      split; [reflexivity|]. split; [exact Hin|]. split; [reflexivity|].
      right. right. auto.
  - injection Hs as <-. eexists _, _, _.
    split; [reflexivity|]. split; [exact Hin|]. split; [reflexivity|].
    right. left. auto.
  - discriminate.
  - discriminate.
Qed.

Lemma lock_inv_initial (c : config) : initial c → lock_inv c.
Proof.
  intros [Hpc Hfree]. split; [|split].
  - intros tid th Hth Hh. rewrite (Hpc _ _ Hth) in Hh. discriminate.
  - intros t1 t2 th1 th2 H1 _ _ Hh. rewrite (Hpc _ _ H1) in Hh.
    discriminate.
  - intros s in_ Hs Hl. rewrite (Hfree _ _ Hs) in Hl. discriminate.
Qed.

Lemma lock_inv_step (self : Lvacfs) (tid : nat) (c c' : config) :
  lock_inv c → thread_step self tid c = Some c' → lock_inv c'.
Proof.
  intros (I1 & I2 & I3) Hstep.
  apply thread_step_cases in Hstep
    as (th & in_ & p' & in' & w' & Hth & Hin & -> & Hcase).
  unfold advance. split; [|split]; simpl.
  - intros tid' th'' Hl Hh.
    destruct (decide (tid' = tid)) as [-> | Hne].
    + rewrite lookup_insert_eq in Hl. injection Hl as <-. simpl in *.
      rewrite lookup_insert_eq. exists in'. split; [reflexivity|].
      destruct Hcase as [(_ & _ & _ & Hl') |
                         [(_ & -> & _) | (Hh0 & _ & Hl')]].
      * exact Hl'.
      * discriminate.
      * rewrite Hl'. destruct (I1 _ _ Hth Hh0) as (in0 & Hin0 & Hl0).
        congruence.
    + rewrite lookup_insert_ne in Hl by congruence.
      destruct (I1 _ _ Hl Hh) as (in0 & Hin0 & Hl0).
      destruct (decide (t_stream th'' = t_stream th)) as [Hs | Hs].
      * rewrite Hs in *. rewrite lookup_insert_eq.
        exists in'. split; [reflexivity|].
        assert (in0 = in_) by congruence. subst in0.
        destruct Hcase as [(_ & Hf & _ & _) |
                           [(Hpc & _ & _) | (_ & _ & Hl')]].
        -- congruence.
        -- exfalso. apply Hne. symmetry.
           apply (I2 tid tid' th th'' Hth Hl); [congruence| |exact Hh].
           rewrite Hpc. reflexivity.
        -- congruence.
      * rewrite lookup_insert_ne by congruence. eauto.
  - intros t1 t2 th1 th2 H1 H2 Hs Hh1 Hh2.
    destruct (decide (t1 = tid)) as [-> | Hn1];
      destruct (decide (t2 = tid)) as [-> | Hn2]; [reflexivity | | |].
    + rewrite lookup_insert_eq in H1. injection H1 as <-. simpl in *.
      rewrite lookup_insert_ne in H2 by congruence.
      destruct Hcase as [(_ & Hf & _ & _) |
                         [(_ & -> & _) | (Hh0 & _ & _)]].
      * destruct (I1 _ _ H2 Hh2) as (in0 & Hin0 & Hl0).
        rewrite <- Hs in Hin0. congruence.
      * discriminate.
      * apply (I2 tid t2 th th2); assumption.
    + rewrite lookup_insert_eq in H2. injection H2 as <-. simpl in *.
      rewrite lookup_insert_ne in H1 by congruence.
      destruct Hcase as [(_ & Hf & _ & _) |
                         [(_ & -> & _) | (Hh0 & _ & _)]].
      * destruct (I1 _ _ H1 Hh1) as (in0 & Hin0 & Hl0).
        rewrite Hs in Hin0. congruence.
      * discriminate.
      * apply (I2 t1 tid th1 th); assumption.
    + rewrite lookup_insert_ne in H1 by congruence.
      rewrite lookup_insert_ne in H2 by congruence.
      apply (I2 t1 t2 th1 th2); assumption.
  - intros s in0 Hs Hl.
    destruct (decide (s = t_stream th)) as [-> | Hne].
    + rewrite lookup_insert_eq in Hs. injection Hs as <-.
      exists tid. eexists. rewrite lookup_insert_eq.
      split; [reflexivity|]. split; [reflexivity|]. simpl.
      destruct Hcase as [(_ & _ & -> & _) |
                         [(_ & _ & Hf) | (_ & Hh & _)]].
      * reflexivity.
      * congruence.
      * exact Hh.
    + rewrite lookup_insert_ne in Hs by congruence.
      destruct (I3 _ _ Hs Hl) as (t0 & th0 & Ht0 & Hs0 & Hh0).
      exists t0, th0. split; [|auto].
      rewrite lookup_insert_ne; [exact Ht0|].
      intros ->. assert (th0 = th) by congruence. subst th0. congruence.
Qed.

Lemma lock_inv_reachable (self : Lvacfs) (c0 c : config) :
  initial c0 → reachable self c0 c → lock_inv c.
Proof.
  intros Hi Hr. induction Hr as [|c tid c' _ IH Hstep].
  - apply lock_inv_initial, Hi.
  - eapply lock_inv_step; eassumption.
Qed.

(** ** One thread alone is the function *)




Section Steps.

Variable self : Lvacfs.
Variable c : config.
Variable tid : nat.
Variable th : thread.
Variable in_ : StreamInPrimary.
Hypothesis Hth : threads c !! tid = Some th.
Hypothesis Hin : streams c !! t_stream th = Some in_.







End Steps.



(** ** Waiting *)

Lemma thread_step_blocked (self : Lvacfs) (c : config) (tid : nat)
    (th : thread) (in_ : StreamInPrimary) :
  threads c !! tid = Some th →
  streams c !! t_stream th = Some in_ →
  running (t_pc th) = true →
  (thread_step self tid c = None ↔
   t_pc th = AtEntry ∧ lvacfs_lock in_ = true).
Proof.
  intros Hth Hin Hrun. unfold thread_step. rewrite Hth. simpl.
  rewrite Hin. simpl.
  destruct (t_pc th) eqn:Hpc; try discriminate.
  - unfold lock. destruct (lvacfs_lock in_); simpl; split; auto.
    + intros H. discriminate.
    + intros [_ H]. discriminate.
  - destruct (_ ≫= _); split; try discriminate; intros [H _]; discriminate.
  - destruct (call_process _ _ _ _ _ _ _) as [[ret w1]|f];
      split; try discriminate; intros [H _]; discriminate.
  - destruct (ret <? 0);
      [destruct (stopInputStream _ _ _) as [[in1 w1]|f]|];
      split; try discriminate; intros [H _]; discriminate.
  - split; try discriminate; intros [H _]; discriminate.
Qed.



(** * The loader over the life of the Engine *)

(** ** The complete trace of [init] *)

Lemma load_symbols_lookups (ops : lvacfs_wrapper_ops) (w : World M) :
  trace (load_symbols (ops, w)).2.2
  = trace w ++ lookups (lib_handle ops) all_capabilities.
Proof.
  unfold load_symbols, or_else, load_sym, do_dlsym. simpl.
  repeat next_symbol; world_simpl; reflexivity.
Qed.

Lemma open_library_attempts (ops : lvacfs_wrapper_ops) (w : World M) :
  trace (open_library ops w).2 = trace w ++ open_attempts.
Proof.
  unfold open_attempts.
  destruct (Z.eq_dec (dlopen (ODM_LIB_PATH LP64)) 0) as [Hz | Hnz].
  - rewrite (open_library_vendor ops w Hz). rewrite Hz. simpl.
    destruct (dlopen (VENDOR_LIB_PATH LP64) =? 0); world_simpl; reflexivity.
  - rewrite (open_library_odm ops w Hnz).
    apply Z.eqb_neq in Hnz. rewrite Hnz. world_simpl. reflexivity.
Qed.

Lemma init_trace_eq (self : Lvacfs) (w : World M) :
  trace (init self w).2 = trace w ++ init_events.
Proof.
  unfold init, init_events. destruct find_params_dir as [path|];
    [|reflexivity].
  pose proof (open_library_handle zeroed_ops w) as Hh.
  pose proof (open_library_attempts zeroed_ops w) as Ho.
  destruct (open_library zeroed_ops w) as [ops w1]. simpl in Hh, Ho.
  rewrite Hh. destruct (opened_handle =? 0) eqn:Hz.
  { simpl. rewrite Ho, <- app_assoc. reflexivity. }
  pose proof (load_symbols_failed ops w1) as F1.
  pose proof (load_symbols_handle ops w1) as F2.
  pose proof (load_symbols_lookups ops w1) as F3.
  destruct (load_symbols (ops, w1)) as [failed [ops2 w2]]. simpl in *.
  rewrite F1, Hh. rewrite Hh in F3.
  destruct (some_symbol_missing opened_handle).
  - unfold deinit, do_dlclose. simpl. rewrite F2, Hh, Hz. simpl.
    world_simpl. rewrite F3, Ho. rewrite <- !app_assoc. reflexivity.
  - simpl. rewrite F3, Ho. rewrite <- !app_assoc. reflexivity.
Qed.

Lemma lookups_are_dlsym (h : Z) (cs : list capability) e :
  In e (lookups h cs) →
  ∃ c, e = Dlsym h (symbol_name c) (dlsym h (symbol_name c)).
Proof.
  induction cs as [|c cs IH]; simpl; [intros []|].
  intros [<- | Hin]; [eauto|].
  destruct (dlsym h (symbol_name c) =? 0); [destruct Hin | auto].
Qed.

Lemma open_attempts_are_dlopen e :
  In e open_attempts → ∃ path r, e = Dlopen path r.
Proof.
  unfold open_attempts. intros [<- | Hin]; [eauto|].
  destruct (dlopen (ODM_LIB_PATH LP64) =? 0); simpl in Hin;
    [destruct Hin as [<- | []]; eauto | destruct Hin].
Qed.

Lemma paths_differ : ODM_LIB_PATH LP64 ≠ VENDOR_LIB_PATH LP64.
Proof. destruct LP64; discriminate. Qed.

(** The events of [lookups] through a list of entry points all of which
    resolve, and through one whose last entry point is the first missing. *)
Lemma lookups_all_present (h : Z) (cs : list capability) :
  Forall (λ c, dlsym h (symbol_name c) ≠ 0) cs →
  lookups h cs
  = map (λ c, Dlsym h (symbol_name c) (dlsym h (symbol_name c))) cs.
Proof.
  induction 1 as [|c cs Hc _ IH]; simpl; [reflexivity|].
  apply Z.eqb_neq in Hc. rewrite Hc, IH. reflexivity.
Qed.

Lemma lookups_first_missing (h : Z) (pre post : list capability) c :
  Forall (λ c, dlsym h (symbol_name c) ≠ 0) pre →
  dlsym h (symbol_name c) = 0 →
  lookups h (pre ++ c :: post)
  = map (λ c, Dlsym h (symbol_name c) (dlsym h (symbol_name c))) pre
    ++ [Dlsym h (symbol_name c) 0].
Proof.
  intros Hpre Hc. induction Hpre as [|c0 pre Hc0 _ IH]; simpl.
  - rewrite Hc. reflexivity.
  - apply Z.eqb_neq in Hc0. rewrite Hc0, IH. reflexivity.
Qed.

(** X3. What [init] does depends on the platform alone, not on the Engine it
    is called on: the ODM [dlopen], the vendor [dlopen] when the first
    returned null, then one [dlsym] per entry point in the order of lines
    63-83, stopping at the first that returns null, then the log line,
    with the [dlclose] before it when a symbol was missing.  A symbol is
    looked up only when every symbol before it resolved. *)
Theorem init_calls_in_order (self : Lvacfs) (w : World M) :
  trace (init self w).2 = trace w ++ init_events ∧
  (find_params_dir ≠ None → opened_handle ≠ 0 →
   ∃ last,
     init_events
     = open_attempts ++ lookups opened_handle all_capabilities ++ last ∧
     ∀ e, In e last → ∀ h symbol r, e ≠ Dlsym h symbol r) ∧
  (∀ pre c post,
     all_capabilities = pre ++ c :: post →
     Forall (λ c, dlsym opened_handle (symbol_name c) ≠ 0) pre →
     dlsym opened_handle (symbol_name c) = 0 →
     lookups opened_handle all_capabilities
     = map (λ c, Dlsym opened_handle (symbol_name c)
                   (dlsym opened_handle (symbol_name c))) pre
       ++ [Dlsym opened_handle (symbol_name c) 0]) ∧
  ((∀ c, dlsym opened_handle (symbol_name c) ≠ 0) →
   lookups opened_handle all_capabilities
   = map (λ c, Dlsym opened_handle (symbol_name c)
                 (dlsym opened_handle (symbol_name c))) all_capabilities).
Proof.
  split; [apply init_trace_eq|]. split; [|split].
  - intros Hp Hh. unfold init_events.
    destruct find_params_dir; [|contradiction].
    apply Z.eqb_neq in Hh. rewrite Hh.
    destruct (some_symbol_missing opened_handle).
    + eexists. split; [reflexivity|].
      intros e Hin h symbol r. simpl in Hin.
      repeat (destruct Hin as [<- | Hin]; [discriminate|]). destruct Hin.
    + eexists. split; [reflexivity|].
      intros e Hin h symbol r. simpl in Hin.
      repeat (destruct Hin as [<- | Hin]; [discriminate|]). destruct Hin.
  - intros pre c post -> Hpre Hc. apply lookups_first_missing; assumption.
  - intros Hall. apply lookups_all_present.
    apply Forall_forall. intros c _. apply Hall.
Qed.

(** X4. When the ODM library opens but lacks a symbol, [init] gives up: it
    does not fall back to the vendor library, whether or not that one is
    complete.  The Engine is inert and the ODM library is closed again. *)
Theorem incomplete_odm_library_is_final (self : Lvacfs) (w : World M) path :
  find_params_dir = Some path →
  dlopen (ODM_LIB_PATH LP64) ≠ 0 →
  some_symbol_missing (dlopen (ODM_LIB_PATH LP64)) = true →
  (init self w).1 = mk_Lvacfs (Some path) None ∧
  inert (init self w).1 ∧
  loaded (init self w).2 = loaded w ∧
  ∃ evs,
    trace (init self w).2 = trace w ++ evs ∧
    (∀ r, ¬ In (Dlopen (VENDOR_LIB_PATH LP64) r) evs) ∧
    In (Dlclose (dlopen (ODM_LIB_PATH LP64))) evs.
Proof.
  intros Hp Hodm Hm.
  assert (Ho : opened_handle = dlopen (ODM_LIB_PATH LP64)).
  { unfold opened_handle. apply Z.eqb_neq in Hodm. rewrite Hodm.
    reflexivity. }
  assert (Hnz : opened_handle ≠ 0) by congruence.
  rewrite <- Ho in Hm.
  destruct (init_symbol_missing self w path Hp Hnz Hm) as (E & _ & _ & Hl).
  split; [exact E|]. split; [rewrite E; apply inert_no_table|].
  split; [exact Hl|].
  exists init_events. split; [apply init_trace_eq|].
  unfold init_events. rewrite Hp.
  pose proof Hnz as Hnz'. apply Z.eqb_neq in Hnz'. rewrite Hnz', Hm.
  unfold open_attempts. pose proof Hodm as Hodm'.
  apply Z.eqb_neq in Hodm'. rewrite Hodm'. split.
  - intros r Hin. apply in_app_or in Hin as [[E1 | []] | Hin].
    { injection E1 as E1 _. apply paths_differ. exact E1. }
    apply in_app_or in Hin as [Hin | Hin].
    + apply lookups_are_dlsym in Hin as (c & Hc). discriminate.
    + simpl in Hin. pick_event Hin.
  - rewrite <- Ho. apply in_or_app. right. apply in_or_app. right.
    simpl. auto.
Qed.

(** X5. The log of [init] tells how it went: the success line is written
    exactly when [init] succeeded, an error line exactly when it did not,
    and never more than one error line. *)
Theorem init_log_tells_outcome (self : Lvacfs) (w : World M) :
  ∃ evs,
    trace (init self w).2 = trace w ++ evs ∧
    (In (ALOGI "LVACFS initialized successfully") evs ↔ init_succeeds) ∧
    ((∃ e, In e evs ∧ is_error e = true) ↔ ¬ init_succeeds) ∧
    (length (List.filter is_error evs) ≤ 1)%nat.
Proof.
  exists init_events. split; [apply init_trace_eq|].
  assert (Hlk : ∀ h cs, List.filter is_error (lookups h cs) = []).
  { intros h cs. induction cs as [|c cs IH]; simpl; [reflexivity|].
    destruct (dlsym h (symbol_name c) =? 0); [reflexivity | exact IH]. }
  assert (Hop : List.filter is_error open_attempts = []).
  { unfold open_attempts.
    destruct (dlopen (ODM_LIB_PATH LP64) =? 0); reflexivity. }
  assert (Hin_lk : ∀ e h cs, In e (lookups h cs) → is_error e = false
                              ∧ e ≠ ALOGI "LVACFS initialized successfully").
  { intros e h cs Hin. apply lookups_are_dlsym in Hin as (c & ->).
    split; [reflexivity | discriminate]. }
  assert (Hin_op : ∀ e, In e open_attempts → is_error e = false
                        ∧ e ≠ ALOGI "LVACFS initialized successfully").
  { intros e Hin. apply open_attempts_are_dlopen in Hin as (p & r & ->).
    split; [reflexivity | discriminate]. }
  unfold init_events, init_succeeds.
  destruct find_params_dir as [path|] eqn:Hp.
  2:{ split; [|split].
      - split; [intros [E | []]; discriminate | intros (Hn & _); congruence].
      - split; [intros _ (Hn & _); congruence|].
        intros _. exists (ALOGE "No params directory found" []).
        split; [left; reflexivity | reflexivity].
      - simpl. lia. }
  destruct (opened_handle =? 0) eqn:Hz.
  { apply Z.eqb_eq in Hz. split; [|split].
    - split; [|intros (_ & Hn & _); contradiction].
      intros Hin. apply in_app_or in Hin as [Hin | Hin].
      + apply Hin_op in Hin as [_ Hne]. contradiction.
      + simpl in Hin. pick_event Hin.
    - split; [intros _ (_ & Hn & _); contradiction|].
      intros _. exists (ALOGE "dlopen failed for %s and %s: %s" []).
      split; [|reflexivity].
      apply in_or_app. right. left. reflexivity.
    - rewrite List.filter_app, Hop. simpl. lia. }
  apply Z.eqb_neq in Hz.
  destruct (some_symbol_missing opened_handle) eqn:Hm.
  - assert (Hns : ¬ ∀ c, dlsym opened_handle (symbol_name c) ≠ 0).
    { intros Hall. apply some_symbol_missing_false in Hall. congruence. }
    split; [|split].
    + split; [|intros (_ & _ & Hall); contradiction].
      intros Hin. apply in_app_or in Hin as [Hin | Hin].
      { apply Hin_op in Hin as [_ Hne]. contradiction. }
      apply in_app_or in Hin as [Hin | Hin].
      { apply Hin_lk in Hin as [_ Hne]. contradiction. }
      simpl in Hin. pick_event Hin.
    + split; [intros _ (_ & _ & Hall); contradiction|].
      intros _. exists (ALOGE "Failed to load one or more symbols: %s" []).
      split; [|reflexivity].
      apply in_or_app. right. apply in_or_app. right. left. reflexivity.
    + rewrite !List.filter_app, Hop, Hlk. simpl. lia.
  - pose proof (proj1 (some_symbol_missing_false _) Hm) as Hall.
    split; [|split].
    + split; [|intros _; apply in_or_app; right; apply in_or_app; right;
                left; reflexivity].
      intros _. split; [discriminate | split; assumption].
    + split.
      * intros (e & Hin & He). exfalso.
        apply in_app_or in Hin as [Hin | Hin].
        { apply Hin_op in Hin as [Hf _]. congruence. }
        apply in_app_or in Hin as [Hin | Hin].
        { apply Hin_lk in Hin as [Hf _]. congruence. }
        simpl in Hin. destruct Hin as [<- | []]. discriminate.
      * intros Hn. exfalso. apply Hn.
        split; [discriminate | split; assumption].
    + rewrite !List.filter_app, Hop, Hlk. simpl. lia.
Qed.

(** X6. [init] closes only what it opened itself, and only when a symbol
    was missing.  A library the Engine already held is neither closed nor
    remembered: line 48 replaces the table, a plain record of pointers,
    and with it the only copy of the old handle.  So [init] on an Engine
    that holds a library, followed by [deinit], leaves that library open
    on an inert Engine. *)
Theorem init_closes_only_what_it_opened (self : Lvacfs) (w : World M) :
  (∃ evs,
     trace (init self w).2 = trace w ++ evs ∧
     ∀ h, In (Dlclose h) evs →
          h = opened_handle ∧ h ≠ 0 ∧
          some_symbol_missing opened_handle = true) ∧
  (find_params_dir ≠ None → init self w = init Lvacfs_new w) ∧
  (find_params_dir ≠ None →
   inert (deinit (init self w).1 (init self w).2).1 ∧
   loaded (deinit (init self w).1 (init self w).2).2 = loaded w ∧
   (In (module_handle self) (loaded w) →
    In (module_handle self)
      (loaded (deinit (init self w).1 (init self w).2).2))).
Proof.
  split; [|split].
  - exists init_events. split; [apply init_trace_eq|].
    intros h. unfold init_events.
    destruct find_params_dir as [path|];
      [|intros [E | []]; discriminate].
    intros Hin. apply in_app_or in Hin as [Hin | Hin].
    { apply open_attempts_are_dlopen in Hin as (p & r & E). discriminate. }
    destruct (opened_handle =? 0) eqn:Hz;
      [destruct Hin as [E | []]; discriminate|].
    apply Z.eqb_neq in Hz.
    apply in_app_or in Hin as [Hin | Hin].
    { apply lookups_are_dlsym in Hin as (c & E). discriminate. }
    destruct (some_symbol_missing opened_handle); simpl in Hin.
    + destruct Hin as [E | [E | [E | []]]]; try discriminate.
      injection E as <-. auto.
    + destruct Hin as [E | []]. discriminate.
  - intros Hp. unfold init. destruct find_params_dir; [reflexivity|].
    contradiction.
  - intros Hp.
    assert (Hl : loaded (deinit (init self w).1 (init self w).2).2
                 = loaded w).
    { destruct find_params_dir as [path|] eqn:Hpe; [|contradiction].
      destruct (Z.eq_dec opened_handle 0) as [Hz | Hnz].
      - destruct (init_no_library self w path Hpe Hz) as (E & _ & _ & L).
        rewrite E. unfold deinit. simpl. exact L.
      - destruct (some_symbol_missing opened_handle) eqn:Hm.
        + destruct (init_symbol_missing self w path Hpe Hnz Hm)
            as (E & _ & _ & L).
          rewrite E. unfold deinit. simpl. exact L.
        + destruct (init_success self w path Hpe Hnz Hm)
            as (ops & E & Hh & _ & _ & _ & L).
          rewrite E. unfold deinit, do_dlclose. simpl.
          rewrite Hh. apply Z.eqb_neq in Hnz. rewrite Hnz. simpl.
          rewrite L. apply remove_one_head. }
    split; [|split].
    + unfold deinit. simpl. apply inert_no_table.
    + exact Hl.
    + rewrite Hl. tauto.
Qed.

(** X7. On an Engine that holds no library, [init] followed by [deinit]
    closes every library it opened: the set of open libraries, the heap
    and the library's state are as before, and the Engine is inert. *)
Theorem init_deinit_balanced (self : Lvacfs) (w : World M) :
  module_handle self = 0 →
  inert (deinit (init self w).1 (init self w).2).1 ∧
  loaded (deinit (init self w).1 (init self w).2).2 = loaded w ∧
  heap (deinit (init self w).1 (init self w).2).2 = heap w ∧
  lib_state (deinit (init self w).1 (init self w).2).2 = lib_state w ∧
  (init_succeeds →
   loaded (init self w).2 = opened_handle :: loaded w ∧
   ∃ evs,
     trace (deinit (init self w).1 (init self w).2).2
     = trace (init self w).2 ++ evs ∧
     In (Dlclose opened_handle) evs).
Proof.
  intros Hself.
  assert (Hi : inert (deinit (init self w).1 (init self w).2).1).
  { unfold deinit. simpl. apply inert_no_table. }
  assert (Hhl : ∀ s (w1 : World M),
            heap (deinit s w1).2 = heap w1 ∧
            lib_state (deinit s w1).2 = lib_state w1).
  { intros s w1. unfold deinit, do_dlclose.
    destruct (wrapper_ops_ s) as [ops|]; [|auto].
    destruct (negb (lib_handle ops =? 0)); auto. }
  destruct (Hhl (init self w).1 (init self w).2) as [Hh Hs].
  destruct (init_outcome self w)
    as [(Hok & Hr & ops & Hw & Hlh & _) | (Hno & Hst & Hhp & Hls & Hld)].
  - destruct Hok as (Hp & Hnz & Hall).
    destruct find_params_dir as [path|] eqn:Hpe; [|contradiction].
    pose proof (proj2 (some_symbol_missing_false _) Hall) as Hm.
    destruct (init_success self w path Hpe Hnz Hm)
      as (ops' & E & Hh' & _ & Hhp & Hls & L).
    assert (Hd : deinit (init self w).1 (init self w).2
                 = (mk_Lvacfs (Some path) None,
                    emit (ALOGI "LVACFS deinitialized")
                      (do_dlclose opened_handle (init self w).2))).
    { rewrite E. unfold deinit. simpl. rewrite Hh'.
      pose proof Hnz as Hnz'. apply Z.eqb_neq in Hnz'. rewrite Hnz'.
      reflexivity. }
    split; [exact Hi|]. rewrite Hh, Hs. rewrite Hd. simpl.
    rewrite L, remove_one_head.
    split; [reflexivity|]. split; [exact Hhp|]. split; [exact Hls|].
    intros _. split; [reflexivity|].
    eexists. split; [rewrite <- app_assoc; reflexivity|].
    simpl. auto.
  - split; [exact Hi|]. rewrite Hh, Hs.
    assert (Hz : module_handle (init self w).1 = 0).
    { destruct Hst as [-> | [Hz _]]; assumption. }
    assert (Hd : loaded (deinit (init self w).1 (init self w).2).2
                 = loaded (init self w).2).
    { revert Hz. unfold deinit, module_handle.
      destruct (wrapper_ops_ (init self w).1) as [ops|]; [|reflexivity].
      intros ->. reflexivity. }
    rewrite Hd. split; [exact Hld|]. split; [exact Hhp|].
    split; [exact Hls|]. intros Hok. contradiction.
Qed.

(** X8. After [deinit] the Engine can be brought up again: [init] does what it
    does on a new Engine, and the Engine is ready exactly when [init]
    succeeded and inert otherwise. *)
Theorem reinit_after_deinit (self : Lvacfs) (w w1 : World M) :
  (init (deinit self w).1 w1).2 = (init Lvacfs_new w1).2 ∧
  (ready (init (deinit self w).1 w1).1 ↔ init_succeeds) ∧
  (¬ init_succeeds → inert (init (deinit self w).1 w1).1) ∧
  (init_succeeds →
   wrapper_ops_ (init (deinit self w).1 w1).1
   = wrapper_ops_ (init Lvacfs_new w1).1 ∧
   loaded (init (deinit self w).1 w1).2 = opened_handle :: loaded w1).
Proof.
  set (s := (deinit self w).1).
  assert (Hs : inert s) by (unfold s, deinit; simpl; apply inert_no_table).
  split; [|split; [|split]].
  - unfold init. destruct find_params_dir; reflexivity.
  - destruct (init_outcome s w1) as [(Hok & Hr & _) | (Hno & Hst & _)].
    + tauto.
    + split; [|tauto]. intros Hr. exfalso.
      destruct Hst as [E | Hin].
      * rewrite E in Hr. exact (inert_not_ready _ Hs Hr).
      * exact (inert_not_ready _ Hin Hr).
  - intros Hno.
    destruct (init_outcome s w1) as [(Hok & _) | (_ & Hst & _)];
      [contradiction|].
    destruct Hst as [-> | Hin]; assumption.
  - intros (Hp & Hnz & Hall).
    destruct find_params_dir as [path|] eqn:Hpe; [|contradiction].
    pose proof (proj2 (some_symbol_missing_false _) Hall) as Hm.
    destruct (init_success s w1 path Hpe Hnz Hm)
      as (ops & E & _ & _ & _ & _ & L).
    split; [|exact L].
    unfold init. rewrite Hpe. reflexivity.
Qed.

(** X9. When [init] succeeds, each member of the table holds what [dlsym]
    returned for the symbol of its own name, all ten taken from the one
    library that was opened; the ten names are distinct, and each lookup
    is in the trace of [init]. *)
Theorem entry_points_bound_by_name (self : Lvacfs) (w : World M) :
  init_succeeds →
  ∃ ops evs,
    wrapper_ops_ (init self w).1 = Some ops ∧
    trace (init self w).2 = trace w ++ evs ∧
    lib_handle ops = opened_handle ∧
    (∀ c, entry_point c ops = dlsym opened_handle (symbol_name c) ∧
          entry_point c ops ≠ 0 ∧
          In (Dlsym opened_handle (symbol_name c) (entry_point c ops)) evs) ∧
    NoDup (map symbol_name all_capabilities) ∧
    (∀ c, In c all_capabilities).
Proof.
  intros (Hp & Hnz & Hall).
  destruct find_params_dir as [path|] eqn:Hpe; [|contradiction].
  pose proof (proj2 (some_symbol_missing_false _) Hall) as Hm.
  destruct (init_success self w path Hpe Hnz Hm)
    as (ops & E & Hh & Hb & _).
  exists ops, init_events. split; [rewrite E; reflexivity|].
  split; [apply init_trace_eq|]. split; [exact Hh|].
  assert (Hevery : ∀ c, In c all_capabilities)
    by (intros c; destruct c; simpl; tauto).
  split; [|split; [|exact Hevery]].
  - intros c. split; [apply Hb|]. split; [rewrite Hb; apply Hall|].
    unfold init_events. rewrite Hpe.
    apply Z.eqb_neq in Hnz. rewrite Hnz, Hm.
    apply in_or_app. right. apply in_or_app. left.
    rewrite lookups_all_present
      by (apply Forall_forall; intros c' _; apply Hall).
    rewrite Hb. apply in_map_iff. exists c. split; [reflexivity|].
    apply Hevery.
  - apply NoDup_ListNoDup. simpl.
    repeat (constructor;
            [simpl; intros H;
             repeat (destruct H as [H | H]; [discriminate H|]); exact H|]).
    constructor.
Qed.

(** X25. Where [init] looks.  The library is opened from
    [/odm/lib64/liblvacfs_wrapper.so] and then
    [/vendor/lib64/liblvacfs_wrapper.so] when [__LP64__] is defined, from
    [/odm/lib/] and [/vendor/lib/] otherwise, and from nowhere else; the
    directory [init] records is [/odm/etc/lvacfs_params] or
    [/vendor/etc/lvacfs_params], whatever the word size. *)
Theorem library_paths_by_word_size (self : Lvacfs) (w : World M) evs :
  trace (init self w).2 = trace w ++ evs →
  (∀ path r,
     In (Dlopen path r) evs →
     path = (if LP64 then "/odm/lib64/liblvacfs_wrapper.so"
             else "/odm/lib/liblvacfs_wrapper.so") ∨
     path = (if LP64 then "/vendor/lib64/liblvacfs_wrapper.so"
             else "/vendor/lib/liblvacfs_wrapper.so")) ∧
  (find_params_dir ≠ None →
   ∃ r rest,
     evs = Dlopen (if LP64 then "/odm/lib64/liblvacfs_wrapper.so"
                   else "/odm/lib/liblvacfs_wrapper.so") r :: rest ∧
     (r = 0 →
      ∃ r' rest',
        rest = Dlopen (if LP64 then "/vendor/lib64/liblvacfs_wrapper.so"
                       else "/vendor/lib/liblvacfs_wrapper.so") r'
               :: rest')) ∧
  (∀ path,
     find_params_dir = Some path →
     params_file_path_ (init self w).1 = Some path ∧
     (path = "/odm/etc/lvacfs_params" ∨ path = "/vendor/etc/lvacfs_params")).
Proof.
  intros Ht. rewrite init_trace_eq in Ht. apply app_inv_head in Ht.
  subst evs.
  assert (Hodm : ODM_LIB_PATH LP64
                 = (if LP64 then "/odm/lib64/liblvacfs_wrapper.so"
                    else "/odm/lib/liblvacfs_wrapper.so"))
    by (destruct LP64; reflexivity).
  assert (Hven : VENDOR_LIB_PATH LP64
                 = (if LP64 then "/vendor/lib64/liblvacfs_wrapper.so"
                    else "/vendor/lib/liblvacfs_wrapper.so"))
    by (destruct LP64; reflexivity).
  rewrite <- Hodm, <- Hven.
  split; [|split].
  - intros path r. unfold init_events.
    destruct find_params_dir as [p|]; [|intros [E | []]; discriminate].
    intros Hin. apply in_app_or in Hin as [Hin | Hin].
    + unfold open_attempts in Hin. destruct Hin as [E | Hin].
      { injection E as <- _. auto. }
      destruct (dlopen (ODM_LIB_PATH LP64) =? 0); simpl in Hin;
        [|destruct Hin].
      destruct Hin as [E | []]. injection E as <- _. auto.
    + exfalso. destruct (opened_handle =? 0).
      { destruct Hin as [E | []]. discriminate. }
      apply in_app_or in Hin as [Hin | Hin].
      { apply lookups_are_dlsym in Hin as (c & E). discriminate. }
      destruct (some_symbol_missing opened_handle); simpl in Hin;
        pick_event Hin.
  - intros Hp. unfold init_events.
    destruct find_params_dir as [p|]; [|contradiction].
    unfold open_attempts. eexists. eexists. split; [reflexivity|].
    intros Hz. apply Z.eqb_eq in Hz. rewrite Hz. simpl.
    eexists. eexists. reflexivity.
  - intros path Hp. split.
    + unfold init. rewrite Hp.
      destruct (open_library zeroed_ops w) as [ops w1].
      destruct (lib_handle ops =? 0); [reflexivity|].
      destruct (load_symbols (ops, w1)) as [failed [ops2 w2]].
      destruct failed; reflexivity.
    + revert Hp. unfold find_params_dir.
      destruct (access ODM_PARAMS_DIR_PATH); [intros [= <-]; auto|].
      destruct (access VENDOR_PARAMS_DIR_PATH); [|discriminate].
      intros [= <-]. auto.
Qed.

(** * Streams over their life *)

(** ** Start and stop *)

(** X10. [startInputStream] followed by [stopInputStream] gives back what was
    allocated: whether the allocation failed, create-instance was accepted
    or it was rejected, the heap is as before the start, the handle is
    null, and the slot the stream held in between was handed to
    destroy-instance and freed. *)
Theorem start_then_stop_restores_heap (self : Lvacfs)
    (in_ in1 : StreamInPrimary) (w w1 : World M) :
  ready self →
  startInputStream self in_ w = Done (in1, w1) →
  ∃ w2 evs,
    stopInputStream self in1 w1 = Done (set_lvacfs_handle 0 in_, w2) ∧
    heap w2 = heap w ∧
    loaded w2 = loaded w ∧
    trace w2 = trace w1 ++ evs ∧
    (∃ ret, In (CallDestroyInstance (lvacfs_handle in1)
                  (heap w1 !! lvacfs_handle in1) ret) evs) ∧
    In (Free (lvacfs_handle in1)) evs.
Proof.
  intros [_ Hc] Hd.
  assert (Hok : handle_ok in1 w1).
  { apply startInputStream_inv in Hd. apply Hd. }
  pose proof (stopInputStream_spec self in1 w1 (Hc _) Hok) as Hs.
  assert (Hheap : released (lvacfs_handle in1) (heap w1) = heap w).
  { destruct (startInputStream_done _ _ _ _ _ Hd)
      as [(_ & -> & ->) | (a & ret & slot & m & Ha & Hf & _ & _ & Hcase)].
    - reflexivity.
    - destruct Hcase as [(_ & -> & ->) | (_ & -> & ->)]; simpl.
      + unfold released. apply Z.eqb_neq in Ha. rewrite Ha.
        apply delete_insert_id. exact Hf.
      + reflexivity. }
  assert (Hl : loaded w1 = loaded w).
  { destruct (startInputStream_done _ _ _ _ _ Hd)
      as [(_ & _ & ->) | (a & ret & slot & m & _ & _ & _ & _ & Hcase)].
    - reflexivity.
    - destruct Hcase as [(_ & _ & ->) | (_ & _ & ->)]; reflexivity. }
  assert (Hin : set_lvacfs_handle 0 in1 = set_lvacfs_handle 0 in_).
  { destruct (startInputStream_done _ _ _ _ _ Hd)
      as [(_ & -> & _) | (a & ret & slot & m & _ & _ & _ & _ & Hcase)].
    - reflexivity.
    - destruct Hcase as [(_ & -> & _) | (_ & -> & _)]; reflexivity. }
  rewrite Hin, Hheap, Hl in Hs.
  eexists. eexists. split; [exact Hs|]. simpl.
  split; [reflexivity|]. split; [reflexivity|]. split; [reflexivity|].
  split.
  - eexists. left. reflexivity.
  - right. apply in_or_app. right. left. reflexivity.
Qed.

(** X11. [startInputStream] overwrites the handle without looking at it.  On a
    stream that still holds an instance, the old slot stays allocated with
    its content, is neither handed to destroy-instance nor freed, and the
    stream no longer points to it. *)
Theorem restart_orphans_instance (self : Lvacfs) (in_ in' : StreamInPrimary)
    (w w' : World M) (v : Z) :
  lvacfs_handle in_ ≠ 0 →
  heap w !! lvacfs_handle in_ = Some v →
  startInputStream self in_ w = Done (in', w') →
  lvacfs_handle in' ≠ lvacfs_handle in_ ∧
  heap w' !! lvacfs_handle in_ = Some v ∧
  ∃ evs,
    trace w' = trace w ++ evs ∧
    (∀ slot ret,
       ¬ In (CallDestroyInstance (lvacfs_handle in_) slot ret) evs) ∧
    ¬ In (Free (lvacfs_handle in_)) evs.
Proof.
  intros Hnz Hv Hd.
  destruct (startInputStream_done _ _ _ _ _ Hd)
    as [(_ & -> & ->) | (a & ret & slot & m & Ha & Hf & _ & _ & Hcase)].
  - simpl. split; [congruence|]. split; [exact Hv|].
    eexists. split; [world_simpl; reflexivity|].
    split; [intros slot ret Hin | intros Hin]; simpl in Hin;
      pick_event Hin.
  - assert (Hne : a ≠ lvacfs_handle in_) by congruence.
    destruct Hcase as [(_ & -> & ->) | (_ & -> & ->)]; simpl.
    + split; [exact Hne|].
      split; [rewrite lookup_insert_ne by exact Hne; exact Hv|].
      eexists. split; [reflexivity|].
      split; [intros slot' ret' Hin | intros Hin]; simpl in Hin;
        pick_event Hin.
    + split; [congruence|]. split; [exact Hv|].
      eexists. split; [reflexivity|]. split.
      * intros slot' ret' Hin.
        do 5 (destruct Hin as [E | Hin];
              [first [discriminate E | injection E as E _ _; congruence]|]).
        apply in_app_or in Hin as [Hin | Hin].
        { apply log_failure_events in Hin. discriminate. }
        simpl in Hin. pick_event Hin.
      * intros Hin.
        do 5 (destruct Hin as [E | Hin]; [discriminate E|]).
        apply in_app_or in Hin as [Hin | Hin].
        { apply log_failure_events in Hin. discriminate. }
        destruct Hin as [E | []]. injection E as E. congruence.
Qed.

(** X12. A second [stopInputStream] frees nothing: the first one left the
    handle null, so the second hands null to destroy-instance and to
    [free], and leaves the stream and the heap as they were. *)
Theorem stop_twice_frees_once (self : Lvacfs) (in_ in1 : StreamInPrimary)
    (w w1 : World M) :
  stopInputStream self in_ w = Done (in1, w1) →
  ∃ w2 ret,
    stopInputStream self in1 w1 = Done (in1, w2) ∧
    heap w2 = heap w1 ∧
    loaded w2 = loaded w1 ∧
    trace w2 =
      trace w1 ++
      CallDestroyInstance 0 (heap w1 !! 0) ret
      :: log_failure "destroy instance failed: %d" ret ++ [Free 0].
Proof.
  intros Hd.
  destruct (stopInputStream_done _ _ _ _ _ Hd) as (Hc & _ & -> & _).
  assert (Hok : handle_ok (set_lvacfs_handle 0 in_) w1)
    by (left; reflexivity).
  pose proof (stopInputStream_spec self _ w1 Hc Hok) as Hs.
  simpl in Hs. eexists. eexists. split; [exact Hs|]. simpl.
  repeat split; reflexivity.
Qed.

(** X13. The three stream operations leave alone what is not theirs: none
    opens or closes a library; [stopInputStream] and [processInputStream]
    change the heap at most at the stream's own slot; [startInputStream]
    changes it at most at the address it allocated and keeps every slot
    that was live.  So a second stream whose handle is null or a live
    slot other than this stream's keeps it through each of them. *)
Theorem stream_operations_touch_one_slot (self : Lvacfs)
    (in_ other : StreamInPrimary) (buffer bytes : Z) (w : World M) :
  (∀ in' w',
     stopInputStream self in_ w = Done (in', w') →
     loaded w' = loaded w ∧
     (∀ a, a ≠ lvacfs_handle in_ → heap w' !! a = heap w !! a) ∧
     (lvacfs_handle other ≠ lvacfs_handle in_ →
      handle_ok other w → handle_ok other w')) ∧
  (∀ in' w',
     processInputStream self in_ buffer bytes w = Done (in', w') →
     loaded w' = loaded w ∧
     (∀ a, a ≠ lvacfs_handle in_ → heap w' !! a = heap w !! a) ∧
     (lvacfs_handle other ≠ lvacfs_handle in_ →
      handle_ok other w → handle_ok other w')) ∧
  (∀ in' w',
     startInputStream self in_ w = Done (in', w') →
     loaded w' = loaded w ∧
     (∀ a, a ≠ lvacfs_handle in' → heap w' !! a = heap w !! a) ∧
     (∀ a v, heap w !! a = Some v → heap w' !! a = Some v) ∧
     (handle_ok other w → handle_ok other w')).
Proof.
  assert (Hok : ∀ (w' : World M),
            (∀ a, a ≠ lvacfs_handle in_ → heap w' !! a = heap w !! a) →
            lvacfs_handle other ≠ lvacfs_handle in_ →
            handle_ok other w → handle_ok other w').
  { intros w' Hfr Hne [Hz | Hs]; [left; exact Hz|].
    right. rewrite Hfr by exact Hne. exact Hs. }
  split; [|split].
  - intros in' w' Hd.
    destruct (stopInputStream_done _ _ _ _ _ Hd) as (_ & _ & _ & ->).
    simpl.
    assert (Hfr : ∀ a, a ≠ lvacfs_handle in_ →
                       released (lvacfs_handle in_) (heap w) !! a
                       = heap w !! a)
      by (intros a Hne; apply released_other; exact Hne).
    split; [reflexivity|]. split; [exact Hfr|].
    apply (Hok (mk_world _ _ _ _)). exact Hfr.
  - intros in' w' Hd.
    destruct (processInputStream_done _ _ _ _ _ _ _ Hd)
      as (_ & n & ret & m & _ & _ & [(_ & _ & ->) | (_ & _ & _ & ->)]);
      simpl.
    + split; [reflexivity|]. split; [reflexivity|]. intros _ H. exact H.
    + assert (Hfr : ∀ a, a ≠ lvacfs_handle in_ →
                         released (lvacfs_handle in_) (heap w) !! a
                         = heap w !! a)
        by (intros a Hne; apply released_other; exact Hne).
      split; [reflexivity|]. split; [exact Hfr|].
      apply (Hok (mk_world _ _ _ _)). exact Hfr.
  - intros in' w' Hd.
    destruct (startInputStream_done _ _ _ _ _ Hd)
      as [(_ & -> & ->) | (a & ret & slot & m & Ha & Hf & _ & _ & Hcase)].
    { simpl. repeat split; auto. }
    destruct Hcase as [(_ & -> & ->) | (_ & -> & ->)]; simpl.
    + assert (Hkeep : ∀ b v, heap w !! b = Some v →
                             <[a := slot]> (heap w) !! b = Some v).
      { intros b v Hb. rewrite lookup_insert_ne by congruence. exact Hb. }
      split; [reflexivity|].
      split; [intros b Hne; apply lookup_insert_ne; congruence|].
      split; [exact Hkeep|].
      intros [Hz | [v Hs]]; [left; exact Hz|].
      right. exists v. apply Hkeep. exact Hs.
    + repeat split; auto.
Qed.

(** X14. [startInputStream] and [stopInputStream] neither take nor wait for
    the stream's mutex: they do the same whether it is free or held, leave
    it as it is, and record no mutex event.  Only [processInputStream]
    serialises. *)
Theorem start_and_stop_ignore_mutex (self : Lvacfs) (in_ : StreamInPrimary)
    (w : World M) (b : bool) :
  (∀ in' w',
     stopInputStream self in_ w = Done (in', w') →
     stopInputStream self (set_lvacfs_lock b in_) w
       = Done (set_lvacfs_lock b in', w') ∧
     lvacfs_lock in' = lvacfs_lock in_ ∧
     ∃ evs, trace w' = trace w ++ evs ∧
            Forall (λ e, is_mutex_event e = false) evs) ∧
  (∀ in' w',
     startInputStream self in_ w = Done (in', w') →
     startInputStream self (set_lvacfs_lock b in_) w
       = Done (set_lvacfs_lock b in', w') ∧
     lvacfs_lock in' = lvacfs_lock in_ ∧
     ∃ evs, trace w' = trace w ++ evs ∧
            Forall (λ e, is_mutex_event e = false) evs).
Proof.
  assert (Hlog : ∀ fmt ret,
            Forall (λ e, is_mutex_event e = false) (log_failure fmt ret)).
  { intros fmt ret. unfold log_failure.
    destruct (ret <? 0); repeat constructor. }
  split.
  - intros in' w' Hd.
    destruct (stopInputStream_done _ _ _ _ _ Hd) as (Hc & Hok & -> & ->).
    split; [|split; [reflexivity|]].
    + rewrite stopInputStream_spec; [reflexivity | exact Hc | exact Hok].
    + eexists. split; [reflexivity|].
      constructor; [reflexivity|].
      apply Forall_app. split; [apply Hlog | repeat constructor].
  - intros in' w' Hd.
    assert (Hsame : startInputStream self (set_lvacfs_lock b in_) w
                    = Done (set_lvacfs_lock b in', w')).
    { destruct (calloc_cases w) as [Hz | (a & Ha & Hf & Hcal)].
      - rewrite (startInputStream_no_memory self in_ w Hz) in Hd.
        rewrite (startInputStream_no_memory self _ w Hz).
        injection Hd as <- <-. reflexivity.
      - assert (Ha1 : (calloc w).1 = a) by (rewrite Hcal; reflexivity).
        destruct (startInputStream_callable _ _ _ _ Hd) as (Hs & Hc & Hdes).
        { rewrite Ha1. exact Ha. }
        rewrite Ha1 in Hdes.
        destruct (create_reply self in_ a w) as [[ret slot] m] eqn:Hr.
        destruct (Z.lt_ge_cases ret 0) as [Hneg | Hpos].
        + erewrite startInputStream_rejected in Hd; eauto.
          erewrite startInputStream_rejected; eauto.
          injection Hd as <- <-. reflexivity.
        + erewrite startInputStream_created in Hd; eauto.
          erewrite startInputStream_created; eauto.
          injection Hd as <- <-. reflexivity. }
    split; [exact Hsame|].
    destruct (startInputStream_done _ _ _ _ _ Hd)
      as [(_ & -> & ->) | (a & ret & slot & m & _ & _ & _ & _ & Hcase)].
    { split; [reflexivity|]. eexists.
      split; [world_simpl; reflexivity | repeat constructor]. }
    destruct Hcase as [(_ & -> & ->) | (_ & -> & ->)];
      (split; [reflexivity|]); eexists; (split; [reflexivity|]).
    + repeat constructor.
    + apply Forall_app. split; [repeat constructor|].
      apply Forall_app. split; [apply Hlog | repeat constructor].
Qed.

(** X15. The stream operations do not check that [init] succeeded.  On an
    inert Engine [stopInputStream] and [processInputStream] never return:
    they go through the null table or a null entry point (or fail before
    that, on the held mutex or the zero divisor); [startInputStream]
    returns exactly when its allocation fails, before it reaches the
    table.  That is the Engine [init] leaves whenever it does not
    succeed on a new Engine. *)
Theorem inert_engine_is_never_checked (self : Lvacfs) (in_ : StreamInPrimary)
    (buffer bytes : Z) (w w0 : World M) :
  (inert self →
   (stopInputStream self in_ w = Fault NullOps ∨
    stopInputStream self in_ w = Fault (NullCall DestroyInstance)) ∧
   (∃ f, processInputStream self in_ buffer bytes w = Fault f) ∧
   (lvacfs_lock in_ = false →
    1 ≤ channel_count_of in_ → 1 ≤ bytes_per_sample_of in_ →
    processInputStream self in_ buffer bytes w = Fault NullOps ∨
    processInputStream self in_ buffer bytes w = Fault (NullCall Process)) ∧
   ((∃ r, startInputStream self in_ w = Done r) ↔ (calloc w).1 = 0) ∧
   ((calloc w).1 ≠ 0 →
    startInputStream self in_ w = Fault NullOps ∨
    startInputStream self in_ w = Fault (NullCall SetParamsFilePath))) ∧
  (¬ init_succeeds → inert (init Lvacfs_new w0).1).
Proof.
  assert (Hres : ∀ c, inert self →
            resolve self c = Fault NullOps ∨
            resolve self c = Fault (NullCall c)).
  { intros c [_ Hc]. specialize (Hc c). revert Hc.
    unfold callable, resolve.
    destruct (wrapper_ops_ self) as [ops|]; [|auto].
    destruct (entry_point c ops =? 0); [auto | discriminate]. }
  split.
  - intros Hin.
    assert (Hstart : (calloc w).1 ≠ 0 →
              startInputStream self in_ w = Fault NullOps ∨
              startInputStream self in_ w
                = Fault (NullCall SetParamsFilePath)).
    { intros Hnz. unfold startInputStream.
      destruct (calloc w) as [p w1]. simpl in *.
      apply Z.eqb_neq in Hnz. rewrite Hnz.
      unfold call_set_params_file_path.
      destruct (Hres SetParamsFilePath Hin) as [-> | ->]; auto. }
    split; [|split; [|split; [|split]]].
    + unfold stopInputStream, call_destroy_instance.
      destruct (Hres DestroyInstance Hin) as [-> | ->]; auto.
    + unfold processInputStream, lock.
      destruct (lvacfs_lock in_); [eauto|]. simpl.
      destruct (frame_count bytes _ _) as [n|f]; [|eauto]. simpl.
      unfold call_process.
      destruct (Hres Process Hin) as [-> | ->]; eauto.
    + intros Hl H1 H2. unfold processInputStream, lock. rewrite Hl. simpl.
      pose proof (frames_of_value in_ bytes H1 H2) as Hn.
      unfold frames_of in Hn. rewrite Hn. simpl.
      unfold call_process.
      destruct (Hres Process Hin) as [-> | ->]; auto.
    + split.
      * intros [r Hr].
        destruct (Z.eq_dec (calloc w).1 0) as [Hz | Hnz]; [exact Hz|].
        destruct (Hstart Hnz) as [E | E]; congruence.
      * intros Hz. destruct (calloc_cases w) as [Hc | (a & Ha & _ & Hc)].
        { rewrite (startInputStream_no_memory _ _ _ Hc). eauto. }
        rewrite Hc in Hz. simpl in Hz. contradiction.
    + exact Hstart.
  - intros Hno.
    destruct (init_outcome Lvacfs_new w0) as [(Hok & _) | (_ & Hst & _)];
      [contradiction|].
    destruct Hst as [-> | Hi]; [apply inert_no_table | exact Hi].
Qed.

(** ** Process calls *)

(** X16. A process call the library accepts changes nothing but the library's
    own state: the stream record (its handle included) and the heap are as
    before, so the call can be repeated.  A call it rejects leaves the
    handle null. *)
Theorem accepted_process_changes_nothing (self : Lvacfs)
    (in_ in' : StreamInPrimary) (buffer bytes : Z) (w w' : World M) :
  processInputStream self in_ buffer bytes w = Done (in', w') →
  ∃ n ret m,
    frames_of in_ bytes = Done n ∧
    process_reply in_ buffer n w = (ret, m) ∧
    (0 ≤ ret →
     in' = in_ ∧ heap w' = heap w ∧ loaded w' = loaded w ∧
     lib_state w' = m ∧
     trace w' =
       trace w ++
       [MutexLock;
        CallProcess (lvacfs_handle in_) (heap w !! lvacfs_handle in_)
          buffer buffer n status_buffer ret;
        MutexUnlock]) ∧
    (ret < 0 → lvacfs_handle in' = 0 ∧ config_ in' = config_ in_ ∧
               source_ in' = source_ in_).
Proof.
  intros Hd.
  destruct (processInputStream_done _ _ _ _ _ _ _ Hd)
    as (_ & n & ret & m & Hn & Hr & Hcase).
  exists n, ret, m. split; [exact Hn|]. split; [exact Hr|].
  destruct Hcase as [(Hpos & -> & ->) | (Hneg & _ & -> & ->)].
  - split; [|lia]. intros _. simpl. repeat split; reflexivity.
  - split; [lia|]. intros _. simpl. repeat split; reflexivity.
Qed.

(** X17. Each [processInputStream] that returns has called process exactly
    once: on the stream's handle, in place (the same buffer as input and
    as output), with a status buffer of [0x160] zero bytes, and with the
    slot as it was on entry. *)
Theorem process_called_once_in_place (self : Lvacfs)
    (in_ in' : StreamInPrimary) (buffer bytes : Z) (w w' : World M) evs :
  processInputStream self in_ buffer bytes w = Done (in', w') →
  trace w' = trace w ++ evs →
  length (List.filter is_process_call evs) = 1%nat ∧
  ∀ h slot input output n status ret,
    In (CallProcess h slot input output n status ret) evs →
    h = lvacfs_handle in_ ∧ slot = heap w !! lvacfs_handle in_ ∧
    input = buffer ∧ output = buffer ∧
    length status = 352%nat ∧ Forall (λ b, b = 0) status.
Proof.
  intros Hd Htr.
  assert (Hsb : length status_buffer = 352%nat
                ∧ Forall (λ b, b = 0) status_buffer).
  { unfold status_buffer. split; [reflexivity|].
    apply Forall_replicate. reflexivity. }
  destruct Hsb as [Hlen Hzero].
  assert (Hlog : ∀ fmt ret,
            List.filter is_process_call (log_failure fmt ret) = []).
  { intros fmt ret. unfold log_failure. destruct (ret <? 0); reflexivity. }
  destruct (processInputStream_done _ _ _ _ _ _ _ Hd)
    as (_ & n & ret & m & _ & _ & [(_ & _ & ->) | (_ & _ & _ & ->)]);
    simpl in Htr; apply app_inv_head in Htr; subst evs.
  - split; [reflexivity|].
    intros h slot input output n' status ret' Hin. simpl in Hin.
    destruct Hin as [E | [E | [E | []]]]; try discriminate.
    injection E as <- <- <- <- _ <- _.
    repeat split; first [reflexivity | assumption].
  - split.
    { simpl. rewrite List.filter_app, Hlog. reflexivity. }
    intros h slot input output n' status ret' Hin.
    do 4 (destruct Hin as [E | Hin];
          [first [discriminate E
                 | injection E as <- <- <- <- _ <- _;
                   repeat split; first [reflexivity | assumption]]|]).
    apply in_app_or in Hin as [Hin | Hin].
    { apply log_failure_events in Hin. discriminate. }
    simpl in Hin. pick_event Hin.
Qed.

(** X18. A buffer that is not a whole number of frames: the count passed to
    process is rounded down, so the bytes of the last, partial frame are
    not counted, and a buffer shorter than one frame (an empty one
    included) still reaches process, with a count of zero. *)
Theorem partial_frame_is_dropped (self : Lvacfs) (in_ in' : StreamInPrimary)
    (buffer bytes : Z) (w w' : World M) evs h slot input output n status
    ret :
  0 ≤ bytes < 2 ^ 32 →
  processInputStream self in_ buffer bytes w = Done (in', w') →
  trace w' = trace w ++ evs →
  In (CallProcess h slot input output n status ret) evs →
  0 < frame_size_of in_ ∧
  n * frame_size_of in_ ≤ bytes < (n + 1) * frame_size_of in_ ∧
  bytes - n * frame_size_of in_ = bytes mod frame_size_of in_ ∧
  (bytes < frame_size_of in_ ↔ n = 0).
Proof.
  intros Hb Hd Htr Hin.
  pose proof (channel_count_range (channel_mask (config_ in_))) as Rc.
  pose proof (bytes_per_sample_range (format (config_ in_))) as Rb.
  destruct (processInputStream_done _ _ _ _ _ _ _ Hd)
    as (_ & n0 & ret0 & m & Hn & _ & Hcase).
  assert (Hnn : n = n0).
  { destruct Hcase as [(_ & _ & ->) | (_ & _ & _ & ->)];
      simpl in Htr; apply app_inv_head in Htr; subst evs.
    - simpl in Hin. destruct Hin as [E | [E | [E | []]]]; try discriminate.
      injection E as _ _ _ _ <- _ _. reflexivity.
    - do 4 (destruct Hin as [E | Hin];
            [first [discriminate E
                   | injection E as _ _ _ _ <- _ _; reflexivity]|]).
      apply in_app_or in Hin as [Hin | Hin].
      { apply log_failure_events in Hin. discriminate. }
      simpl in Hin. pick_event Hin. }
  subst n0. apply frames_of_inv in Hn as [Hne Hn].
  set (fs := frame_size_of in_) in *.
  assert (Hfs : 0 < fs) by (unfold fs in *; nia).
  assert (Hq : 0 ≤ bytes / fs < 2 ^ 32).
  { split; [apply Z.div_pos; lia|].
    apply Z.div_lt_upper_bound; [lia|]. nia. }
  unfold to_uint32 in Hn. rewrite Z.mod_small in Hn by exact Hq.
  pose proof (Z.div_mod bytes fs ltac:(lia)) as Hdm.
  pose proof (Z.mod_pos_bound bytes fs Hfs) as Hmb.
  subst n. split; [exact Hfs|]. split; [nia|]. split; [nia|].
  split.
  - intros Hlt. apply Z.div_small. lia.
  - intros Hz. rewrite Hz in Hdm. lia.
Qed.

(** X19. After a process call the library rejected, the stream has no
    instance, and the code goes on as if it had: the next
    [processInputStream] neither returns early nor starts the stream
    again, it hands the null handle to process.  Whatever the library
    answers then, there is nothing left to free. *)
Theorem process_after_teardown_passes_null (self : Lvacfs)
    (in_ in1 : StreamInPrimary) (buffer bytes buffer2 bytes2 : Z)
    (w w1 : World M) :
  ready self →
  processInputStream self in_ buffer bytes w = Done (in1, w1) →
  lvacfs_handle in_ ≠ 0 →
  lvacfs_handle in1 = 0 →
  ∃ in2 w2 n2 ret2 rest,
    processInputStream self in1 buffer2 bytes2 w1 = Done (in2, w2) ∧
    trace w2 =
      trace w1 ++
      MutexLock
      :: CallProcess 0 (heap w1 !! 0) buffer2 buffer2 n2 status_buffer ret2
      :: rest ∧
    lvacfs_handle in2 = 0 ∧
    heap w2 = heap w1 ∧
    Forall (λ e, is_start_event e = false) rest.
Proof.
  intros [_ Hc] Hd Hnz Hz1.
  pose proof (channel_count_range (channel_mask (config_ in_))) as Rc.
  pose proof (bytes_per_sample_range (format (config_ in_))) as Rb.
  destruct (processInputStream_done _ _ _ _ _ _ _ Hd)
    as (Hl & n & ret & m & Hn & _ & Hcase).
  apply frames_of_inv in Hn as [Hne _].
  assert (Hcfg : config_ in1 = config_ in_ ∧ lvacfs_lock in1 = false).
  { destruct Hcase as [(_ & -> & _) | (_ & _ & -> & _)]; auto. }
  destruct Hcfg as [Hcfg Hl1].
  assert (H1 : 1 ≤ channel_count_of in1) by (rewrite Hcfg; nia).
  assert (H2 : 1 ≤ bytes_per_sample_of in1) by (rewrite Hcfg; nia).
  pose proof (frames_of_value in1 bytes2 H1 H2) as Hn2.
  assert (Hok1 : handle_ok in1 w1) by (left; exact Hz1).
  destruct (process_reply in1 buffer2
              (to_uint32 (bytes2 / frame_size_of in1)) w1)
    as [ret2 m2] eqn:Hr2.
  destruct (Z.lt_ge_cases ret2 0) as [Hneg | Hpos].
  - eexists. eexists. eexists. exists ret2. eexists.
    split; [eapply processInputStream_failed; eauto|].
    rewrite Hz1. simpl. unfold released. simpl.
    split; [reflexivity|].
    split; [reflexivity|]. split; [reflexivity|].
    do 2 (constructor; [reflexivity|]).
    apply Forall_app. split; [|repeat constructor].
    unfold log_failure. destruct (_ <? 0); repeat constructor.
  - eexists. eexists. eexists. exists ret2. eexists.
    split; [eapply processInputStream_ok; eauto|].
    rewrite Hz1. simpl.
    split; [reflexivity|]. split; [exact Hz1|]. split; [reflexivity|].
    repeat constructor.
Qed.

(** ** From [init] to a stream start *)

(** X20. The directory [init] found is the one the library is told at every
    stream start: whenever [startInputStream] gets as far as the library
    on an Engine that [init] set up, [init] had succeeded, and the call
    sequence starts with set-params-file-path on the ODM directory when it
    exists and on the vendor directory otherwise, followed by
    create-instance on the fresh slot. *)
Theorem params_directory_sent_on_every_start (in_ in' : StreamInPrimary)
    (w0 w w' : World M) :
  startInputStream (init Lvacfs_new w0).1 in_ w = Done (in', w') →
  (calloc w).1 ≠ 0 →
  init_succeeds ∧
  ∃ path ret rest,
    find_params_dir = Some path ∧
    (path = ODM_PARAMS_DIR_PATH ∧ access ODM_PARAMS_DIR_PATH = true ∨
     path = VENDOR_PARAMS_DIR_PATH ∧ access ODM_PARAMS_DIR_PATH = false) ∧
    trace w' =
      trace w ++
      Calloc (calloc w).1
      :: CallSetParamsFilePath (Some path)
      :: CallCreateInstance (calloc w).1 (Some 0) (source_ in_) (rate_of in_)
           (channels_of in_) ret
      :: rest.
Proof.
  intros Hd Hnz.
  destruct (startInputStream_callable _ _ _ _ Hd Hnz) as (Hs & _ & _).
  assert (Hok : init_succeeds).
  { destruct (init_outcome Lvacfs_new w0) as [(Hok & _) | (_ & Hst & _)];
      [exact Hok|].
    exfalso. destruct Hst as [E | [_ Hc]].
    - rewrite E in Hs. discriminate.
    - rewrite Hc in Hs. discriminate. }
  split; [exact Hok|]. destruct Hok as (Hp & Hh & Hall).
  destruct find_params_dir as [path|] eqn:Hpe; [|contradiction].
  pose proof (proj2 (some_symbol_missing_false _) Hall) as Hm.
  destruct (init_success Lvacfs_new w0 path Hpe Hh Hm) as (ops & E & _).
  assert (Hpath : params_file_path_ (init Lvacfs_new w0).1 = Some path)
    by (rewrite E; reflexivity).
  exists path.
  assert (Hwhich : path = ODM_PARAMS_DIR_PATH
                   ∧ access ODM_PARAMS_DIR_PATH = true
                   ∨ path = VENDOR_PARAMS_DIR_PATH
                     ∧ access ODM_PARAMS_DIR_PATH = false).
  { revert Hpe. unfold find_params_dir.
    destruct (access ODM_PARAMS_DIR_PATH).
    - intros [= <-]. auto.
    - destruct (access VENDOR_PARAMS_DIR_PATH); [|discriminate].
      intros [= <-]. auto. }
  destruct (startInputStream_done _ _ _ _ _ Hd)
    as [(Hz & _) | (a & ret & slot & m & _ & _ & Ha & _ & Hcase)];
    [contradiction|].
  rewrite Ha.
  destruct Hcase as [(_ & _ & ->) | (_ & _ & ->)]; simpl; rewrite Hpath.
  - exists ret, []. auto.
  - exists ret. eexists. split; [reflexivity|]. split; [exact Hwhich|].
    reflexivity.
Qed.

(** ** A stream and its one slot *)

(** X21. When the caller starts a stream only while it holds no instance, the
    stream owns at most one slot at any time: while its handle is null
    the heap is exactly as before the session, otherwise the heap is the
    one before the session plus the slot the handle points to.  Nothing
    leaks, nothing of what was there before is touched, and no library is
    opened or closed. *)
Theorem disciplined_session_owns_one_slot (self : Lvacfs)
    (in_ : StreamInPrimary) (w0 w : World M) :
  disciplined self w0 in_ w →
  loaded w = loaded w0 ∧
  lvacfs_lock in_ = false ∧
  (lvacfs_handle in_ = 0 → heap w = heap w0) ∧
  (lvacfs_handle in_ ≠ 0 →
   heap w0 !! lvacfs_handle in_ = None ∧
   ∃ v, heap w = <[lvacfs_handle in_ := v]> (heap w0)).
Proof.
  assert (Hrel : ∀ (i : StreamInPrimary) (x : World M),
            (lvacfs_handle i = 0 → heap x = heap w0) →
            (lvacfs_handle i ≠ 0 →
             heap w0 !! lvacfs_handle i = None ∧
             ∃ v, heap x = <[lvacfs_handle i := v]> (heap w0)) →
            released (lvacfs_handle i) (heap x) = heap w0).
  { intros i x Hz Hnz. unfold released.
    destruct (lvacfs_handle i =? 0) eqn:E.
    - apply Hz. apply Z.eqb_eq. exact E.
    - apply Z.eqb_neq in E. destruct (Hnz E) as (Hf & v & ->).
      apply delete_insert_id. exact Hf. }
  induction 1 as [in_ Hh Hl
                 | in_ w in' w' _ (IHl & IHk & IHz & IHnz) Hh Hd
                 | in_ w buffer bytes in' w' _ (IHl & IHk & IHz & IHnz) Hd
                 | in_ w in' w' _ (IHl & IHk & IHz & IHnz) Hd].
  - split; [reflexivity|]. split; [exact Hl|].
    split; [reflexivity | contradiction].
  - specialize (IHz Hh).
    destruct (startInputStream_done _ _ _ _ _ Hd)
      as [(_ & -> & ->) | (a & ret & slot & m & Ha & Hf & _ & _ & Hcase)].
    { simpl. split; [exact IHl|]. split; [exact IHk|].
      split; [intros _; exact IHz | contradiction]. }
    destruct Hcase as [(_ & -> & ->) | (_ & -> & ->)]; simpl.
    + split; [exact IHl|]. split; [exact IHk|].
      split; [contradiction|]. intros _. rewrite <- IHz.
      split; [exact Hf | eauto].
    + split; [exact IHl|]. split; [exact IHk|].
      split; [intros _; exact IHz | contradiction].
  - destruct (processInputStream_done _ _ _ _ _ _ _ Hd)
      as (_ & n & ret & m & _ & _
          & [(_ & -> & ->) | (_ & _ & -> & ->)]); simpl.
    + split; [exact IHl|]. split; [exact IHk|].
      split; [exact IHz | exact IHnz].
    + split; [exact IHl|]. split; [exact IHk|].
      split; [intros _; apply Hrel; assumption | contradiction].
  - destruct (stopInputStream_done _ _ _ _ _ Hd) as (_ & _ & -> & ->).
    simpl. split; [exact IHl|]. split; [exact IHk|].
    split; [intros _; apply Hrel; assumption | contradiction].
Qed.

(** * Threads: what the mutex guarantees beyond exclusion *)

(** X22. The mutex of a stream is held exactly while some thread is between
    the [lock_guard] constructor and its destructor on that stream; once
    every thread is outside, every mutex is free. *)
Theorem mutex_held_iff_thread_inside (self : Lvacfs) (c0 c : config) :
  initial c0 → reachable self c0 c →
  (∀ s in_,
     streams c !! s = Some in_ →
     (lvacfs_lock in_ = true ↔
      ∃ tid th, threads c !! tid = Some th ∧ t_stream th = s ∧
                holds_lock (t_pc th) = true)) ∧
  ((∀ tid th, threads c !! tid = Some th → holds_lock (t_pc th) = false) →
   ∀ s in_, streams c !! s = Some in_ → lvacfs_lock in_ = false).
Proof.
  intros Hi Hr.
  destruct (lock_inv_reachable self c0 c Hi Hr) as (I1 & _ & I3).
  assert (Hiff : ∀ s in_,
            streams c !! s = Some in_ →
            (lvacfs_lock in_ = true ↔
             ∃ tid th, threads c !! tid = Some th ∧ t_stream th = s ∧
                       holds_lock (t_pc th) = true)).
  { intros s in_ Hs. split.
    - intros Hl. apply (I3 s in_ Hs Hl).
    - intros (tid & th & Hth & <- & Hh).
      destruct (I1 tid th Hth Hh) as (in2 & Hs2 & Hl2). congruence. }
  split; [exact Hiff|].
  intros Hout s in_ Hs.
  destruct (lvacfs_lock in_) eqn:Hl; [|reflexivity].
  apply (Hiff s in_ Hs) in Hl as (tid & th & Hth & _ & Hh).
  rewrite (Hout tid th Hth) in Hh. discriminate.
Qed.

(** X23. A thread that waits for the mutex waits for a thread that can move:
    the holder is never itself waiting, so unless it has run into
    undefined behaviour it can take a step.  With no crashed thread, as
    long as some thread has not left [processInputStream], some thread
    can take a step. *)
Theorem no_deadlock (self : Lvacfs) (c0 c : config) (tid : nat)
    (th : thread) (in_ : StreamInPrimary) :
  initial c0 → reachable self c0 c →
  threads c !! tid = Some th →
  streams c !! t_stream th = Some in_ →
  running (t_pc th) = true →
  (thread_step self tid c = None →
   ∃ t' th',
     t' ≠ tid ∧ threads c !! t' = Some th' ∧
     t_stream th' = t_stream th ∧ holds_lock (t_pc th') = true ∧
     ((∃ f, t_pc th' = Crashed f) ∨
      ∃ c', thread_step self t' c = Some c')) ∧
  ((∀ t' th' f, threads c !! t' = Some th' → t_pc th' ≠ Crashed f) →
   ∃ t' c', thread_step self t' c = Some c').
Proof.
  intros Hi Hr Hth Hin Hrun.
  destruct (lock_inv_reachable self c0 c Hi Hr) as (_ & _ & I3).
  pose proof (thread_step_blocked self c tid th in_ Hth Hin Hrun) as Hb.
  assert (Hholder : thread_step self tid c = None →
            ∃ t' th',
              t' ≠ tid ∧ threads c !! t' = Some th' ∧
              t_stream th' = t_stream th ∧ holds_lock (t_pc th') = true ∧
              ((∃ f, t_pc th' = Crashed f) ∨
               ∃ c', thread_step self t' c = Some c')).
  { intros Hnone. apply Hb in Hnone as [Hpc Hl].
    destruct (I3 _ _ Hin Hl) as (t' & th' & Ht' & Hs' & Hh').
    exists t', th'.
    split.
    { intros ->. assert (th' = th) by congruence. subst th'.
      rewrite Hpc in Hh'. discriminate. }
    split; [exact Ht'|]. split; [exact Hs'|]. split; [exact Hh'|].
    destruct (t_pc th') as [| | n | r | | |f] eqn:Hpc';
      try discriminate Hh'; [right | right | right | right | left; eauto].
    all: assert (Hin' : streams c !! t_stream th' = Some in_)
           by (rewrite Hs'; exact Hin).
    all: assert (Hrun' : running (t_pc th') = true)
           by (rewrite Hpc'; reflexivity).
    all: pose proof (thread_step_blocked self c t' th' in_ Ht' Hin' Hrun')
           as Hb'.
    all: destruct (thread_step self t' c) as [c'|] eqn:Hstep; [eauto|].
    all: destruct (proj1 Hb' eq_refl) as [Hpc'' _]; congruence. }
  split; [exact Hholder|].
  intros Hnocrash.
  destruct (thread_step self tid c) as [c'|] eqn:Hstep; [eauto|].
  destruct (Hholder eq_refl)
    as (t' & th' & _ & Ht' & _ & _ & [[f Hf] | [c' Hc']]).
  - destruct (Hnocrash t' th' f Ht' Hf).
  - eauto.
Qed.

(** X24. While a thread holds the mutex of a stream, no step of another
    thread inside [processInputStream] changes that stream's record or
    the holder's own state: the teardown of another call cannot make the
    handle null under a process call that is running. *)
Theorem stream_stable_while_locked (self : Lvacfs) (c0 c c' : config)
    (t1 t2 : nat) (th1 : thread) :
  initial c0 → reachable self c0 c →
  threads c !! t1 = Some th1 →
  holds_lock (t_pc th1) = true →
  t2 ≠ t1 →
  thread_step self t2 c = Some c' →
  streams c' !! t_stream th1 = streams c !! t_stream th1 ∧
  threads c' !! t1 = Some th1.
Proof.
  intros Hi Hr H1 Hh1 Hne Hstep.
  destruct (lock_inv_reachable self c0 c Hi Hr) as (I1 & I2 & _).
  destruct (thread_step_cases self t2 c c' Hstep)
    as (th2 & in2 & p' & in' & w' & H2 & Hs2 & -> & Hcase).
  unfold advance. simpl.
  split; [|rewrite lookup_insert_ne by exact Hne; exact H1].
  apply lookup_insert_ne. intros Hsame.
  destruct (I1 t1 th1 H1 Hh1) as (in1 & Hs1 & Hl1).
  assert (in1 = in2) by congruence. subst in1.
  destruct Hcase as [(_ & Hl & _) | [(Hpc & _) | (Hh2 & _)]].
  - congruence.
  - apply Hne. apply (I2 t2 t1 th2 th1); auto.
    rewrite Hpc. reflexivity.
  - apply Hne. apply (I2 t2 t1 th2 th1); auto.
Qed.

End Lvacfs.

(** * Concrete runs *)

(** [init] on the small platform: the ODM library is missing, the vendor
    one is opened and every symbol resolves. *)
Example init_on_stub :
  (init true Stub.access Stub.dlopen Stub.dlsym unit Lvacfs_new Stub.world).1
  = Stub.engine ∧
  loaded (init true Stub.access Stub.dlopen Stub.dlsym unit Lvacfs_new
            Stub.world).2 = [0x7000].
Proof. split; vm_compute; reflexivity. Qed.

(** With the last symbol missing the library is closed again and the table
    dropped. *)
Example init_without_versions :
  init true Stub.access Stub.dlopen Stub.dlsym_no_versions unit Lvacfs_new
    Stub.world
  = (mk_Lvacfs (Some VENDOR_PARAMS_DIR_PATH) None,
     mk_world ∅ [] tt
       [Dlopen (ODM_LIB_PATH true) 0; Dlopen (VENDOR_LIB_PATH true) 0x7000;
        Dlsym 0x7000 "lvacfs_wrapper_CreateLibraryInstance" 0x7100;
        Dlsym 0x7000 "lvacfs_wrapper_DestroyLibraryInstance" 0x7100;
        Dlsym 0x7000 "lvacfs_wrapper_Process" 0x7100;
        Dlsym 0x7000 "lvacfs_wrapper_UpdateZoomInfo" 0x7100;
        Dlsym 0x7000 "lvacfs_wrapper_UpdateAngleInfo" 0x7100;
        Dlsym 0x7000 "lvacfs_SetParamsFilePath" 0x7100;
        Dlsym 0x7000 "lvacfs_wrapper_SetProfile" 0x7100;
        Dlsym 0x7000 "lvacfs_wrapper_SetAudioDirection" 0x7100;
        Dlsym 0x7000 "lvacfs_wrapper_SetDeviceOrientation" 0x7100;
        Dlsym 0x7000 "lvacfs_wrapper_GetVersions" 0;
        ALOGE "Failed to load one or more symbols: %s" [];
        Dlclose 0x7000; ALOGI "LVACFS deinitialized"]).
Proof. vm_compute. reflexivity. Qed.

(** Overlay first, on a platform with the vendor files only. *)
Lemma overlay_first_witness :
  find_params_dir Stub.access = Some VENDOR_PARAMS_DIR_PATH ∧
  opened_handle true Stub.dlopen = 0x7000.
Proof.
  destruct (overlay_first true Stub.access Stub.dlopen Stub.dlsym unit
              Lvacfs_new zeroed_ops Stub.world)
    as (_ & Hvendor & _ & _ & _ & Hlib & _).
  split.
  - apply Hvendor; reflexivity.
  - destruct Hlib as [-> _]; reflexivity.
Defined.

(** [deinit] on a ready Engine closes the library; a second one closes
    nothing. *)
Lemma deinit_idempotent_witness :
  loaded (deinit unit Stub.engine Stub.started_world).2 = [] ∧
  deinit unit (deinit unit Stub.engine Stub.started_world).1
    (deinit unit Stub.engine Stub.started_world).2
  = (mk_Lvacfs (Some VENDOR_PARAMS_DIR_PATH) None,
     emit (ALOGI "LVACFS deinitialized")
       (deinit unit Stub.engine Stub.started_world).2).
Proof.
  destruct (deinit_idempotent true Stub.access Stub.dlopen Stub.dlsym unit
              Stub.engine Stub.started_world)
    as (_ & Hclose & _ & Htwice & _).
  split.
  - destruct Hclose as [-> _]; [vm_compute; discriminate | reflexivity].
  - exact Htwice.
Defined.

(** On the library that rejects every call: a start of the never-started
    stream and a process call on the started stream both end in the stop
    path, and leave the never-started stream and an empty heap. *)
Lemma teardown_on_failure_witness :
  ready Stub.engine ∧
  (∃ w',
     startInputStream Stub.allocator Stub.channel_count unit Stub.rejecting
       Stub.engine Stub.stream Stub.world = Done (Stub.stream, w') ∧
     trace w' =
       [Calloc 0x5000;
        CallSetParamsFilePath (Some VENDOR_PARAMS_DIR_PATH);
        CallCreateInstance 0x5000 (Some 0) 1 48000 0x20002 (-1);
        ALOGE "create instance failed: %d" [-1];
        CallDestroyInstance 0x5000 (Some 0) (-1);
        ALOGE "destroy instance failed: %d" [-1];
        Free 0x5000] ∧
     heap w' = ∅) ∧
  (∃ w',
     processInputStream true Stub.channel_count Stub.bytes_per_sample unit
       Stub.rejecting Stub.engine Stub.started 0x9000 3200
       Stub.started_world = Done (Stub.stream, w') ∧
     trace w' =
       [MutexLock;
        CallProcess 0x5000 (Some 0x6000) 0x9000 0x9000 800 status_buffer
          (-1);
        ALOGE "process failed: %d" [-1];
        CallDestroyInstance 0x5000 (Some 0x6000) (-1);
        ALOGE "destroy instance failed: %d" [-1];
        Free 0x5000; MutexUnlock] ∧
     heap w' = ∅).
Proof.
  assert (Hready : ready Stub.engine) by stub_ready.
  split; [exact Hready|]. split.
  - destruct (teardown_on_failure true Stub.allocator Stub.channel_count
                Stub.bytes_per_sample
                ltac:(stub_range Stub.channel_count)
                ltac:(stub_range Stub.bytes_per_sample)
                unit Stub.rejecting Stub.engine Stub.stream 0x9000 3200
                Stub.world Hready) as (Hstart & _ & _).
    destruct (Hstart 0x5000 (-1) 0 tt) as (w' & Hd & Ht & Hh & _).
    + reflexivity.
    + discriminate.
    + reflexivity.
    + lia.
    + exists w'. split; [exact Hd|]. split; [exact Ht | exact Hh].
  - destruct (teardown_on_failure true Stub.allocator Stub.channel_count
                Stub.bytes_per_sample
                ltac:(stub_range Stub.channel_count)
                ltac:(stub_range Stub.bytes_per_sample)
                unit Stub.rejecting Stub.engine Stub.started 0x9000 3200
                Stub.started_world Hready) as (_ & Hproc & _).
    destruct (Hproc (-1) tt) as (w' & Hd & Ht & Hh & _).
    + reflexivity.
    + right. vm_compute. eauto.
    + vm_compute. discriminate.
    + vm_compute. discriminate.
    + reflexivity.
    + lia.
    + exists w'. split; [exact Hd|]. split; [exact Ht|].
      rewrite Hh. vm_compute. reflexivity.
Defined.

(** The stereo stream at 48 kHz: channels [0x00020002], rate [48000]. *)
Lemma create_instance_arguments_witness :
  ready Stub.engine ∧ 0 ≤ sample_rate (config_ Stub.stream) < 2 ^ 32 ∧
  ∃ in' w' evs ret,
    startInputStream Stub.allocator Stub.channel_count unit Stub.accepting
      Stub.engine Stub.stream Stub.world = Done (in', w') ∧
    trace w' = trace Stub.world ++ evs ∧
    In (CallCreateInstance 0x5000 (Some 0) 1 48000 0x20002 ret) evs.
Proof.
  assert (Hready : ready Stub.engine) by stub_ready.
  assert (Hrate : 0 ≤ sample_rate (config_ Stub.stream) < 2 ^ 32)
    by (simpl; lia).
  split; [exact Hready|]. split; [exact Hrate|].
  destruct (create_instance_arguments Stub.allocator Stub.channel_count
              ltac:(stub_range Stub.channel_count)
              unit Stub.accepting Stub.engine Stub.stream Stub.world
              Hready Hrate)
    as (in' & w' & evs & Hd & Ht & Hex & _).
  destruct Hex as [ret Hret]; [vm_compute; discriminate|].
  exists in', w', evs, ret. split; [exact Hd|]. split; [exact Ht|].
  exact Hret.
Defined.


(** On the stream as [calloc] left it, destroy-instance is called on the
    zeroed slot. *)
Lemma teardown_destroys_zeroed_slot_witness :
  ready Stub.engine ∧
  ∃ ret w',
    stopInputStream unit Stub.accepting Stub.engine Stub.started
      Stub.allocated_world = Done (Stub.stream, w') ∧
    trace w' =
      trace Stub.allocated_world ++
      CallDestroyInstance 0x5000 (Some 0) ret
      :: log_failure "destroy instance failed: %d" ret ++ [Free 0x5000].
Proof.
  assert (Hready : ready Stub.engine) by stub_ready.
  split; [exact Hready|].
  destruct (teardown_destroys_zeroed_slot Stub.allocator Stub.channel_count
              unit Stub.accepting Stub.engine Stub.started
              Stub.allocated_world Hready)
    as [Hstop _].
  destruct Hstop as (ret & w' & Hd & Ht & _); [vm_compute; reflexivity|].
  exists ret, w'. split; [exact Hd | exact Ht].
Defined.

(** C8 as stated does not hold: with a library that rejects
    create-instance and stores nothing, the teardown inside
    [startInputStream] calls destroy-instance on the slot that holds no
    instance (it still holds the null [calloc] put there). *)
Lemma failed_create_still_destroys :
  startInputStream Stub.allocator Stub.channel_count unit Stub.rejecting
    Stub.engine Stub.stream Stub.world
  = Done (Stub.stream,
          mk_world ∅ [] tt
            [Calloc 0x5000;
             CallSetParamsFilePath (Some VENDOR_PARAMS_DIR_PATH);
             CallCreateInstance 0x5000 (Some 0) 1 48000 0x20002 (-1);
             ALOGE "create instance failed: %d" [-1];
             CallDestroyInstance 0x5000 (Some 0) (-1);
             ALOGE "destroy instance failed: %d" [-1];
             Free 0x5000]).
Proof. vm_compute. reflexivity. Qed.

(** The 3200-byte and the 320-byte buffer, and a call on the started
    stream. *)
Lemma frame_count_passed_witness :
  frame_count true 3200 2 2 = Done 800 ∧
  frame_count false 320 1 2 = Done 160 ∧
  ∃ in' w' evs ret,
    processInputStream true Stub.channel_count Stub.bytes_per_sample unit
      Stub.accepting Stub.engine Stub.started 0x9000 3200 Stub.started_world
    = Done (in', w') ∧
    trace w' = trace Stub.started_world ++ evs ∧
    In (CallProcess 0x5000 (Some 0x6000) 0x9000 0x9000 800 status_buffer ret)
      evs.
Proof.
  destruct (frame_count_passed true Stub.channel_count Stub.bytes_per_sample
              ltac:(stub_range Stub.channel_count)
              ltac:(stub_range Stub.bytes_per_sample)
              unit Stub.accepting Stub.engine Stub.started 0x9000 3200
              Stub.started_world)
    as (_ & Hcall & H1 & _).
  destruct (frame_count_passed false Stub.channel_count Stub.bytes_per_sample
              ltac:(stub_range Stub.channel_count)
              ltac:(stub_range Stub.bytes_per_sample)
              unit Stub.accepting Stub.engine Stub.started 0x9000 3200
              Stub.started_world)
    as (_ & _ & _ & H2).
  split; [exact H1|]. split; [exact H2|].
  destruct Hcall as (in' & w' & evs & ret & Hd & Ht & Hin).
  - stub_ready.
  - reflexivity.
  - right. vm_compute. eauto.
  - vm_compute. discriminate.
  - vm_compute. discriminate.
  - exists in', w', evs, ret. auto.
Defined.

(** C4 as stated does not hold: under [__LP64__] a 16 GiB buffer of the
    stereo 16-bit stream is an exact multiple of [2 * 2] bytes and holds
    [4294967296] frames, and the count passed to process is [0]. *)
Lemma frame_count_truncates :
  Stub.channel_count (channel_mask (config_ Stub.started)) = 2 ∧
  Stub.bytes_per_sample (format (config_ Stub.started)) = 2 ∧
  17179869184 mod (2 * 2) = 0 ∧
  17179869184 / (2 * 2) = 4294967296 ∧
  processInputStream true Stub.channel_count Stub.bytes_per_sample unit
    Stub.accepting Stub.engine Stub.started 0x9000 17179869184
    Stub.started_world
  = Done (Stub.started,
          mk_world {[ 0x5000 := 0x6000 ]} [0x7000] tt
            [MutexLock;
             CallProcess 0x5000 (Some 0x6000) 0x9000 0x9000 0 status_buffer 0;
             MutexUnlock]).
Proof. repeat split; vm_compute; reflexivity. Qed.

(** A mono stream (mask [0x10]) of an unknown format (bytes per sample 0):
    the call stops at the division; the stereo 16-bit stream does not. *)
Lemma division_defined_iff_witness :
  processInputStream true Stub.channel_count Stub.bytes_per_sample unit
    Stub.accepting Stub.engine
    (mk_stream 0x5000 false (mk_audio_config 0x10 48000 0) 1)
    0x9000 3200 Stub.started_world
  = Fault DivisionByZero ∧
  ∃ n, frames_of true Stub.channel_count Stub.bytes_per_sample Stub.started
         3200 = Done n.
Proof.
  destruct (division_defined_iff true Stub.channel_count
              Stub.bytes_per_sample
              ltac:(stub_range Stub.channel_count)
              ltac:(stub_range Stub.bytes_per_sample)
              unit Stub.accepting Stub.engine
              (mk_stream 0x5000 false (mk_audio_config 0x10 48000 0) 1)
              0x9000 3200
              Stub.started_world)
    as (_ & _ & Hfault & _).
  destruct (division_defined_iff true Stub.channel_count
              Stub.bytes_per_sample
              ltac:(stub_range Stub.channel_count)
              ltac:(stub_range Stub.bytes_per_sample)
              unit Stub.accepting Stub.engine Stub.started 0x9000 3200
              Stub.started_world)
    as (_ & Hdef & _).
  split.
  - apply Hfault; [reflexivity | right; reflexivity].
  - apply Hdef. split; vm_compute; discriminate.
Defined.


(** A stream that is started and then processed twice on the accepting
    library keeps its handle; on the rejecting library the first
    [processInputStream] tears it down. *)
Example process_twice :
  ∃ in1 w1 in2 w2,
    processInputStream true Stub.channel_count Stub.bytes_per_sample unit
      Stub.accepting Stub.engine Stub.started 0x9000 3200 Stub.started_world
    = Done (in1, w1) ∧
    processInputStream true Stub.channel_count Stub.bytes_per_sample unit
      Stub.accepting Stub.engine in1 0x9000 3200 w1 = Done (in2, w2) ∧
    in2 = Stub.started ∧ heap w2 = heap Stub.started_world.
Proof.
  eexists _, _, _, _. split; [vm_compute; reflexivity|].
  split; [vm_compute; reflexivity|]. split; reflexivity.
Qed.

Example process_rejected :
  processInputStream true Stub.channel_count Stub.bytes_per_sample unit
    Stub.rejecting Stub.engine Stub.started 0x9000 3200 Stub.started_world
  = Done (Stub.stream,
          mk_world ∅ [0x7000] tt
            [MutexLock;
             CallProcess 0x5000 (Some 0x6000) 0x9000 0x9000 800
               status_buffer (-1);
             ALOGE "process failed: %d" [-1];
             CallDestroyInstance 0x5000 (Some 0x6000) (-1);
             ALOGE "destroy instance failed: %d" [-1];
             Free 0x5000; MutexUnlock]).
Proof. vm_compute. reflexivity. Qed.

(** The started stream is a session, so its mutex is free and its handle
    points to a live slot. *)
Lemma session_invariant_witness :
  ∃ in' w',
    startInputStream Stub.allocator Stub.channel_count unit Stub.accepting
      Stub.engine Stub.stream Stub.world = Done (in', w') ∧
    lvacfs_lock in' = false ∧ handle_ok unit in' w'.
Proof.
  destruct (startInputStream Stub.allocator Stub.channel_count unit
              Stub.accepting Stub.engine Stub.stream Stub.world)
    as [[in' w']|] eqn:E; [|vm_compute in E; discriminate].
  exists in', w'. split; [reflexivity|].
  apply (session_invariant true Stub.allocator Stub.channel_count
           Stub.bytes_per_sample unit Stub.accepting Stub.engine in' w').
  eapply session_start; [|exact E].
  apply session_new; reflexivity.
Defined.

(** On the small platform [processInputStream] returns. *)
Lemma processInputStream_total_witness :
  ∃ r,
    processInputStream true Stub.channel_count Stub.bytes_per_sample unit
      Stub.rejecting Stub.engine Stub.started 0x9000 3200 Stub.started_world
    = Done r.
Proof.
  apply (processInputStream_total true Stub.channel_count
           Stub.bytes_per_sample
           ltac:(stub_range Stub.channel_count)
           ltac:(stub_range Stub.bytes_per_sample)
           unit Stub.rejecting Stub.engine Stub.started 0x9000 3200
           Stub.started_world).
  - stub_ready.
  - reflexivity.
  - right. vm_compute. eauto.
  - vm_compute. discriminate.
  - vm_compute. discriminate.
Defined.

(** * Concrete runs: the loader *)

Lemma init_succeeds_on_stub :
  init_succeeds true Stub.access Stub.dlopen Stub.dlsym.
Proof.
  split; [vm_compute; discriminate|].
  split; [vm_compute; discriminate|].
  intros c. destruct c; vm_compute; discriminate.
Qed.

(** On the library without its last symbol, [init] makes the ten lookups
    and the tenth is the one that returns null. *)
Lemma init_calls_in_order_witness :
  lookups Stub.dlsym_no_versions (opened_handle true Stub.dlopen)
    all_capabilities
  = map (λ c, Dlsym (opened_handle true Stub.dlopen) (symbol_name c)
                (Stub.dlsym_no_versions (opened_handle true Stub.dlopen)
                   (symbol_name c)))
      [CreateInstance; DestroyInstance; Process; UpdateZoomInfo;
       UpdateAngleInfo; SetParamsFilePath; SetProfile; SetAudioDirection;
       SetDeviceOrientation]
    ++ [Dlsym (opened_handle true Stub.dlopen) (symbol_name GetVersions) 0].
Proof.
  destruct (init_calls_in_order true Stub.access Stub.dlopen
              Stub.dlsym_no_versions unit Lvacfs_new Stub.world)
    as (_ & _ & Hfirst & _).
  apply (Hfirst _ GetVersions []).
  - reflexivity.
  - repeat constructor; vm_compute; discriminate.
  - reflexivity.
Defined.

(** The ODM library opens and has no symbol: the complete vendor library
    is not tried. *)
Lemma incomplete_odm_library_is_final_witness :
  inert (init true Stub.access Stub.dlopen_odm Stub.dlsym unit Lvacfs_new
           Stub.world).1 ∧
  loaded (init true Stub.access Stub.dlopen_odm Stub.dlsym unit Lvacfs_new
            Stub.world).2 = [] ∧
  Stub.dlopen_odm (VENDOR_LIB_PATH true) = 0x7000 ∧
  some_symbol_missing Stub.dlsym 0x7000 = false.
Proof.
  destruct (incomplete_odm_library_is_final true Stub.access Stub.dlopen_odm
              Stub.dlsym unit Lvacfs_new Stub.world VENDOR_PARAMS_DIR_PATH)
    as (_ & Hi & Hl & _).
  - reflexivity.
  - vm_compute. discriminate.
  - vm_compute. reflexivity.
  - split; [exact Hi|]. split; [exact Hl|].
    split; vm_compute; reflexivity.
Defined.

(** On the small platform the log of [init] carries the success line. *)
Lemma init_log_tells_outcome_witness :
  ∃ evs,
    trace (init true Stub.access Stub.dlopen Stub.dlsym unit Lvacfs_new
             Stub.world).2 = trace Stub.world ++ evs ∧
    In (ALOGI "LVACFS initialized successfully") evs.
Proof.
  destruct (init_log_tells_outcome true Stub.access Stub.dlopen Stub.dlsym
              unit Lvacfs_new Stub.world) as (evs & Ht & Hok & _).
  exists evs. split; [exact Ht|]. apply Hok. exact init_succeeds_on_stub.
Defined.

(** [init] on the Engine that already holds the library, then [deinit]:
    the library is still open. *)
Lemma init_closes_only_what_it_opened_witness :
  In 0x7000 (loaded Stub.started_world) ∧
  In (module_handle Stub.engine)
    (loaded
       (deinit unit
          (init true Stub.access Stub.dlopen Stub.dlsym unit Stub.engine
             Stub.started_world).1
          (init true Stub.access Stub.dlopen Stub.dlsym unit Stub.engine
             Stub.started_world).2).2).
Proof.
  destruct (init_closes_only_what_it_opened true Stub.access Stub.dlopen
              Stub.dlsym unit Stub.engine Stub.started_world)
    as (_ & _ & Hleak).
  destruct Hleak as (_ & _ & Hin); [vm_compute; discriminate|].
  assert (H0 : In 0x7000 (loaded Stub.started_world)) by (left; reflexivity).
  split; [exact H0 | exact (Hin H0)].
Defined.

(** [init] then [deinit] on a new Engine: nothing stays open. *)
Lemma init_deinit_balanced_witness :
  loaded (init true Stub.access Stub.dlopen Stub.dlsym unit Lvacfs_new
            Stub.world).2 = [0x7000] ∧
  loaded
    (deinit unit
       (init true Stub.access Stub.dlopen Stub.dlsym unit Lvacfs_new
          Stub.world).1
       (init true Stub.access Stub.dlopen Stub.dlsym unit Lvacfs_new
          Stub.world).2).2 = [].
Proof.
  destruct (init_deinit_balanced true Stub.access Stub.dlopen Stub.dlsym
              unit Lvacfs_new Stub.world eq_refl)
    as (_ & Hl & _ & _ & Hok).
  destruct (Hok init_succeeds_on_stub) as [Hopen _].
  split; [exact Hopen | exact Hl].
Defined.

(** [deinit] then [init]: the Engine is ready again. *)
Lemma reinit_after_deinit_witness :
  ready (init true Stub.access Stub.dlopen Stub.dlsym unit
           (deinit unit Stub.engine Stub.started_world).1 Stub.world).1.
Proof.
  destruct (reinit_after_deinit true Stub.access Stub.dlopen Stub.dlsym unit
              Stub.engine Stub.started_world Stub.world)
    as (_ & Hiff & _).
  apply Hiff. exact init_succeeds_on_stub.
Defined.

(** On the small platform the process member is bound to the symbol
    [lvacfs_wrapper_Process] of the vendor library. *)
Lemma entry_points_bound_by_name_witness :
  ∃ ops,
    wrapper_ops_ (init true Stub.access Stub.dlopen Stub.dlsym unit
                    Lvacfs_new Stub.world).1 = Some ops ∧
    lib_handle ops = 0x7000 ∧
    process ops = Stub.dlsym 0x7000 "lvacfs_wrapper_Process".
Proof.
  destruct (entry_points_bound_by_name true Stub.access Stub.dlopen
              Stub.dlsym unit Lvacfs_new Stub.world init_succeeds_on_stub)
    as (ops & evs & Hw & _ & Hh & Hb & _).
  exists ops. split; [exact Hw|]. split; [exact Hh|].
  exact (proj1 (Hb Process)).
Defined.

(** On the 64-bit small platform, the two [dlopen] calls of [init]. *)
Lemma library_paths_by_word_size_witness :
  ∃ r rest r' rest',
    trace (init true Stub.access Stub.dlopen Stub.dlsym unit Lvacfs_new
             Stub.world).2
    = trace Stub.world ++ Dlopen "/odm/lib64/liblvacfs_wrapper.so" r :: rest ∧
    rest = Dlopen "/vendor/lib64/liblvacfs_wrapper.so" r' :: rest'.
Proof.
  destruct (library_paths_by_word_size true Stub.access Stub.dlopen
              Stub.dlsym unit Lvacfs_new Stub.world
              (trace (init true Stub.access Stub.dlopen Stub.dlsym unit
                        Lvacfs_new Stub.world).2) eq_refl)
    as (_ & Hfirst & _).
  destruct Hfirst as (r & rest & He & Hnext); [vm_compute; discriminate|].
  destruct Hnext as (r' & rest' & Hr).
  { vm_compute in He. injection He as <- _. reflexivity. }
  exists r, rest, r', rest'. split; [exact He | exact Hr].
Defined.

(** * Concrete runs: streams *)

Lemma engine_ready_on_stub : ready Stub.engine.
Proof. stub_ready. Qed.

(** Start then stop on the small platform: the heap is empty again. *)
Lemma start_then_stop_restores_heap_witness :
  ∃ w1 w2,
    startInputStream Stub.allocator Stub.channel_count unit Stub.accepting
      Stub.engine Stub.stream Stub.world = Done (Stub.started, w1) ∧
    heap w1 = {[ 0x5000 := 0x6000 ]} ∧
    stopInputStream unit Stub.accepting Stub.engine Stub.started w1
      = Done (Stub.stream, w2) ∧
    heap w2 = ∅.
Proof.
  destruct (startInputStream Stub.allocator Stub.channel_count unit
              Stub.accepting Stub.engine Stub.stream Stub.world)
    as [[in1 w1]|] eqn:E; [|vm_compute in E; discriminate].
  destruct (start_then_stop_restores_heap Stub.allocator Stub.channel_count
              unit Stub.accepting Stub.engine Stub.stream in1 Stub.world
              w1 engine_ready_on_stub E) as (w2 & evs & Hs & Hh & _).
  assert (E1 : in1 = Stub.started)
    by (vm_compute in E; injection E as <- _; reflexivity).
  assert (E2 : heap w1 = {[ 0x5000 := 0x6000 ]})
    by (vm_compute in E; injection E as _ <-; vm_compute; reflexivity).
  subst in1. exists w1, w2.
  split; [reflexivity|]. split; [exact E2|].
  split; [exact Hs | exact Hh].
Defined.

(** A second start of the started stream: the stream moves to a new slot
    and the old one stays behind with its instance pointer. *)
Lemma restart_orphans_instance_witness :
  ∃ in' w',
    startInputStream Stub.bump Stub.channel_count unit Stub.accepting
      Stub.engine Stub.started Stub.started_world = Done (in', w') ∧
    lvacfs_handle in' = 0x5008 ∧
    lvacfs_handle in' ≠ lvacfs_handle Stub.started ∧
    heap w' !! 0x5000 = Some 0x6000.
Proof.
  destruct (startInputStream Stub.bump Stub.channel_count unit
              Stub.accepting Stub.engine Stub.started Stub.started_world)
    as [[in' w']|] eqn:E; [|vm_compute in E; discriminate].
  destruct (restart_orphans_instance Stub.bump Stub.channel_count unit
              Stub.accepting Stub.engine Stub.started in' Stub.started_world
              w' 0x6000) as (Hne & Hold & _).
  - vm_compute. discriminate.
  - vm_compute. reflexivity.
  - exact E.
  - exists in', w'. split; [reflexivity|].
    split; [vm_compute in E; injection E as <- _; reflexivity|].
    split; [exact Hne | exact Hold].
Defined.

(** Two stops in a row: the second one frees null. *)
Lemma stop_twice_frees_once_witness :
  ∃ in1 w1 w2 ret,
    stopInputStream unit Stub.accepting Stub.engine Stub.started
      Stub.started_world = Done (in1, w1) ∧
    stopInputStream unit Stub.accepting Stub.engine in1 w1
      = Done (in1, w2) ∧
    heap w2 = heap w1 ∧
    trace w2 =
      trace w1 ++
      CallDestroyInstance 0 (heap w1 !! 0) ret
      :: log_failure "destroy instance failed: %d" ret ++ [Free 0].
Proof.
  destruct (stopInputStream unit Stub.accepting Stub.engine Stub.started
              Stub.started_world)
    as [[in1 w1]|] eqn:E; [|vm_compute in E; discriminate].
  destruct (stop_twice_frees_once unit Stub.accepting Stub.engine
              Stub.started in1 Stub.started_world w1 E)
    as (w2 & ret & Hs & Hh & _ & Ht).
  exists in1, w1, w2, ret. auto.
Defined.

(** Stopping one of two started streams leaves the other one's slot. *)
Lemma stream_operations_touch_one_slot_witness :
  ∃ in' w',
    stopInputStream unit Stub.accepting Stub.engine Stub.started
      Stub.two_slots_world = Done (in', w') ∧
    heap w' !! 0x5008 = Some 0x6008 ∧
    handle_ok unit Stub.second w'.
Proof.
  destruct (stopInputStream unit Stub.accepting Stub.engine Stub.started
              Stub.two_slots_world)
    as [[in' w']|] eqn:E; [|vm_compute in E; discriminate].
  destruct (stream_operations_touch_one_slot true Stub.allocator
              Stub.channel_count Stub.bytes_per_sample unit Stub.accepting
              Stub.engine Stub.started Stub.second 0x9000 3200
              Stub.two_slots_world) as (Hstop & _).
  destruct (Hstop in' w' E) as (_ & Hfr & Hok).
  exists in', w'. split; [reflexivity|]. split.
  - rewrite Hfr; [vm_compute; reflexivity | vm_compute; discriminate].
  - apply Hok; [vm_compute; discriminate|].
    right. vm_compute. eauto.
Defined.

(** [stopInputStream] goes through while the mutex of the stream is
    held. *)
Lemma start_and_stop_ignore_mutex_witness :
  ∃ w',
    stopInputStream unit Stub.accepting Stub.engine
      (set_lvacfs_lock true Stub.started) Stub.started_world
    = Done (set_lvacfs_lock true Stub.stream, w').
Proof.
  destruct (stopInputStream unit Stub.accepting Stub.engine Stub.started
              Stub.started_world)
    as [[in' w']|] eqn:E; [|vm_compute in E; discriminate].
  destruct (start_and_stop_ignore_mutex Stub.allocator Stub.channel_count
              unit Stub.accepting Stub.engine Stub.started
              Stub.started_world true) as (Hstop & _).
  destruct (Hstop in' w' E) as (Hs & _).
  assert (E1 : in' = Stub.stream)
    by (vm_compute in E; injection E as <- _; reflexivity).
  subst in'. exists w'. exact Hs.
Defined.

(** On a new Engine, on which [init] was never called, the stream
    operations go through the null table. *)
Lemma inert_engine_is_never_checked_witness :
  (stopInputStream unit Stub.accepting Lvacfs_new Stub.started
     Stub.started_world = Fault NullOps ∨
   stopInputStream unit Stub.accepting Lvacfs_new Stub.started
     Stub.started_world = Fault (NullCall DestroyInstance)) ∧
  (processInputStream true Stub.channel_count Stub.bytes_per_sample unit
     Stub.accepting Lvacfs_new Stub.started 0x9000 3200 Stub.started_world
   = Fault NullOps ∨
   processInputStream true Stub.channel_count Stub.bytes_per_sample unit
     Stub.accepting Lvacfs_new Stub.started 0x9000 3200 Stub.started_world
   = Fault (NullCall Process)).
Proof.
  destruct (inert_engine_is_never_checked true Stub.access Stub.dlopen
              Stub.dlsym Stub.allocator Stub.channel_count
              Stub.bytes_per_sample
              ltac:(stub_range Stub.channel_count)
              ltac:(stub_range Stub.bytes_per_sample)
              unit Stub.accepting Lvacfs_new Stub.started 0x9000 3200
              Stub.started_world Stub.world) as (Hinert & _).
  destruct Hinert as (Hstop & _ & Hproc & _);
    [split; [reflexivity | intros c; reflexivity]|].
  split; [exact Hstop|].
  apply Hproc; [reflexivity | vm_compute; discriminate
               | vm_compute; discriminate].
Defined.

(** An accepted process call on the started stream changes neither the
    stream nor the heap. *)
Lemma accepted_process_changes_nothing_witness :
  ∃ in' w',
    processInputStream true Stub.channel_count Stub.bytes_per_sample unit
      Stub.accepting Stub.engine Stub.started 0x9000 3200 Stub.started_world
    = Done (in', w') ∧
    in' = Stub.started ∧ heap w' = heap Stub.started_world.
Proof.
  destruct (processInputStream true Stub.channel_count Stub.bytes_per_sample
              unit Stub.accepting Stub.engine Stub.started 0x9000 3200
              Stub.started_world)
    as [[in' w']|] eqn:E; [|vm_compute in E; discriminate].
  destruct (accepted_process_changes_nothing true Stub.channel_count
              Stub.bytes_per_sample unit Stub.accepting Stub.engine
              Stub.started in' 0x9000 3200 Stub.started_world w' E)
    as (n & ret & m & _ & Hr & Hok & _).
  assert (Hret : 0 ≤ ret).
  { vm_compute in Hr. injection Hr as <- _. lia. }
  destruct (Hok Hret) as (Hin & Hh & _).
  exists in', w'. auto.
Defined.

(** The one process call of a rejected [processInputStream]. *)
Lemma process_called_once_in_place_witness :
  ∃ in' w' evs,
    processInputStream true Stub.channel_count Stub.bytes_per_sample unit
      Stub.rejecting Stub.engine Stub.started 0x9000 3200 Stub.started_world
    = Done (in', w') ∧
    trace w' = trace Stub.started_world ++ evs ∧
    length (List.filter is_process_call evs) = 1%nat ∧
    In (CallProcess 0x5000 (Some 0x6000) 0x9000 0x9000 800 status_buffer
          (-1)) evs.
Proof.
  destruct (processInputStream true Stub.channel_count Stub.bytes_per_sample
              unit Stub.rejecting Stub.engine Stub.started 0x9000 3200
              Stub.started_world)
    as [[in' w']|] eqn:E; [|vm_compute in E; discriminate].
  destruct (process_called_once_in_place true Stub.channel_count
              Stub.bytes_per_sample unit Stub.rejecting Stub.engine
              Stub.started in' 0x9000 3200 Stub.started_world w'
              (trace w') E eq_refl) as (Hone & _).
  exists in', w', (trace w'). split; [reflexivity|].
  split; [reflexivity|]. split; [exact Hone|].
  vm_compute in E. injection E as _ <-. simpl. auto.
Defined.

(** 3203 bytes of 16-bit stereo: 800 frames, the last three bytes are
    not counted. *)
Lemma partial_frame_is_dropped_witness :
  ∃ in' w',
    processInputStream true Stub.channel_count Stub.bytes_per_sample unit
      Stub.accepting Stub.engine Stub.started 0x9000 3203 Stub.started_world
    = Done (in', w') ∧
    In (CallProcess 0x5000 (Some 0x6000) 0x9000 0x9000 800 status_buffer 0)
      (trace w') ∧
    800 * (Stub.channel_count 0xC * Stub.bytes_per_sample 1) ≤ 3203
      < (800 + 1) * (Stub.channel_count 0xC * Stub.bytes_per_sample 1) ∧
    3203 - 800 * (Stub.channel_count 0xC * Stub.bytes_per_sample 1)
      = 3203 mod (Stub.channel_count 0xC * Stub.bytes_per_sample 1).
Proof.
  destruct (processInputStream true Stub.channel_count Stub.bytes_per_sample
              unit Stub.accepting Stub.engine Stub.started 0x9000 3203
              Stub.started_world)
    as [[in' w']|] eqn:E; [|vm_compute in E; discriminate].
  assert (Hin : In (CallProcess 0x5000 (Some 0x6000) 0x9000 0x9000 800
                      status_buffer 0) (trace w')).
  { vm_compute in E. injection E as _ <-. simpl. auto. }
  destruct (partial_frame_is_dropped true Stub.channel_count
              Stub.bytes_per_sample
              ltac:(stub_range Stub.channel_count)
              ltac:(stub_range Stub.bytes_per_sample)
              unit Stub.accepting Stub.engine Stub.started in' 0x9000 3203
              Stub.started_world w' (trace w') 0x5000 (Some 0x6000) 0x9000
              0x9000 800 status_buffer 0 ltac:(lia) E eq_refl Hin)
    as (_ & Hb & Hm & _).
  exists in', w'. split; [reflexivity|]. split; [exact Hin|].
  split; [exact Hb | exact Hm].
Defined.

(** From [init] to the first stream start on the small platform: the
    library is told the vendor directory, then asked for an instance. *)
Lemma params_directory_sent_on_every_start_witness :
  ∃ in' w' ret rest,
    startInputStream Stub.allocator Stub.channel_count unit Stub.accepting
      (init true Stub.access Stub.dlopen Stub.dlsym unit Lvacfs_new
         Stub.world).1
      Stub.stream Stub.world = Done (in', w') ∧
    trace w' =
      trace Stub.world ++
      Calloc 0x5000
      :: CallSetParamsFilePath (Some VENDOR_PARAMS_DIR_PATH)
      :: CallCreateInstance 0x5000 (Some 0) 1 48000 0x20002 ret
      :: rest.
Proof.
  destruct (startInputStream Stub.allocator Stub.channel_count unit
              Stub.accepting
              (init true Stub.access Stub.dlopen Stub.dlsym unit Lvacfs_new
                 Stub.world).1
              Stub.stream Stub.world)
    as [[in' w']|] eqn:E; [|vm_compute in E; discriminate].
  destruct (params_directory_sent_on_every_start true Stub.access Stub.dlopen
              Stub.dlsym Stub.allocator Stub.channel_count unit
              Stub.accepting Stub.stream in' Stub.world Stub.world w' E)
    as (_ & path & ret & rest & Hp & _ & Ht);
    [vm_compute; discriminate|].
  assert (Hv : path = VENDOR_PARAMS_DIR_PATH).
  { vm_compute in Hp. injection Hp as <-. reflexivity. }
  subst path. exists in', w', ret, rest. split; [reflexivity|]. exact Ht.
Defined.

(** Two process calls on the library that rejects everything: the first
    tears the instance down, the second hands null to process. *)
Lemma process_after_teardown_passes_null_witness :
  ∃ in1 w1 in2 w2 n2 ret2 rest,
    processInputStream true Stub.channel_count Stub.bytes_per_sample unit
      Stub.rejecting Stub.engine Stub.started 0x9000 3200 Stub.started_world
    = Done (in1, w1) ∧
    processInputStream true Stub.channel_count Stub.bytes_per_sample unit
      Stub.rejecting Stub.engine in1 0x9000 3200 w1 = Done (in2, w2) ∧
    trace w2 =
      trace w1 ++
      MutexLock
      :: CallProcess 0 (heap w1 !! 0) 0x9000 0x9000 n2 status_buffer ret2
      :: rest.
Proof.
  destruct (processInputStream true Stub.channel_count Stub.bytes_per_sample
              unit Stub.rejecting Stub.engine Stub.started 0x9000 3200
              Stub.started_world)
    as [[in1 w1]|] eqn:E; [|vm_compute in E; discriminate].
  destruct (process_after_teardown_passes_null true Stub.channel_count
              Stub.bytes_per_sample
              ltac:(stub_range Stub.channel_count)
              ltac:(stub_range Stub.bytes_per_sample)
              unit Stub.rejecting Stub.engine Stub.started in1 0x9000 3200
              0x9000 3200 Stub.started_world w1 engine_ready_on_stub E)
    as (in2 & w2 & n2 & ret2 & rest & Hd & Ht & _).
  - vm_compute. discriminate.
  - vm_compute in E. injection E as <- _. reflexivity.
  - exists in1, w1, in2, w2, n2, ret2, rest. auto.
Defined.

(** The started stream of the small platform owns the one slot of the
    heap. *)
Lemma disciplined_session_owns_one_slot_witness :
  ∃ in' w' v,
    startInputStream Stub.allocator Stub.channel_count unit Stub.accepting
      Stub.engine Stub.stream Stub.world = Done (in', w') ∧
    lvacfs_handle in' = 0x5000 ∧
    heap w' = <[lvacfs_handle in' := v]> (heap Stub.world).
Proof.
  destruct (startInputStream Stub.allocator Stub.channel_count unit
              Stub.accepting Stub.engine Stub.stream Stub.world)
    as [[in' w']|] eqn:E; [|vm_compute in E; discriminate].
  assert (Hh : lvacfs_handle in' = 0x5000)
    by (vm_compute in E; injection E as <- _; reflexivity).
  destruct (disciplined_session_owns_one_slot true Stub.allocator
              Stub.channel_count Stub.bytes_per_sample unit Stub.accepting
              Stub.engine in' Stub.world w') as (_ & _ & _ & Hown).
  - apply (disciplined_start _ _ _ _ _ _ _ _ Stub.stream Stub.world);
      [apply disciplined_new; reflexivity | reflexivity | exact E].
  - destruct Hown as (_ & v & Hv); [rewrite Hh; discriminate|].
    exists in', w', v. auto.
Defined.

(** * Concrete runs: threads *)

Lemma two_threads_initial :
  initial unit
    (mk_config unit {[ 0%nat := Stub.started ]} Stub.two_threads
       Stub.started_world).
Proof.
  split; simpl.
  - intros tid th H. unfold Stub.two_threads in H.
    apply lookup_insert_Some in H as [[_ <-] | [_ H]]; [reflexivity|].
    apply lookup_insert_Some in H as [[_ <-] | [_ H]]; [reflexivity|].
    rewrite lookup_empty in H. discriminate.
  - intros s in_ H. apply lookup_singleton_Some in H as [_ <-].
    reflexivity.
Qed.

Lemma one_thread_each_initial :
  initial unit
    (mk_config unit Stub.two_streams Stub.one_thread_each
       Stub.two_slots_world).
Proof.
  split; simpl.
  - intros tid th H. unfold Stub.one_thread_each in H.
    apply lookup_insert_Some in H as [[_ <-] | [_ H]]; [reflexivity|].
    apply lookup_insert_Some in H as [[_ <-] | [_ H]]; [reflexivity|].
    rewrite lookup_empty in H. discriminate.
  - intros s in_ H. unfold Stub.two_streams in H.
    apply lookup_insert_Some in H as [[_ <-] | [_ H]]; [reflexivity|].
    apply lookup_insert_Some in H as [[_ <-] | [_ H]]; [reflexivity|].
    rewrite lookup_empty in H. discriminate.
Qed.

(** After thread 1 has taken the mutex of stream 0, the mutex is held and
    a thread is inside. *)
Lemma mutex_held_iff_thread_inside_witness :
  ∃ c1 tid th,
    thread_step true Stub.channel_count Stub.bytes_per_sample unit
      Stub.accepting Stub.engine 1
      (mk_config unit {[ 0%nat := Stub.started ]} Stub.two_threads
         Stub.started_world) = Some c1 ∧
    streams unit c1 !! 0%nat = Some (set_lvacfs_lock true Stub.started) ∧
    threads unit c1 !! tid = Some th ∧ t_stream th = 0%nat ∧
    holds_lock (t_pc th) = true.
Proof.
  destruct (thread_step true Stub.channel_count Stub.bytes_per_sample unit
              Stub.accepting Stub.engine 1
              (mk_config unit {[ 0%nat := Stub.started ]} Stub.two_threads
                 Stub.started_world)) as [c1|] eqn:E1;
    [|vm_compute in E1; discriminate].
  pose proof (reach_step _ _ _ _ _ _ _ _ _ _ (reach_start _ _ _ _ _ _ _) E1)
    as Hr.
  assert (H0 : streams unit c1 !! 0%nat
               = Some (set_lvacfs_lock true Stub.started)).
  { vm_compute in E1. injection E1 as <-. vm_compute. reflexivity. }
  destruct (mutex_held_iff_thread_inside true Stub.channel_count
              Stub.bytes_per_sample unit Stub.accepting Stub.engine _ c1
              two_threads_initial Hr) as (Hiff & _).
  destruct (proj1 (Hiff _ _ H0) eq_refl) as (tid & th & Hth & Hs & Hh).
  exists c1, tid, th. auto.
Defined.

(** Thread 2 waits for the mutex; its holder is another thread on the
    same stream, which can move unless it has crashed. *)
Lemma no_deadlock_witness :
  ∃ c1,
    thread_step true Stub.channel_count Stub.bytes_per_sample unit
      Stub.accepting Stub.engine 1
      (mk_config unit {[ 0%nat := Stub.started ]} Stub.two_threads
         Stub.started_world) = Some c1 ∧
    thread_step true Stub.channel_count Stub.bytes_per_sample unit
      Stub.accepting Stub.engine 2 c1 = None ∧
    ∃ t' th',
      t' ≠ 2%nat ∧ threads unit c1 !! t' = Some th' ∧
      holds_lock (t_pc th') = true ∧
      ((∃ f, t_pc th' = Crashed f) ∨
       ∃ c', thread_step true Stub.channel_count Stub.bytes_per_sample unit
               Stub.accepting Stub.engine t' c1 = Some c').
Proof.
  destruct (thread_step true Stub.channel_count Stub.bytes_per_sample unit
              Stub.accepting Stub.engine 1
              (mk_config unit {[ 0%nat := Stub.started ]} Stub.two_threads
                 Stub.started_world)) as [c1|] eqn:E1;
    [|vm_compute in E1; discriminate].
  pose proof (reach_step _ _ _ _ _ _ _ _ _ _ (reach_start _ _ _ _ _ _ _) E1)
    as Hr.
  assert (H2 : threads unit c1 !! 2%nat
               = Some (mk_thread 0 0x9000 3200 AtEntry)).
  { vm_compute in E1. injection E1 as <-. vm_compute. reflexivity. }
  assert (H0 : streams unit c1 !! 0%nat
               = Some (set_lvacfs_lock true Stub.started)).
  { vm_compute in E1. injection E1 as <-. vm_compute. reflexivity. }
  assert (Hnone : thread_step true Stub.channel_count Stub.bytes_per_sample
                    unit Stub.accepting Stub.engine 2 c1 = None).
  { vm_compute in E1. injection E1 as <-. vm_compute. reflexivity. }
  destruct (no_deadlock true Stub.channel_count Stub.bytes_per_sample unit
              Stub.accepting Stub.engine _ c1 2%nat _ _
              two_threads_initial Hr H2 H0 eq_refl) as (Hwait & _).
  destruct (Hwait Hnone) as (t' & th' & Hne & Ht' & _ & Hh' & Hmove).
  exists c1. split; [reflexivity|]. split; [exact Hnone|].
  exists t', th'. auto.
Defined.

(** While thread 1 holds the mutex of stream 0, thread 3 moves on
    stream 1 and stream 0 stays as it is. *)
Lemma stream_stable_while_locked_witness :
  ∃ c1 c2,
    thread_step true Stub.channel_count Stub.bytes_per_sample unit
      Stub.accepting Stub.engine 1
      (mk_config unit Stub.two_streams Stub.one_thread_each
         Stub.two_slots_world) = Some c1 ∧
    thread_step true Stub.channel_count Stub.bytes_per_sample unit
      Stub.accepting Stub.engine 3 c1 = Some c2 ∧
    streams unit c2 !! 0%nat = streams unit c1 !! 0%nat.
Proof.
  destruct (thread_step true Stub.channel_count Stub.bytes_per_sample unit
              Stub.accepting Stub.engine 1
              (mk_config unit Stub.two_streams Stub.one_thread_each
                 Stub.two_slots_world)) as [c1|] eqn:E1;
    [|vm_compute in E1; discriminate].
  destruct (thread_step true Stub.channel_count Stub.bytes_per_sample unit
              Stub.accepting Stub.engine 3 c1) as [c2|] eqn:E2.
  2:{ vm_compute in E1. injection E1 as <-. vm_compute in E2.
      discriminate. }
  pose proof (reach_step _ _ _ _ _ _ _ _ _ _ (reach_start _ _ _ _ _ _ _) E1)
    as Hr.
  assert (H1 : threads unit c1 !! 1%nat
               = Some (mk_thread 0 0x9000 3200 Locked)).
  { vm_compute in E1. injection E1 as <-. vm_compute. reflexivity. }
  destruct (stream_stable_while_locked true Stub.channel_count
              Stub.bytes_per_sample unit Stub.accepting Stub.engine _ c1 c2
              1%nat 3%nat _ one_thread_each_initial Hr H1 eq_refl
              ltac:(discriminate) E2) as (Hsame & _).
  exists c1, c2. split; [reflexivity|]. split; [exact E2|]. exact Hsame.
Defined.
